(** * Profile acquisition and merge engine: internal/driver/fetch.go

    A shallow embedding of the functions of [fetch.go] and the properties
    of the acquisition engine proved about them.

    Conventions of the embedding.
    - Go's [int], [int64] and [time.Duration] are [Z] with the 64-bit
      two's-complement wrap-around written out ([wrap64]).
    - A Go pointer or map that may be [nil] is an [option]; [error] is an
      [option] of the message ([None] is Go's [nil] error).
    - [plugin.MappingSources] and [url.Values] are [gmap]s keyed by strings.
    - Everything outside the process (network, file system, environment,
      the object tool, the symbolizer, the user interface) is reached
      through interface records whose methods transform an abstract
      environment; every such call is recorded in the trace of the run. *)

From Stdlib Require Import ZArith Lia.
From stdpp Require Import gmap strings list fin_maps.

Open Scope Z_scope.

(** ** Machine integers and durations *)

(** Signed 64-bit wrap-around of Go's [int64] arithmetic. *)
Definition wrap64 (z : Z) : Z := (z + 2 ^ 63) mod 2 ^ 64 - 2 ^ 63.

Definition max_int64 : Z := 2 ^ 63 - 1.
Definition min_int64 : Z := - 2 ^ 63.

Module time.
  (** [time.Duration] is an [int64] count of nanoseconds. *)
Definition Duration := Z.
Definition Second : Duration := 1000000000.
  (** [a + b], [a * b] and [a / b] on [time.Duration]. *)
Definition add (a b : Duration) : Duration := wrap64 (a + b).
Definition mul (a b : Duration) : Duration := wrap64 (a * b).
Definition div (a b : Duration) : Duration := wrap64 (Z.quot a b).
End time.

#[global] Instance byte_eq_dec : EqDecision Byte.byte := Byte.byte_eq_dec.

(** ** Data model *)

Definition error := string.

(** [profile.Mapping], the fields [fetch.go] reads or writes. *)
Record Mapping := mkMapping {
  Start : Z;
  Limit : Z;
  Offset : Z;
  File : string;
  BuildID : string
}.

Definition setFile (m : Mapping) (f : string) : Mapping :=
  mkMapping (Start m) (Limit m) (Offset m) f (BuildID m).

Definition setBuildID (m : Mapping) (b : string) : Mapping :=
  mkMapping (Start m) (Limit m) (Offset m) (File m) b.

(** [profile.Profile]: the mapping list, the sample type names and the
    sample values; the engine only inspects the first two. *)
Record Profile := mkProfile {
  Mappings : list Mapping;
  SampleType : list string;
  Sample : list (list Z)
}.

Definition setMappings (p : Profile) (ms : list Mapping) : Profile :=
  mkProfile ms (SampleType p) (Sample p).

(** One entry of [plugin.MappingSources]: [struct{Source string; Start uint64}]. *)
Record SourceEntry := mkEntry {
  Source : string;
  EStart : Z
}.

(** [plugin.MappingSources] is [map[string][]struct{...}]. *)
Abbreviation MappingSources := (gmap string (list SourceEntry)).

(** Modelled from the spec: the declaration of [source] is outside
    [fetch.go]; these are the fields [fetch.go] uses, the source
    configuration of the specification. *)
Record source := mkSource {
  Sources : list string;
  Base : list string;
  ExecName : string;
  SrcBuildID : string;
  Seconds : Z;
  Timeout : Z;
  Symbolize : string
}.

(** ** The profile package as the engine sees it

    [profile.Merge], [measurement.ScaleProfiles] and the methods of
    [*profile.Profile] are collaborators of the engine.  Scaling happens in
    place in Go, so the scaling operations return the scaled values.  A
    [[]*profile.Profile] is a list of possibly nil pointers. *)
Class ProfileOps := {
  CheckValid : Profile -> option error;
  Scale : Z -> Profile -> Profile;
  RemoveUninteresting : Profile -> Profile;
  ScaleProfiles : list (option Profile) -> error + list (option Profile);
  Merge : list (option Profile) -> error + Profile
}.

(** ** combineProfiles *)

(** [msrc[m] = append(msrc[m], s...)]: a missing key reads as the nil slice. *)
Definition appendEntries (acc : MappingSources) (ms : string * list SourceEntry)
  : MappingSources :=
  <[ms.1 := default [] (acc !! ms.1) ++ ms.2]> acc.

(** The inner loop [for m, s := range ms] over one enumeration of [ms]. *)
Definition rangeSources (acc : MappingSources) (kvs : list (string * list SourceEntry))
  : MappingSources :=
  foldl appendEntries acc kvs.

(** The entries of a possibly nil map; ranging over a nil map does nothing. *)
Definition entriesOf (ms : option MappingSources) : list (string * list SourceEntry) :=
  match ms with
  | Some m => map_to_list m
  | None => []
  end.

(** The two nested loops of [combineProfiles], starting from [make(...)]. *)
Definition combineSources (msrcs : list (option MappingSources)) : MappingSources :=
  foldl (fun acc ms => rangeSources acc (entriesOf ms)) ∅ msrcs.

Definition combineProfiles `{ProfileOps} (profiles : list (option Profile))
    (msrcs : list (option MappingSources)) : error + (Profile * MappingSources) :=
  match ScaleProfiles profiles with
  | inl err => inl err
  | inr scaled =>
      match Merge scaled with
      | inl err => inl err
      | inr p => inr (p, combineSources msrcs)
      end
  end.

(** ** Go's standard library, pure part

    [net/url], [strconv], [fmt], [path/filepath] and the float conversion
    [Duration.Seconds] are outside the repository: the engine is
    parametrised by them. *)

(** [url.URL], the fields the engine reads or writes. *)
Record URL := mkURL {
  Scheme : string;
  Host : string;
  Path : string;
  RawQuery : string
}.

Definition setRawQuery (u : URL) (q : string) : URL :=
  mkURL (Scheme u) (Host u) (Path u) q.

(** [u.IsAbs()] is [u.Scheme != ""]. *)
Definition IsAbs (u : URL) : bool := bool_decide (Scheme u ≠ "").

(** [url.Values] is [map[string][]string]. *)
Abbreviation Values := (gmap string (list string)).

(** [values.Get(key)]: the first value of the key, or the empty string. *)
Definition Values_Get (v : Values) (key : string) : string :=
  match v !! key with
  | Some (x :: _) => x
  | _ => ""
  end.

(** [values.Set(key, value)] replaces the values of the key. *)
Definition Values_Set (v : Values) (key value : string) : Values :=
  <[key := [value]]> v.

Class Lib := {
  url_Parse : string -> error + URL;
  url_Query : URL -> Values;
  url_Encode : Values -> string;
  url_String : URL -> string;
  (** [strconv.ParseInt(s, base, bitSize)] *)
  strconv_ParseInt : string -> Z -> Z -> error + Z;
  (** [int(d.Seconds())], a float computation *)
  Duration_Seconds : time.Duration -> Z;
  (** [fmt.Sprint] of an [int] and of a [time.Duration] *)
  Sprint_int : Z -> string;
  Sprint_Duration : time.Duration -> string;
  filepath_Base : string -> string;
  filepath_Join : list string -> string;
  filepath_SplitList : string -> list string
}.

(** ** The outside world *)

(** [*os.File]: its name and the descriptor the system handed out. *)
Record OsFile := mkFile {
  Name : string;
  fd : Z
}.

(** A readable stream ([io.ReadCloser]): an open file or a response body. *)
Inductive Reader :=
| ReaderFile (f : OsFile)
| ReaderBody (id : Z).

(** [*http.Response], the fields the engine reads. *)
Record Response := mkResponse {
  StatusCode : Z;
  Status : string;
  Body : Z
}.

Definition http_StatusOK : Z := 200.

(** [plugin.ObjFile]: an opened candidate binary and the build identity
    its [BuildID()] method reports. *)
Record ObjFile := mkObjFile {
  objName : string;
  objBuildID : string
}.

(** Every call that leaves the process, with its arguments and its answer. *)
Inductive event :=
| EvPrint (args : list string)
| EvPrintErr (args : list string)
| EvFetch (src : string) (duration timeout : time.Duration)
          (answer : option Profile * string * option error)
| EvHttpGet (url : string) (headerTimeout : time.Duration) (answer : error + Response)
| EvOpen (path : string) (answer : error + OsFile)
| EvRead (f : OsFile) (len : nat) (answer : error + list Byte.byte)
| EvClose (r : Reader)
| EvNewTempFile (dir prefix suffix : string) (answer : error + OsFile)
| EvDeferDelete (path : string)
| EvRun (cmd : string) (args : list string) (answer : option error)
| EvParse (r : Reader) (answer : error + Profile)
| EvWrite (p : Profile) (f : OsFile) (answer : option error)
| EvGetenv (key : string) (answer : string)
| EvTempDir (answer : string)
| EvMkdirAll (dir : string) (perm : Z) (answer : option error)
| EvGlob (pattern : string) (answer : error + list string)
| EvObjOpen (name : string) (start limit offset : Z) (answer : error + ObjFile)
| EvObjClose (f : ObjFile)
| EvSymbolize (mode : string) (msrcs : option MappingSources) (p : Profile)
              (answer : error + Profile).

Section World.
  (** The state of everything outside the process. *)
Context {Env : Type}.

  (** A computation reads and changes the environment and emits events. *)
Definition M (A : Type) : Type := Env -> A * Env * list event.

Definition ret {A} (a : A) : M A := fun e => (a, e, []).

Definition bind {A B} (c : M A) (k : A -> M B) : M B :=
    fun e =>
      let '(a, e1, t1) := c e in
      let '(b, e2, t2) := k a e1 in
      (b, e2, t1 ++ t2).

  (** A call to the outside: run it and record it with its answer. *)
Definition call {A} (ev : A -> event) (f : Env -> A * Env) : M A :=
    fun e => let '(a, e1) := f e in (a, e1, [ev a]).

Definition emit (ev : event) : M unit := fun e => (tt, e, [ev]).

  (** The operating system, the network and the profile codec.
      [newTempFile] and [deferDeleteTempFile] are functions of the
      repository declared outside [fetch.go]; they are taken as given. *)
Class System := {
    os_Getenv : string -> Env -> string * Env;
    os_TempDir : Env -> string * Env;
    os_MkdirAll : string -> Z -> Env -> option error * Env;
    os_Open : string -> Env -> (error + OsFile) * Env;
    (** [f.Read(buf)] with [len(buf) = n]: the bytes read, at most [n] *)
    file_Read : OsFile -> nat -> Env -> (error + list Byte.byte) * Env;
    reader_Close : Reader -> Env -> unit * Env;
    filepath_Glob : string -> Env -> (error + list string) * Env;
    newTempFile : string -> string -> string -> Env -> (error + OsFile) * Env;
    deferDeleteTempFile : string -> Env -> unit * Env;
    (** [exec.Command(name, args...).Run()] *)
    exec_Run : string -> list string -> Env -> option error * Env;
    (** [(&http.Client{Transport: &http.Transport{ResponseHeaderTimeout: t}}).Get(url)] *)
    http_ClientGet : string -> time.Duration -> Env -> (error + Response) * Env;
    profile_Parse : Reader -> Env -> (error + Profile) * Env;
    profile_Write : Profile -> OsFile -> Env -> option error * Env
  }.

  (** [plugin.Fetcher] *)
Record Fetcher := mkFetcher {
    Fetch : string -> time.Duration -> time.Duration ->
            Env -> (option Profile * string * option error) * Env
  }.

  (** [plugin.ObjTool], the part the engine uses *)
Record ObjTool := mkObjTool {
    obj_Open : string -> Z -> Z -> Z -> Env -> (error + ObjFile) * Env;
    obj_Close : ObjFile -> Env -> unit * Env
  }.

  (** [plugin.Symbolizer]; symbolization rewrites the profile in place. *)
Record Symbolizer := mkSymbolizer {
    Sym_Symbolize : string -> option MappingSources -> Profile ->
                    Env -> (error + Profile) * Env
  }.

  (** [plugin.Options], the fields [fetchProfiles] uses; the user
      interface [o.UI] is the trace itself. *)
Record Options := mkOptions {
    o_Fetch : option Fetcher;
    o_Obj : ObjTool;
    o_Sym : Symbolizer
  }.
End World.

Arguments M : clear implicits.
Arguments System : clear implicits.
Arguments Fetcher : clear implicits.
Arguments ObjTool : clear implicits.
Arguments Symbolizer : clear implicits.
Arguments Options : clear implicits.

Declare Scope fetch_scope.
Delimit Scope fetch_scope with fetch.
Notation "x <- c ;; k" := (bind c (fun x => k))
  (at level 100, c at next level, right associativity) : fetch_scope.
Notation "c ;;; k" := (bind c (fun _ => k))
  (at level 100, right associativity) : fetch_scope.
Open Scope fetch_scope.

(** [ui.Print] and [ui.PrintErr] *)
Definition ui_Print {Env} (args : list string) : M Env unit := emit (EvPrint args).
Definition ui_PrintErr {Env} (args : list string) : M Env unit := emit (EvPrintErr args).

(** The message of Go's run-time panic on a nil pointer.  The engine
    dereferences a profile pointer only where it cannot be nil
    (see [fetch_nil_profile] and [chunkedGrab_profile]); the model gives such a step this
    error instead of leaving it undefined. *)
Definition nil_dereference : error :=
  "runtime error: invalid memory address or nil pointer dereference".

(** ** adjustURL and httpGet *)

(** The [else] branch of the duration override: read [seconds] from the URL. *)
Definition urlDuration `{Lib} (values : Values) (duration : time.Duration)
  : time.Duration :=
  let urlSeconds := Values_Get values "seconds" in
  if decide (urlSeconds ≠ "") then
    match strconv_ParseInt urlSeconds 10 32 with
    | inr us => time.mul us time.Second
    | inl _ => duration
    end
  else duration.

(** The duration in force after the override block of [adjustURL]. *)
Definition effectiveDuration `{Lib} (values : Values) (duration : time.Duration)
  : time.Duration :=
  if 0 <? duration then duration else urlDuration values duration.

(** [if timeout <= 0 { ... }] *)
Definition effectiveTimeout (duration timeout : time.Duration) : time.Duration :=
  if timeout <=? 0 then
    if 0 <? duration then time.add duration (time.div duration 2)
    else 60 * time.Second
  else timeout.

(** [url.Parse(source)], retried with the [http://] prefix. *)
Definition parseSource `{Lib} (source : string) : error + URL :=
  match url_Parse source with
  | inl _ => url_Parse ("http://" +:+ source)
  | inr u =>
      if decide (Host u = "" ∧ Scheme u ≠ "" ∧ Scheme u ≠ "file")
      then url_Parse ("http://" +:+ source)
      else inr u
  end.

Definition adjustURL `{Lib} (source : string) (duration timeout : time.Duration)
  : string * time.Duration :=
  match parseSource source with
  | inl _ => ("", 0)
  | inr u =>
      if decide (Host u = "") then ("", 0)
      else
        let values := url_Query u in
        let values' :=
          if 0 <? duration
          then Values_Set values "seconds" (Sprint_int (Duration_Seconds duration))
          else values in
        let duration' := effectiveDuration values duration in
        let timeout' := effectiveTimeout duration' timeout in
        (url_String (setRawQuery u (url_Encode values')), timeout')
  end.

(** The [ResponseHeaderTimeout] that [httpGet] hands to the transport. *)
Definition responseHeaderTimeout (timeout : time.Duration) : time.Duration :=
  time.add timeout (5 * time.Second).

Section Fetch.
Context {Env : Type} `{Lib} `{ProfileOps} `{System Env}.

Definition getenv (key : string) : M Env string :=
    call (EvGetenv key) (os_Getenv key).

Definition close (r : Reader) : M Env unit :=
    call (fun _ => EvClose r) (reader_Close r).

Definition httpGet (url : string) (timeout : time.Duration)
    : M Env (error + Response) :=
    let t := responseHeaderTimeout timeout in
    call (EvHttpGet url t) (http_ClientGet url t).

Definition fetchURL (source : string) (timeout : time.Duration)
    : M Env (error + Reader) :=
    r <- httpGet source timeout ;;
    match r with
    | inl err => ret (inl ("http fetch " +:+ source +:+ ": " +:+ err))
    | inr resp =>
        if decide (StatusCode resp ≠ http_StatusOK)
        then ret (inl ("server response: " +:+ Status resp))
        else ret (inr (ReaderBody (Body resp)))
    end.

Definition perfHeader : list Byte.byte := String.list_byte_of_string "PERFILE2".

Definition isPerfFile (path : string) : M Env bool :=
    r <- call (EvOpen path) (os_Open path) ;;
    match r with
    | inl _ => ret false
    | inr sourceFile =>
        let n := length perfHeader in
        rd <- call (EvRead sourceFile n) (file_Read sourceFile n) ;;
        close (ReaderFile sourceFile) ;;;
        match rd with
        | inl _ => ret false
        | inr bytes =>
            let actualHeader := take n (bytes ++ replicate n Byte.x00) in
            ret (bool_decide (actualHeader = perfHeader))
        end
    end.

Definition convertPerfData (perfPath : string) : M Env (error + OsFile) :=
    ui_Print ["Converting " +:+ perfPath +:+
              " to a profile.proto... (May take a few minutes)"] ;;;
    tmp <- call EvTempDir os_TempDir ;;
    r <- call (EvNewTempFile tmp "pprof_" ".pb.gz") (newTempFile tmp "pprof_" ".pb.gz") ;;
    match r with
    | inl err => ret (inl err)
    | inr profile =>
        call (fun _ => EvDeferDelete (Name profile)) (deferDeleteTempFile (Name profile)) ;;;
        let args := [perfPath; Name profile] in
        e <- call (EvRun "perf_to_profile" args) (exec_Run "perf_to_profile" args) ;;
        match e with
        | Some err =>
            close (ReaderFile profile) ;;;
            ret (inl ("failed to convert perf.data file. Try github.com/google/perf_data_converter: " +:+ err))
        | None => ret (inr profile)
        end
    end.

  (** The three ways [fetch] opens its source: the stream or the error,
      and the source string, which is set on the HTTP branch only. *)
Definition openSource (source : string) (duration timeout : time.Duration)
    : M Env ((error + Reader) * string) :=
    let '(sourceURL, timeout') := adjustURL source duration timeout in
    if decide (sourceURL ≠ "") then
      ui_Print ["Fetching profile over HTTP from " +:+ sourceURL] ;;;
      (if 0 <? duration
       then ui_Print ["Please wait... (" +:+ Sprint_Duration duration +:+ ")"]
       else ret tt) ;;;
      f <- fetchURL sourceURL timeout' ;;
      ret (f, sourceURL)
    else
      perf <- isPerfFile source ;;
      if perf then
        f <- convertPerfData source ;;
        ret (match f with inl e => inl e | inr fl => inr (ReaderFile fl) end, "")
      else
        f <- call (EvOpen source) (os_Open source) ;;
        ret (match f with inl e => inl e | inr fl => inr (ReaderFile fl) end, "").

Definition fetch (source : string) (duration timeout : time.Duration)
    : M Env (option Profile * string * option error) :=
    r <- openSource source duration timeout ;;
    match r with
    | (inl err, src) => ret (None, src, Some err)
    | (inr f, src) =>
        pr <- call (EvParse f) (profile_Parse f) ;;
        close f ;;;
        match pr with
        | inl err => ret (None, src, Some err)
        | inr p => ret (Some p, src, None)
        end
    end.

  (** ** setTmpDir *)

  (** The loop of [setTmpDir] over its candidate directories. *)
Fixpoint tryTmpDirs (dirs : list string) : M Env (string * option error) :=
    match dirs with
    | [] => ret ("", Some "failed to identify temp dir")
    | tmpDir :: rest =>
        e <- call (EvMkdirAll tmpDir 493) (os_MkdirAll tmpDir 493) ;;
        match e with
        | Some err =>
            ui_PrintErr ["Could not use temp dir "; tmpDir; ": "; err] ;;;
            tryTmpDirs rest
        | None => ret (tmpDir, None)
        end
    end.

Definition setTmpDir : M Env (string * option error) :=
    profileDir <- getenv "PPROF_TMPDIR" ;;
    if decide (profileDir ≠ "") then ret (profileDir, None)
    else
      home <- getenv "HOME" ;;
      tmp <- call EvTempDir os_TempDir ;;
      tryTmpDirs [home +:+ "/pprof"; tmp].
End Fetch.

(** ** collectMappingSources and unsourceMappings *)

(** One iteration of the loop of [collectMappingSources]: the mappings
    rewritten so far and the map built so far. *)
Definition collectStep (source : string) (st : list Mapping * MappingSources)
    (m : Mapping) : list Mapping * MappingSources :=
  let src := mkEntry source (Start m) in
  let key := BuildID m in
  let key := if decide (key = "") then File m else key in
  let '(m', key) :=
    if decide (key = "") then (setFile m source, source) else (m, key) in
  (st.1 ++ [m'], <[key := default [] (st.2 !! key) ++ [src]]> st.2).

Definition collectMappingSources (p : Profile) (source : string)
  : Profile * MappingSources :=
  let '(ms, msrc) := foldl (collectStep source) ([], ∅) (Mappings p) in
  (setMappings p ms, msrc).

(** The body of the loop of [unsourceMappings]. *)
Definition unsourceMapping `{Lib} (m : Mapping) : Mapping :=
  if decide (BuildID m = "") then
    match url_Parse (File m) with
    | inr u => if IsAbs u then setFile m "" else m
    | inl _ => m
    end
  else m.

Definition unsourceMappings `{Lib} (p : Profile) : Profile :=
  setMappings p (map unsourceMapping (Mappings p)).

(** ** locateBinaries *)

(** The overrides of the first mapping ([if i == 0 { ... }]). *)
Definition applyOverrides (s : source) (i : nat) (m : Mapping) : Mapping :=
  if decide (i = 0%nat) then
    let m1 := if decide (ExecName s ≠ "") then setFile m (ExecName s) else m in
    if decide (SrcBuildID s ≠ "") then setBuildID m1 (SrcBuildID s) else m1
  else m.

Definition baseNameOf `{Lib} (m : Mapping) : string :=
  if decide (File m ≠ "") then filepath_Base (File m) else "".

(** The text of the build-id mismatch report. *)
Definition mismatchMessage (name buildID fileBuildID : string) : string :=
  "Ignoring local file " +:+ name +:+ ": build-id mismatch (" +:+
  buildID +:+ " != " +:+ fileBuildID +:+ ")".

Section Locate.
Context {Env : Type} `{Lib} `{System Env}.

Definition searchPath : M Env string :=
  sp <- getenv "PPROF_BINARY_PATH" ;;
  if decide (sp = "") then
    home <- getenv "HOME" ;;
    ret (filepath_Join [home; "pprof"; "binaries"])
  else ret sp.

(** The candidate file names of one mapping under one search-path entry. *)
Definition fileNames (path : string) (m : Mapping) (baseName : string)
  : M Env (list string) :=
  names <- (if decide (BuildID m ≠ "") then
              let first := [filepath_Join [path; BuildID m; baseName]] in
              let pattern := filepath_Join [path; BuildID m; "*"] in
              g <- call (EvGlob pattern) (filepath_Glob pattern) ;;
              ret (match g with
                   | inr matches => first ++ matches
                   | inl _ => first
                   end)
            else ret []) ;;
  ret (if decide (baseName ≠ "")
       then names ++ [filepath_Join [path; baseName]]
       else names).

(** [for _, name := range fileNames]: the accepted name, if any, and the
    object files opened so far (their [Close] is deferred), latest first. *)
Fixpoint tryNames (obj : ObjTool Env) (m : Mapping) (names : list string)
    (opened : list ObjFile) : M Env (option string * list ObjFile) :=
  match names with
  | [] => ret (None, opened)
  | name :: rest =>
      r <- call (EvObjOpen name (Start m) (Limit m) (Offset m))
                (obj_Open obj name (Start m) (Limit m) (Offset m)) ;;
      match r with
      | inl _ => tryNames obj m rest opened
      | inr f =>
          let fileBuildID := objBuildID f in
          if decide (BuildID m ≠ "" ∧ BuildID m ≠ fileBuildID) then
            ui_PrintErr [mismatchMessage name (BuildID m) fileBuildID] ;;;
            tryNames obj m rest (f :: opened)
          else ret (Some name, f :: opened)
      end
  end.

(** [for _, path := range filepath.SplitList(searchPath)] *)
Fixpoint tryPaths (obj : ObjTool Env) (m : Mapping) (baseName : string)
    (paths : list string) (opened : list ObjFile)
  : M Env (option string * list ObjFile) :=
  match paths with
  | [] => ret (None, opened)
  | path :: rest =>
      names <- fileNames path m baseName ;;
      r <- tryNames obj m names opened ;;
      match r with
      | (Some name, opened') => ret (Some name, opened')
      | (None, opened') => tryPaths obj m baseName rest opened'
      end
  end.

(** The body of the loop over the mappings, for the mapping at index [i]. *)
Definition locateMapping (obj : ObjTool Env) (s : source) (sp : string)
    (i : nat) (m : Mapping) (opened : list ObjFile)
  : M Env (Mapping * list ObjFile) :=
  let m := applyOverrides s i m in
  let baseName := baseNameOf m in
  r <- tryPaths obj m baseName (filepath_SplitList sp) opened ;;
  match r with
  | (Some name, opened') => ret (setFile m name, opened')
  | (None, opened') => ret (m, opened')
  end.

Fixpoint locateLoop (obj : ObjTool Env) (s : source) (sp : string)
    (i : nat) (ms : list Mapping) (opened : list ObjFile)
  : M Env (list Mapping * list ObjFile) :=
  match ms with
  | [] => ret ([], opened)
  | m :: rest =>
      r <- locateMapping obj s sp i m opened ;;
      r' <- locateLoop obj s sp (S i) rest r.2 ;;
      ret (r.1 :: r'.1, r'.2)
  end.

(** The deferred [f.Close()] calls, run when [locateBinaries] returns. *)
Fixpoint closeAll (obj : ObjTool Env) (fs : list ObjFile) : M Env unit :=
  match fs with
  | [] => ret tt
  | f :: rest =>
      call (fun _ => EvObjClose f) (obj_Close obj f) ;;;
      closeAll obj rest
  end.

Definition locateBinaries (p : Profile) (s : source) (obj : ObjTool Env)
  : M Env Profile :=
  sp <- searchPath ;;
  r <- locateLoop obj s sp 0 (Mappings p) [] ;;
  closeAll obj r.2 ;;;
  ret (setMappings p r.1).
End Locate.

(** ** grabProfile *)

(** The results of [grabProfile]: [(p, msrc, remote, err)]. *)
Definition grabResult : Type :=
  option Profile * option MappingSources * bool * option error.

(** [profileSource]: a fetch task and the slot its results are written to. *)
Record profileSource := mkProfileSource {
  addr : string;
  psource : source;
  scale : Z;
  p_ : option Profile;
  msrc_ : option MappingSources;
  remote_ : bool;
  err_ : option error
}.

(** A task that has not run yet. *)
Definition task (a : string) (s : source) (sc : Z) : profileSource :=
  mkProfileSource a s sc None None false None.

(** The results of [concurrentGrab] and of [chunkedGrab]:
    [(p, msrc, save, count, err)]. *)
Definition chunkResult : Type :=
  option Profile * option MappingSources * bool * Z * option error.

Definition chunkSize : nat := 64.

Section Grab.
Context {Env : Type} `{Lib} `{ProfileOps} `{System Env}.

(** [grabProfile] from [p.CheckValid()] on, for a profile in hand. *)
Definition grabChecked (s : source) (sc : Z) (obj : ObjTool Env)
    (p : option Profile) (src : string) : M Env grabResult :=
  match p with
  | None => ret (None, None, false, Some nil_dereference)
  | Some p =>
      match CheckValid p with
      | Some err => ret (Some p, None, false, Some err)
      | None =>
          p <- locateBinaries (Scale sc p) s obj ;;
          if decide (src ≠ "") then
            let '(p', msrc) := collectMappingSources p src in
            ret (Some p', Some msrc, true, None)
          else ret (Some p, None, false, None)
      end
  end.

(** The block [if err != nil || p == nil { ... }] and what follows it,
    entered with [err == nil]. *)
Definition grabFallback (s : source) (source : string) (sc : Z)
    (obj : ObjTool Env) (duration timeout : time.Duration)
    (p : option Profile) (src : string) : M Env grabResult :=
  match p with
  | Some _ => grabChecked s sc obj p src
  | None =>
      r <- fetch source duration timeout ;;
      match r with
      | (p, _, Some err) => ret (p, None, false, Some err)
      | (p, src, None) => grabChecked s sc obj p src
      end
  end.

Definition grabProfile (s : source) (source : string) (sc : Z)
    (fetcher : option (Fetcher Env)) (obj : ObjTool Env) : M Env grabResult :=
  let duration := time.mul (Seconds s) time.Second in
  let timeout := time.mul (Timeout s) time.Second in
  match fetcher with
  | Some f =>
      r <- call (EvFetch source duration timeout) (Fetch f source duration timeout) ;;
      match r with
      | (p, _, Some err) => ret (p, None, false, Some err)
      | (p, src, None) => grabFallback s source sc obj duration timeout p src
      end
  | None => grabFallback s source sc obj duration timeout None ""
  end.

(** ** concurrentGrab *)

(** The goroutine of one task: run [grabProfile] and fill the slot. *)
Definition runTask (fetch : option (Fetcher Env)) (obj : ObjTool Env)
    (s : profileSource) : M Env profileSource :=
  r <- grabProfile (psource s) (addr s) (scale s) fetch obj ;;
  let '(p, msrc, remote, err) := r in
  ret (mkProfileSource (addr s) (psource s) (scale s) p msrc remote err).

(** The parallel phase up to [wg.Wait()]: every task runs to completion
    and writes its own slot only.  The tasks are run here in the order
    of the list, one of the interleavings of the goroutines. *)
Fixpoint runTasks (fetch : option (Fetcher Env)) (obj : ObjTool Env)
    (sources : list profileSource) : M Env (list profileSource) :=
  match sources with
  | [] => ret []
  | s :: rest =>
      s' <- runTask fetch obj s ;;
      rest' <- runTasks fetch obj rest ;;
      ret (s' :: rest')
  end.

(** The loop after the barrier: failures are reported and dropped.  Go
    clears the slot of a task it has collected ([*s = profileSource{}]);
    the slots are not read again, so the model does not return them. *)
Fixpoint collectSlots (slots : list profileSource) (save : bool)
    (profiles : list (option Profile)) (msrcs : list (option MappingSources))
  : M Env (bool * list (option Profile) * list (option MappingSources)) :=
  match slots with
  | [] => ret (save, profiles, msrcs)
  | s :: rest =>
      match err_ s with
      | Some err =>
          ui_PrintErr [addr s +:+ ": " +:+ err] ;;;
          collectSlots rest save profiles msrcs
      | None =>
          collectSlots rest (save || remote_ s) (profiles ++ [p_ s]) (msrcs ++ [msrc_ s])
      end
  end.

Definition concurrentGrab (sources : list profileSource)
    (fetch : option (Fetcher Env)) (obj : ObjTool Env) : M Env chunkResult :=
  slots <- runTasks fetch obj sources ;;
  r <- collectSlots slots false [] [] ;;
  let '(save, profiles, msrcs) := r in
  if decide (length profiles = 0%nat) then ret (None, None, false, 0, None)
  else
    match combineProfiles profiles msrcs with
    | inl err => ret (None, None, false, 0, Some err)
    | inr (p, msrc) =>
        ret (Some p, Some msrc, save, Z.of_nat (length profiles), None)
    end.

(** ** chunkedGrab *)

(** [sources[start:end]] *)
Definition slice {A} (l : list A) (start end_ : nat) : list A :=
  take (end_ - start) (drop start l).

(** The loop of [chunkedGrab] from index [start] with the running
    [(p, msrc, save, count)].  [fuel] bounds the number of iterations;
    [None] is returned only when it runs out ([chunkedGrab_returns] shows it does not). *)
Fixpoint chunkLoop (fuel : nat) (sources : list profileSource)
    (fetch : option (Fetcher Env)) (obj : ObjTool Env) (start : nat)
    (st : option Profile * option MappingSources * bool * Z)
  : M Env (option chunkResult) :=
  match fuel with
  | O => ret None
  | S fuel' =>
      let '(p, msrc, save, count) := st in
      if decide (start < length sources)%nat then
        let end_ := (start + chunkSize)%nat in
        let end_ := if decide (length sources < end_)%nat
                    then length sources else end_ in
        r <- concurrentGrab (slice sources start end_) fetch obj ;;
        let '(chunkP, chunkMsrc, chunkSave, chunkCount, chunkErr) := r in
        match chunkErr, chunkP, p with
        | Some err, _, _ => ret (Some (None, None, false, 0, Some err))
        | None, None, _ =>
            chunkLoop fuel' sources fetch obj (start + chunkSize) st
        | None, Some _, None =>
            chunkLoop fuel' sources fetch obj (start + chunkSize)
                      (chunkP, chunkMsrc, chunkSave, chunkCount)
        | None, Some _, Some _ =>
            match combineProfiles [p; chunkP] [msrc; chunkMsrc] with
            | inl err => ret (Some (None, None, false, 0, Some err))
            | inr (p', msrc') =>
                chunkLoop fuel' sources fetch obj (start + chunkSize)
                          (Some p', Some msrc',
                           if chunkSave then true else save,
                           wrap64 (count + chunkCount))
            end
        end
      else ret (Some (p, msrc, save, count, None))
  end.

Definition chunkedGrab (sources : list profileSource)
    (fetch : option (Fetcher Env)) (obj : ObjTool Env)
  : M Env (option chunkResult) :=
  chunkLoop (S (length sources)) sources fetch obj 0 (None, None, false, 0).

(** ** fetchProfiles *)

(** The name prefix of the saved copy. *)
Definition savePrefix (p : Profile) : string :=
  let prefix := "pprof." in
  let prefix :=
    match Mappings p with
    | m :: _ =>
        if decide (File m ≠ "") then prefix +:+ filepath_Base (File m) +:+ "."
        else prefix
    | [] => prefix
    end in
  foldl (fun acc ty => acc +:+ ty +:+ ".") prefix (SampleType p).

(** The end of [fetchProfiles]: [p.CheckValid()] and the return. *)
Definition checkedProfile (p : Profile) : option Profile * option error :=
  match CheckValid p with
  | Some err => (None, Some err)
  | None => (Some p, None)
  end.

(** [fetchProfiles] after the call of [chunkedGrab]. *)
Definition fetchedProfiles (s : source) (o : Options Env) (want : nat)
    (r : chunkResult) : M Env (option Profile * option error) :=
  let '(p, msrcs, save, cnt, err) := r in
  match err with
  | Some err => ret (None, Some err)
  | None =>
      if decide (cnt = 0) then ret (None, Some "failed to fetch any profiles")
      else
        (if decide (Z.of_nat want ≠ cnt)
         then ui_PrintErr ["fetched " +:+ Sprint_int cnt +:+ " profiles out of " +:+
                           Sprint_int (Z.of_nat want)]
         else ret tt) ;;;
        match p with
        | None => ret (None, Some nil_dereference)
        | Some p =>
            sr <- call (EvSymbolize (Symbolize s) msrcs p)
                       (Sym_Symbolize (o_Sym o) (Symbolize s) msrcs p) ;;
            match sr with
            | inl err => ret (None, Some err)
            | inr p =>
                let p := unsourceMappings (RemoveUninteresting p) in
                if save then
                  d <- setTmpDir ;;
                  match d with
                  | (_, Some err) => ret (None, Some err)
                  | (dir, None) =>
                      let prefix := savePrefix p in
                      tf <- call (EvNewTempFile dir prefix ".pb.gz")
                                 (newTempFile dir prefix ".pb.gz") ;;
                      match tf with
                      | inr tempFile =>
                          w <- call (EvWrite p tempFile) (profile_Write p tempFile) ;;
                          match w with
                          | None => ui_PrintErr ["Saved profile in "; Name tempFile]
                          | Some err => ui_PrintErr ["Could not save profile: "; err]
                          end
                      | inl err => ui_PrintErr ["Could not save profile: "; err]
                      end ;;;
                      ret (checkedProfile p)
                  end
                else ret (checkedProfile p)
            end
        end
  end.

(** The task list of [fetchProfiles]: the sources with scale 1, then the
    base profiles with scale -1. *)
Definition tasksOf (s : source) : list profileSource :=
  map (fun src => task src s 1) (Sources s) ++
  map (fun src => task src s (-1)) (Base s).

Definition fetchProfiles (s : source) (o : Options Env)
  : M Env (option (option Profile * option error)) :=
  let sources := tasksOf s in
  r <- chunkedGrab sources (o_Fetch o) (o_Obj o) ;;
  match r with
  | None => ret None
  | Some r =>
      res <- fetchedProfiles s o (length sources) r ;;
      ret (Some res)
  end.
End Grab.

(** ** Vocabulary of the statements *)

(** The entry list a possibly nil provenance map holds for a key. *)
Definition sourcesAt (ms : option MappingSources) (k : string)
  : option (list SourceEntry) :=
  ms ≫= (fun m => m !! k).

(** The entry lists the maps of [msrcs] hold for [k], in the order of [msrcs]. *)
Definition contributions (k : string) (msrcs : list (option MappingSources))
  : list (list SourceEntry) :=
  omap (fun ms => sourcesAt ms k) msrcs.

(** *** The search of the Binary Locator, as the specification words it

    For one mapping the locator tries, under each entry of the search
    path in order, the candidate names in order, until the object tool
    opens one whose build identity is acceptable. *)

(** The matches of a [filepath.Glob] answer; an error contributes none. *)
Definition globMatches (g : error + list string) : list string :=
  match g with
  | inr matches => matches
  | inl _ => []
  end.

(** The ordered candidate names under one search-path entry:
    [<path>/<buildID>/<baseName>] and the matches of [<path>/<buildID>/*]
    when the build identity is known, then [<path>/<baseName>]. *)
Definition candidateNames `{Lib} (path : string) (m : Mapping) (baseName : string)
    (globbed : list string) : list string :=
  (if decide (BuildID m ≠ "")
   then filepath_Join [path; BuildID m; baseName] :: globbed else []) ++
  (if decide (baseName ≠ "") then [filepath_Join [path; baseName]] else []).

(** The wildcard expansion is asked for only when the build identity is known. *)
Definition globTrace `{Lib} (path : string) (m : Mapping) (g : error + list string)
  : list event :=
  if decide (BuildID m ≠ "")
  then [EvGlob (filepath_Join [path; BuildID m; "*"]) g] else [].

(** The trace of trying a list of candidate names, and the accepted name. *)
Inductive namesTrace (m : Mapping) : list string → list event → option string → Prop :=
| nt_none : namesTrace m [] [] None
| nt_unopened name rest err tr r :
    namesTrace m rest tr r →
    namesTrace m (name :: rest)
      (EvObjOpen name (Start m) (Limit m) (Offset m) (inl err) :: tr) r
| nt_mismatch name rest f tr r :
    BuildID m ≠ "" → BuildID m ≠ objBuildID f →
    namesTrace m rest tr r →
    namesTrace m (name :: rest)
      (EvObjOpen name (Start m) (Limit m) (Offset m) (inr f) ::
       EvPrintErr [mismatchMessage name (BuildID m) (objBuildID f)] :: tr) r
| nt_accept name rest f :
    BuildID m = "" ∨ BuildID m = objBuildID f →
    namesTrace m (name :: rest)
      [EvObjOpen name (Start m) (Limit m) (Offset m) (inr f)] (Some name).

(** The trace of the search over the entries of the search path. *)
Inductive pathsTrace `{Lib} (m : Mapping) (baseName : string)
  : list string → list event → option string → Prop :=
| pt_none : pathsTrace m baseName [] [] None
| pt_next path rest g tr1 tr2 r :
    namesTrace m (candidateNames path m baseName (globMatches g)) tr1 None →
    pathsTrace m baseName rest tr2 r →
    pathsTrace m baseName (path :: rest) (globTrace path m g ++ tr1 ++ tr2) r
| pt_found path rest g tr1 name :
    namesTrace m (candidateNames path m baseName (globMatches g)) tr1 (Some name) →
    pathsTrace m baseName (path :: rest) (globTrace path m g ++ tr1) (Some name).

(** What the locator makes of a mapping once the search has ended. *)
Definition located (m : Mapping) (r : option string) : Mapping :=
  match r with
  | Some name => setFile m name
  | None => m
  end.

(** *** The chunk fetcher and the coordinator *)

(** The slots whose task succeeded, in the order of the chunk. *)
Definition survivors (slots : list profileSource) : list profileSource :=
  filter (fun s => err_ s = None) slots.

(** The failure reports of the loop after the barrier. *)
Definition reports (slots : list profileSource) : list event :=
  omap (fun s => (fun err => EvPrintErr [addr s +:+ ": " +:+ err]) <$> err_ s) slots.

(** A task and the slot it filled. *)
Definition sameTask (t s : profileSource) : Prop :=
  addr s = addr t ∧ psource s = psource t ∧ scale s = scale t.

(** Consecutive chunks of at most [n] elements. *)
Fixpoint chunksAux {A} (fuel n : nat) (l : list A) : list (list A) :=
  match fuel, l with
  | O, _ => []
  | _, [] => []
  | S fuel', _ => take n l :: chunksAux fuel' n (drop n l)
  end.

Definition chunksOf {A} (n : nat) (l : list A) : list (list A) :=
  chunksAux (length l) n l.

Section Coordinator.
Context {Env : Type} `{Lib} `{ProfileOps} `{System Env}.

(** The coordinator as the specification words it: the chunks are
    processed in order, an empty chunk result is skipped, the first
    result is adopted, later ones are merged into the running aggregate,
    and a merge error ends the call at once. *)
Fixpoint mergeChunks (chunks : list (list profileSource))
    (fetch : option (Fetcher Env)) (obj : ObjTool Env)
    (st : option Profile * option MappingSources * bool * Z)
  : M Env chunkResult :=
  match chunks with
  | [] => let '(p, msrc, save, count) := st in ret (p, msrc, save, count, None)
  | c :: rest =>
      let '(p, msrc, save, count) := st in
      r <- concurrentGrab c fetch obj ;;
      let '(chunkP, chunkMsrc, chunkSave, chunkCount, chunkErr) := r in
      match chunkErr, chunkP, p with
      | Some err, _, _ => ret (None, None, false, 0, Some err)
      | None, None, _ => mergeChunks rest fetch obj st
      | None, Some _, None =>
          mergeChunks rest fetch obj (chunkP, chunkMsrc, chunkSave, chunkCount)
      | None, Some _, Some _ =>
          match combineProfiles [p; chunkP] [msrc; chunkMsrc] with
          | inl err => ret (None, None, false, 0, Some err)
          | inr (p', msrc') =>
              mergeChunks rest fetch obj
                (Some p', Some msrc', chunkSave || save, wrap64 (count + chunkCount))
          end
      end
  end.
End Coordinator.

(** *** Further vocabulary: provenance keys, kinds of calls *)

(** The key under which [collectMappingSources] files a mapping: its
    build identity, else its file, else the source itself. *)
Definition mappingKey (source : string) (m : Mapping) : string :=
  if decide (BuildID m ≠ "") then BuildID m
  else if decide (File m ≠ "") then File m
  else source.

(** A mapping with neither build identity nor file gets the source as file. *)
Definition sourced (source : string) (m : Mapping) : Mapping :=
  if decide (BuildID m = "" ∧ File m = "") then setFile m source else m.

(** The provenance entry of a mapping. *)
Definition entryOf (source : string) (m : Mapping) : SourceEntry :=
  mkEntry source (Start m).

(** Calls that reach the local file system or start a process. *)
Definition touchesFiles (ev : event) : bool :=
  match ev with
  | EvOpen _ _ | EvRead _ _ _ | EvNewTempFile _ _ _ _ | EvDeferDelete _
  | EvRun _ _ _ | EvTempDir _ | EvMkdirAll _ _ _ | EvWrite _ _ _ => true
  | _ => false
  end.

(** Calls that reach the network. *)
Definition touchesNetwork (ev : event) : bool :=
  match ev with
  | EvHttpGet _ _ _ => true
  | _ => false
  end.

(** The object files a trace opened, and those it closed, in order. *)
Definition opensOf (tr : list event) : list ObjFile :=
  omap (fun ev => match ev with
                  | EvObjOpen _ _ _ _ (inr f) => Some f
                  | _ => None
                  end) tr.

Definition closesOf (tr : list event) : list ObjFile :=
  omap (fun ev => match ev with
                  | EvObjClose f => Some f
                  | _ => None
                  end) tr.

(** Reports to the user. *)
Definition isPrintErr (ev : event) : bool :=
  match ev with
  | EvPrintErr _ => true
  | _ => false
  end.



(** What a coordinator that did not chunk would have accumulated from
    the surviving slots [surv]: their number, whether one of them was
    remote, and the provenance of all of them merged at once. *)
Definition flatResult (surv : list profileSource)
    (st : option Profile * option MappingSources * bool * Z) : Prop :=
  let '(p, msrc, save, count) := st in
  count = Z.of_nat (length surv) ∧
  save = existsb remote_ surv ∧
  (surv = [] → p = None ∧ msrc = None) ∧
  (surv ≠ [] → is_Some p ∧ msrc = Some (combineSources (msrc_ <$> surv))).

(** Calls that only the end of [fetchProfiles] makes: symbolizing,
    creating a directory and writing a profile. *)
Definition savesOrSymbolizes (ev : event) : bool :=
  match ev with
  | EvWrite _ _ _ | EvSymbolize _ _ _ _ | EvMkdirAll _ _ _ => true
  | _ => false
  end.

(** An answer that makes a profile a remote one: a response with status
    200, or a profile of the pluggable fetcher that comes with a source
    string. *)
Definition remoteEvidence (ev : event) : bool :=
  match ev with
  | EvHttpGet _ _ (inr resp) => bool_decide (StatusCode resp = http_StatusOK)
  | EvFetch _ _ _ (Some _, src, None) => bool_decide (src ≠ "")
  | _ => false
  end.

Definition quiet (tr : list event) : Prop :=
  Forall (fun ev => savesOrSymbolizes ev = false) tr.

Definition evidenced (tr : list event) : Prop :=
  Exists (fun ev => remoteEvidence ev = true) tr.

(** The calls [locateBinaries] makes. *)
Definition locating (ev : event) : bool :=
  match ev with
  | EvGetenv _ _ | EvGlob _ _ | EvObjOpen _ _ _ _ _ | EvObjClose _ | EvPrintErr _ => true
  | _ => false
  end.

Definition locates (tr : list event) : Prop :=
  Forall (fun ev => locating ev = true) tr.

(** *** The coordinator with the parallel phase left open

    [concurrentGrab] starts one goroutine per task and waits for all of
    them; Go fixes neither the order in which they run nor how their
    calls interleave.  Here the phase up to [wg.Wait()] is any
    computation [par] that takes the chunk and hands back its slots;
    [runTasks] is one such computation.  What follows the barrier is the
    code of [concurrentGrab] and of [chunkedGrab], as above. *)
Section OpenParallelPhase.
Context {Env : Type} `{ProfileOps}.
Variable par : list profileSource → M Env (list profileSource).

Definition concurrentGrabBy (sources : list profileSource) : M Env chunkResult :=
  slots <- par sources ;;
  r <- collectSlots slots false [] [] ;;
  let '(save, profiles, msrcs) := r in
  if decide (length profiles = 0%nat) then ret (None, None, false, 0, None)
  else
    match combineProfiles profiles msrcs with
    | inl err => ret (None, None, false, 0, Some err)
    | inr (p, msrc) =>
        ret (Some p, Some msrc, save, Z.of_nat (length profiles), None)
    end.

Fixpoint chunkLoopBy (fuel : nat) (sources : list profileSource) (start : nat)
    (st : option Profile * option MappingSources * bool * Z)
  : M Env (option chunkResult) :=
  match fuel with
  | O => ret None
  | S fuel' =>
      let '(p, msrc, save, count) := st in
      if decide (start < length sources)%nat then
        let end_ := (start + chunkSize)%nat in
        let end_ := if decide (length sources < end_)%nat
                    then length sources else end_ in
        r <- concurrentGrabBy (slice sources start end_) ;;
        let '(chunkP, chunkMsrc, chunkSave, chunkCount, chunkErr) := r in
        match chunkErr, chunkP, p with
        | Some err, _, _ => ret (Some (None, None, false, 0, Some err))
        | None, None, _ =>
            chunkLoopBy fuel' sources (start + chunkSize) st
        | None, Some _, None =>
            chunkLoopBy fuel' sources (start + chunkSize)
                        (chunkP, chunkMsrc, chunkSave, chunkCount)
        | None, Some _, Some _ =>
            match combineProfiles [p; chunkP] [msrc; chunkMsrc] with
            | inl err => ret (Some (None, None, false, 0, Some err))
            | inr (p', msrc') =>
                chunkLoopBy fuel' sources (start + chunkSize)
                            (Some p', Some msrc',
                             if chunkSave then true else save,
                             wrap64 (count + chunkCount))
            end
        end
      else ret (Some (p, msrc, save, count, None))
  end.

Definition chunkedGrabBy (sources : list profileSource) : M Env (option chunkResult) :=
  chunkLoopBy (S (length sources)) sources 0 (None, None, false, 0).

(** The slots of the chunks, one chunk after the other. *)
Fixpoint chunkSlotsBy (chunks : list (list profileSource)) : M Env (list profileSource) :=
  match chunks with
  | [] => ret []
  | c :: rest =>
      slots <- par c ;;
      slots' <- chunkSlotsBy rest ;;
      ret (slots ++ slots')
  end.
End OpenParallelPhase.

(** ** A small concrete world for the examples *)

Module Demo.

(** Every profile is valid, scaling changes nothing and merging keeps
    the first profile. *)
Definition ops : ProfileOps := {|
  CheckValid := fun _ => None;
  Scale := fun _ p => p;
  RemoveUninteresting := fun p => p;
  ScaleProfiles := fun ps => inr ps;
  Merge := fun ps =>
    match ps with
    | Some p :: _ => inr p
    | _ => inl "no profiles to merge"
    end
|}.

(** Profiles can be scaled together only when their sample types agree. *)
Definition sameTypes (ps : list (option Profile)) : bool :=
  match ps with
  | Some p :: rest =>
      forallb (fun q => match q with
                        | Some q => bool_decide (SampleType q = SampleType p)
                        | None => false
                        end) rest
  | _ => true
  end.

Definition strictOps : ProfileOps := {|
  CheckValid := fun _ => None;
  Scale := fun _ p => p;
  RemoveUninteresting := fun p => p;
  ScaleProfiles := fun ps =>
    if sameTypes ps then inr ps else inl "incompatible sample types";
  Merge := fun ps =>
    match ps with
    | Some p :: _ => inr p
    | _ => inl "no profiles to merge"
    end
|}.

Definition m0 : Mapping := mkMapping 4096 8192 0 "/bin/app" "b1".
Definition p0 : Profile := mkProfile [m0] ["cpu"] [[1]].
Definition pHeap : Profile := mkProfile [m0] ["inuse_space"] [[2]].

Definition ms1 : MappingSources :=
  {[ "b1" := [mkEntry "http://a/profile" 4096] ]}.
Definition ms2 : MappingSources :=
  {[ "b1" := [mkEntry "http://b/profile" 4096; mkEntry "http://b/profile" 12288];
     "b2" := [mkEntry "http://b/profile" 0] ]}.

(** A stand-in for the library: a string parses as a URL with a scheme
    and a host exactly when it starts with [http://]; paths are joined
    with slashes and the search path is a single directory. *)
Definition parse (s : string) : error + URL :=
  if String.prefix "http://" s
  then inr (mkURL "http" (String.substring 7 (String.length s - 7) s) "" "")
  else inr (mkURL "" "" s "").

(** The last element of a slash-separated path. *)
Fixpoint base (s acc : string) : string :=
  match s with
  | EmptyString => acc
  | String c r =>
      if Ascii.eqb c (Ascii.ascii_of_nat 47) then base r "" else base r (acc +:+ String c "")
  end.

Definition lib : Lib := {|
  url_Parse := parse;
  url_Query := fun _ => ∅;
  url_Encode := fun _ => "";
  url_String := fun u => Scheme u +:+ "://" +:+ Host u;
  strconv_ParseInt := fun _ _ _ => inl "invalid syntax";
  Duration_Seconds := fun d => Z.quot d time.Second;
  Sprint_int := fun _ => "n";
  Sprint_Duration := fun _ => "d";
  filepath_Base := fun s => base s "";
  filepath_Join := fun l => String.concat "/" l;
  filepath_SplitList := fun s => [s]
|}.

(** A mapping that [collectMappingSources] marked with the source URL. *)
Definition m1 : Mapping := mkMapping 0 4096 0 "http://host/profile" "".

(** A world that answers every call from fixed tables and never changes. *)
Record World := mkWorld {
  vars : string -> string;
  mkdir : string -> option error;
  get : string -> error + Response;
  parseBody : Reader -> error + Profile;
  binaries : string -> error + ObjFile;
  fetcher : string -> option Profile * string * option error
}.

Definition sys : System World := {|
  os_Getenv := fun k w => (vars w k, w);
  os_TempDir := fun w => ("/tmp", w);
  os_MkdirAll := fun d _ w => (mkdir w d, w);
  os_Open := fun _ w => (inl "no such file or directory", w);
  file_Read := fun _ _ w => (inr [], w);
  reader_Close := fun _ w => (tt, w);
  filepath_Glob := fun _ w => (inr [], w);
  newTempFile := fun dir prefix suffix w => (inr (mkFile (dir +:+ "/" +:+ prefix +:+ suffix) 3), w);
  deferDeleteTempFile := fun _ w => (tt, w);
  exec_Run := fun _ _ w => (Some "executable file not found in $PATH", w);
  http_ClientGet := fun url _ w => (get w url, w);
  profile_Parse := fun r w => (parseBody w r, w);
  profile_Write := fun _ _ w => (None, w)
|}.

Definition theFetcher : Fetcher World :=
  mkFetcher (fun src _ _ w => (fetcher w src, w)).

Definition objTool : ObjTool World :=
  mkObjTool (fun name _ _ _ w => (binaries w name, w)) (fun _ w => (tt, w)).

Definition symbolizer : Symbolizer World :=
  mkSymbolizer (fun _ _ p w => (inr p, w)).

(** One server, serving [p0] at [http://host/profile] and [pHeap] at
    [http://host/heap]; no local binaries;
    [HOME] is [/home/u]; every directory can be created; the pluggable
    fetcher knows no source (it returns no profile and no error). *)
Definition world : World := {|
  vars := fun k => if decide (k = "HOME") then "/home/u" else "";
  mkdir := fun _ => None;
  get := fun url =>
    if decide (url = "http://host/profile") then inr (mkResponse 200 "200 OK" 7)
    else if decide (url = "http://host/heap") then inr (mkResponse 200 "200 OK" 8)
    else inl "connection refused";
  parseBody := fun r =>
    match r with
    | ReaderBody 7 => inr p0
    | ReaderBody 8 => inr pHeap
    | _ => inl "unrecognized profile format"
    end;
  binaries := fun _ => inl "no such file or directory";
  fetcher := fun _ => (None, "", None)
|}.

(** [world] with [PPROF_TMPDIR] set to a directory that cannot be created. *)
Definition lockedWorld : World := {|
  vars := fun k =>
    if decide (k = "PPROF_TMPDIR") then "/locked/dir"
    else if decide (k = "HOME") then "/home/u" else "";
  mkdir := fun d => if decide (d = "/locked/dir") then Some "permission denied" else None;
  get := get world;
  parseBody := parseBody world;
  binaries := binaries world;
  fetcher := fetcher world
|}.

(** [world] where no directory but the system's temporary one can be created. *)
Definition tmpOnlyWorld : World := {|
  vars := vars world;
  mkdir := fun d => if decide (d = "/tmp") then None else Some "read-only file system";
  get := get world;
  parseBody := parseBody world;
  binaries := binaries world;
  fetcher := fetcher world
|}.

(** [world] with two local binaries named [app]: the one filed under the
    build identity [b1] reports another identity, the other reports [b1]. *)
Definition binWorld : World := {|
  vars := vars world;
  mkdir := mkdir world;
  get := get world;
  parseBody := parseBody world;
  binaries := fun name =>
    if decide (name = "/home/u/pprof/binaries/b1/app")
    then inr (mkObjFile name "zz")
    else if decide (name = "/home/u/pprof/binaries/app")
    then inr (mkObjFile name "b1")
    else inl "no such file or directory";
  fetcher := fetcher world
|}.

(** [world] with a pluggable fetcher that fails on every source. *)
Definition failWorld : World := {|
  vars := vars world;
  mkdir := mkdir world;
  get := get world;
  parseBody := parseBody world;
  binaries := binaries world;
  fetcher := fun _ => (None, "", Some "fetcher: unsupported source")
|}.

(** A source configuration with no override, and one that names the executable. *)
Definition src0 : source := mkSource ["http://host/profile"] [] "" "" 0 0 "".
Definition srcExec : source := mkSource ["http://host/profile"] [] "other" "" 0 0 "".

(** A source configuration whose only source cannot be reached. *)
Definition srcDown : source := mkSource ["http://down/profile"] [] "" "" 0 0 "".

Definition options : Options World := mkOptions None objTool symbolizer.

(** A chunk of two tasks: a CPU profile and a heap profile. *)
Definition twoTasks : list profileSource :=
  [task "http://host/profile" src0 1; task "http://host/heap" src0 1].

(** The provenance of the two tasks: both profiles map the binary [b1]. *)
Definition twoSources : MappingSources :=
  {[ "b1" := [mkEntry "http://host/profile" 4096; mkEntry "http://host/heap" 4096] ]}.

(** 65 tasks: 64 CPU profiles and then a heap profile. *)
Definition manyTasks : list profileSource :=
  replicate 64 (task "http://host/profile" src0 1) ++ [task "http://host/heap" src0 1].

(** The provenance of the first 64 of them, and of all 65. *)
Definition sources64 : MappingSources :=
  {[ "b1" := replicate 64 (mkEntry "http://host/profile" 4096) ]}.
Definition sourcesHeap : MappingSources :=
  {[ "b1" := [mkEntry "http://host/heap" 4096] ]}.
Definition sources65 : MappingSources :=
  {[ "b1" := replicate 64 (mkEntry "http://host/profile" 4096) ++
             [mkEntry "http://host/heap" 4096] ]}.

(** The calls made for the first chunk, and for both chunks. *)
Definition trace64 : list event :=
  (@concurrentGrab _ lib ops sys (take 64 manyTasks) None objTool world).2.
Definition traceHeap : list event :=
  (@concurrentGrab _ lib ops sys (drop 64 manyTasks) None objTool world).2.
Definition trace65 : list event := trace64 ++ traceHeap.

End Demo.

(** ** Further examples *)

Module Demo2.

(** A legacy-format profile: its second mapping has neither build
    identity nor file, its third a local file only. *)
Definition mAnon : Mapping := mkMapping 0 4096 0 "" "".
Definition mLocal : Mapping := mkMapping 8192 12288 0 "/bin/tool" "".
Definition pLegacy : Profile := mkProfile [Demo.m0; mAnon; mLocal] ["cpu"] [[1]].

(** A file system with a perf.data capture, a file too short to be one,
    and a profile; the converter is installed and works; no network. *)
Definition fileBytes (name : string) : list Byte.byte :=
  if decide (name = "perf.data") then String.list_byte_of_string "PERFILE2 capture"
  else if decide (name = "short.bin") then String.list_byte_of_string "PERF"
  else String.list_byte_of_string "profile bytes".

Definition onDisk (name : string) : bool :=
  bool_decide (name = "perf.data" ∨ name = "short.bin" ∨ name = "profile.pb.gz").

Definition fsys : System unit := {|
  os_Getenv := fun _ w => ("", w);
  os_TempDir := fun w => ("/tmp", w);
  os_MkdirAll := fun _ _ w => (None, w);
  os_Open := fun path w =>
    (if onDisk path then inr (mkFile path 4) else inl "no such file or directory", w);
  file_Read := fun f n w => (inr (take n (fileBytes (Name f))), w);
  reader_Close := fun _ w => (tt, w);
  filepath_Glob := fun _ w => (inr [], w);
  newTempFile := fun dir prefix suffix w =>
    (inr (mkFile (dir +:+ "/" +:+ prefix +:+ "1" +:+ suffix) 5), w);
  deferDeleteTempFile := fun _ w => (tt, w);
  exec_Run := fun _ _ w => (None, w);
  http_ClientGet := fun _ _ w => (inl "network is unreachable", w);
  profile_Parse := fun r w =>
    (match r with
     | ReaderFile f =>
         if decide (Name f = "short.bin") then inl "unrecognized profile format"
         else inr Demo.p0
     | ReaderBody _ => inl "unrecognized profile format"
     end, w);
  profile_Write := fun _ _ w => (None, w)
|}.



(** Two sources, the second of which cannot be reached. *)
Definition srcPartial : source :=
  mkSource ["http://host/profile"; "http://down/profile"] [] "" "" 0 0 "".

(** [Demo.world] with a server that serves the legacy-format profile. *)
Definition legacyWorld : Demo.World := {|
  Demo.vars := Demo.vars Demo.world;
  Demo.mkdir := Demo.mkdir Demo.world;
  Demo.get := Demo.get Demo.world;
  Demo.parseBody := fun r =>
    match r with
    | ReaderBody 7 => inr pLegacy
    | _ => inl "unrecognized profile format"
    end;
  Demo.binaries := Demo.binaries Demo.world;
  Demo.fetcher := Demo.fetcher Demo.world
|}.

(** [Demo.world] on a read-only file system: no directory can be created. *)
Definition readOnlyWorld : Demo.World := {|
  Demo.vars := Demo.vars Demo.world;
  Demo.mkdir := fun _ => Some "read-only file system";
  Demo.get := Demo.get Demo.world;
  Demo.parseBody := Demo.parseBody Demo.world;
  Demo.binaries := Demo.binaries Demo.world;
  Demo.fetcher := Demo.fetcher Demo.world
|}.

(** The trace of [fetchProfiles] on the read-only file system. *)
Definition readOnlyTrace : list event :=
  (@fetchProfiles _ Demo.lib Demo.ops Demo.sys Demo.src0 Demo.options readOnlyWorld).2.
End Demo2.

(** * Properties *)

(** ** The monad *)

Lemma bind_run {Env A B} (c : M Env A) (k : A -> M Env B) e :
  bind c k e =
  (let '(a, e1, t1) := c e in let '(b, e2, t2) := k a e1 in (b, e2, t1 ++ t2)).
Proof. reflexivity. Qed.

Lemma ret_run {Env A} (a : A) (e : Env) : ret a e = (a, e, []).
Proof. reflexivity. Qed.

(** ** combineProfiles: the union of the provenance maps *)

Lemma rangeSources_notin (kvs : list (string * list SourceEntry)) :
  ∀ (acc : MappingSources) k, k ∉ kvs.*1 → rangeSources acc kvs !! k = acc !! k.
Proof.
  induction kvs as [|[k' v'] kvs IH]; intros acc k Hk; [done|].
  cbn in Hk. apply not_elem_of_cons in Hk as [Hne Hk].
  cbn. unfold rangeSources in IH. rewrite IH by done.
  unfold appendEntries; cbn. by rewrite lookup_insert_ne.
Qed.

Lemma rangeSources_in (kvs : list (string * list SourceEntry)) :
  ∀ (acc : MappingSources) k v,
    NoDup kvs.*1 → (k, v) ∈ kvs →
    rangeSources acc kvs !! k = Some (default [] (acc !! k) ++ v).
Proof.
  induction kvs as [|[k' v'] kvs IH]; intros acc k v Hnd Hin.
  - by apply elem_of_nil in Hin.
  - cbn in Hnd. apply NoDup_cons in Hnd as [Hk' Hnd].
    apply elem_of_cons in Hin as [Heq|Hin].
    + injection Heq as -> ->. cbn.
      change (foldl appendEntries ?a ?l) with (rangeSources a l).
      rewrite rangeSources_notin by done.
      unfold appendEntries; cbn. by rewrite lookup_insert_eq.
    + assert (k ≠ k') as Hne.
      { intros ->. apply Hk'. apply list_elem_of_fmap. by exists (k', v). }
      cbn. change (foldl appendEntries ?a ?l) with (rangeSources a l).
      rewrite (IH _ k v) by done.
      unfold appendEntries; cbn. by rewrite lookup_insert_ne.
Qed.

(** Go leaves the order in which [range] visits a map unspecified: the
    inner loop gives the same map for every enumeration of the entries. *)
Lemma rangeSources_perm (acc : MappingSources) (m : MappingSources)
    (kvs : list (string * list SourceEntry)) :
  kvs ≡ₚ map_to_list m → rangeSources acc kvs = rangeSources acc (map_to_list m).
Proof.
  intros Hp. apply map_eq; intros k.
  assert (NoDup kvs.*1) as Hnd.
  { rewrite Hp. apply NoDup_fst_map_to_list. }
  destruct (m !! k) as [v|] eqn:Hk.
  - assert ((k, v) ∈ map_to_list m) as Hin by (by apply elem_of_map_to_list).
    assert ((k, v) ∈ kvs) as Hin' by (by rewrite Hp).
    rewrite (rangeSources_in kvs acc k v) by done.
    rewrite (rangeSources_in (map_to_list m) acc k v); [done| |done].
    apply NoDup_fst_map_to_list.
  - assert (k ∉ (map_to_list m).*1) as Hn.
    { intros [[k' v] [-> Hin]]%list_elem_of_fmap.
      apply elem_of_map_to_list in Hin. cbn in Hk. congruence. }
    rewrite !rangeSources_notin; auto. by rewrite Hp.
Qed.

Lemma rangeSources_entriesOf (acc : MappingSources) ms k :
  rangeSources acc (entriesOf ms) !! k =
  match sourcesAt ms k with
  | Some v => Some (default [] (acc !! k) ++ v)
  | None => acc !! k
  end.
Proof.
  destruct ms as [m|]; cbn; [|done].
  destruct (m !! k) as [v|] eqn:Hk.
  - apply rangeSources_in; [apply NoDup_fst_map_to_list|].
    by apply elem_of_map_to_list.
  - apply rangeSources_notin.
    intros [[k' v] [-> Hin]]%list_elem_of_fmap.
    apply elem_of_map_to_list in Hin. cbn in Hk. congruence.
Qed.

Lemma contributions_cons k ms msrcs :
  contributions k (ms :: msrcs) =
  match sourcesAt ms k with
  | Some v => v :: contributions k msrcs
  | None => contributions k msrcs
  end.
Proof. reflexivity. Qed.

Lemma foldl_rangeSources msrcs :
  ∀ (acc : MappingSources) k,
    foldl (fun a ms => rangeSources a (entriesOf ms)) acc msrcs !! k =
    match acc !! k, contributions k msrcs with
    | None, [] => None
    | o, ls => Some (default [] o ++ concat ls)
    end.
Proof.
  induction msrcs as [|ms msrcs IH]; intros acc k.
  - cbn. destruct (acc !! k); cbn; by rewrite ?app_nil_r.
  - cbn [foldl]. rewrite IH, rangeSources_entriesOf, contributions_cons.
    destruct (sourcesAt ms k) as [v|]; cbn.
    + destruct (acc !! k); cbn; by rewrite ?app_assoc.
    + done.
Qed.

(** The union for any number of maps: a key is in the result when some
    input has it, with the concatenation of the inputs' lists in order. *)
Lemma combineSources_lookup msrcs k :
  combineSources msrcs !! k =
  match contributions k msrcs with
  | [] => None
  | ls => Some (concat ls)
  end.
Proof.
  unfold combineSources. rewrite foldl_rangeSources, lookup_empty.
  by destruct (contributions k msrcs).
Qed.

Lemma combineProfiles_sources `{ProfileOps} profiles msrcs p msrc :
  combineProfiles profiles msrcs = inr (p, msrc) → msrc = combineSources msrcs.
Proof.
  unfold combineProfiles.
  destruct (ScaleProfiles profiles); [done|].
  destruct (Merge _); [done|]. by intros [= _ <-].
Qed.

(** C4. In the provenance map that [combineProfiles] returns for two
    inputs, every key of either input holds the concatenation of the
    inputs' entry lists in input order, and no other key is present; for a
    shared key the length is the sum of the two lengths. *)
Theorem combineProfiles_union_lossless `{ProfileOps}
    (profiles : list (option Profile)) (a b : option MappingSources)
    (p : Profile) (msrc : MappingSources) :
  combineProfiles profiles [a; b] = inr (p, msrc) →
  ∀ k,
    msrc !! k =
      match sourcesAt a k, sourcesAt b k with
      | Some la, Some lb => Some (la ++ lb)
      | Some la, None => Some la
      | None, Some lb => Some lb
      | None, None => None
      end
    ∧ (∀ la lb, sourcesAt a k = Some la → sourcesAt b k = Some lb →
         ∃ l, msrc !! k = Some l ∧ l = la ++ lb ∧
              length l = (length la + length lb)%nat).
Proof.
  intros Hc k. apply combineProfiles_sources in Hc as ->.
  rewrite combineSources_lookup, !contributions_cons.
  split.
  - destruct (sourcesAt a k), (sourcesAt b k); cbn; by rewrite ?app_nil_r.
  - intros la lb -> ->. cbn. rewrite app_nil_r.
    eexists; split; [done|]. split; [done|]. by rewrite length_app.
Qed.

Lemma combineProfiles_union_lossless_witness :
  combineSources [Some Demo.ms1; Some Demo.ms2] !! "b1"
  = Some [mkEntry "http://a/profile" 4096; mkEntry "http://b/profile" 4096;
          mkEntry "http://b/profile" 12288].
Proof.
  pose proof (@combineProfiles_union_lossless Demo.ops [Some Demo.p0; Some Demo.p0]
                (Some Demo.ms1) (Some Demo.ms2) Demo.p0
                (combineSources [Some Demo.ms1; Some Demo.ms2]) eq_refl "b1") as [Hl _].
  rewrite Hl. vm_compute. reflexivity.
Defined.

(** ** unsourceMappings *)

Lemma unsourceMappings_lookup `{Lib} (p : Profile) (i : nat) :
  Mappings (unsourceMappings p) !! i = unsourceMapping <$> Mappings p !! i.
Proof. unfold unsourceMappings; cbn. apply list_lookup_fmap. Qed.

Lemma unsourceMappings_rest `{Lib} (p : Profile) :
  length (Mappings (unsourceMappings p)) = length (Mappings p) ∧
  SampleType (unsourceMappings p) = SampleType p ∧
  Sample (unsourceMappings p) = Sample p.
Proof. unfold unsourceMappings; cbn. by rewrite length_map. Qed.

(** C10. [unsourceMappings] keeps every mapping in its place and changes
    at most the file field, to the empty string; it changes a mapping only
    when its build identity is empty and its file parses as an absolute
    URL.  A mapping with a build identity, or whose file does not parse as
    an absolute URL, is left as it is. *)
Theorem unsourceMappings_frame `{Lib} (p : Profile) (i : nat) (m : Mapping) :
  Mappings p !! i = Some m →
  ∃ m', Mappings (unsourceMappings p) !! i = Some m' ∧
    (m' = m ∨ m' = setFile m "") ∧
    (m' ≠ m →
       BuildID m = "" ∧ ∃ u, url_Parse (File m) = inr u ∧ IsAbs u = true) ∧
    (BuildID m ≠ "" → m' = m) ∧
    ((∀ u, url_Parse (File m) = inr u → IsAbs u = false) → m' = m) ∧
    (BuildID m = "" → (∃ u, url_Parse (File m) = inr u ∧ IsAbs u = true) →
       m' = setFile m "").
Proof.
  intros Hm. exists (unsourceMapping m).
  rewrite unsourceMappings_lookup, Hm. split; [done|].
  unfold unsourceMapping.
  destruct (decide (BuildID m = "")) as [Hb|Hb]; [|by split_and!; auto].
  destruct (url_Parse (File m)) as [e|u] eqn:Hu.
  { split_and!; auto; [done|]. by intros _ (u & [=] & _). }
  destruct (IsAbs u) eqn:Ha.
  - split_and!; auto.
    + intros _. eauto.
    + done.
    + intros Hn. specialize (Hn u eq_refl). congruence.
  - split_and!; auto; [done|].
    intros _ (u' & [= <-] & Ha'). congruence.
Qed.

Lemma unsourceMappings_frame_witness :
  ∃ m', Mappings (@unsourceMappings Demo.lib
                    (mkProfile [Demo.m0; Demo.m1] ["cpu"] [])) !! 1%nat = Some m' ∧
        m' = setFile Demo.m1 "".
Proof.
  destruct (@unsourceMappings_frame Demo.lib
              (mkProfile [Demo.m0; Demo.m1] ["cpu"] []) 1 Demo.m1 eq_refl)
    as (m' & Hl & _ & _ & _ & _ & Hc).
  exists m'. split; [exact Hl|].
  apply Hc; [reflexivity|].
  eexists; split; reflexivity.
Defined.

(** ** setTmpDir *)

(** The loop over the two default candidates has three outcomes. *)
Lemma tryTmpDirs_two {Env} `{System Env} (d1 d2 : string) (e : Env) dir err e' tr :
  tryTmpDirs [d1; d2] e = ((dir, err), e', tr) →
  (dir = d1 ∧ err = None ∧ tr = [EvMkdirAll d1 493 None]) ∨
  (∃ e1, dir = d2 ∧ err = None ∧
         tr = [EvMkdirAll d1 493 (Some e1);
               EvPrintErr ["Could not use temp dir "; d1; ": "; e1];
               EvMkdirAll d2 493 None]) ∨
  (∃ e1 e2, dir = "" ∧ err = Some "failed to identify temp dir" ∧
         tr = [EvMkdirAll d1 493 (Some e1);
               EvPrintErr ["Could not use temp dir "; d1; ": "; e1];
               EvMkdirAll d2 493 (Some e2);
               EvPrintErr ["Could not use temp dir "; d2; ": "; e2]]).
Proof.
  cbn. unfold bind, call, ui_PrintErr, emit, ret.
  destruct (os_MkdirAll d1 493 e) as [[e1|] w1]; cbn.
  - destruct (os_MkdirAll d2 493 w1) as [[e2|] w2]; cbn; intros [= <- <- <- <-].
    + right; right. by exists e1, e2.
    + right; left. by exists e1.
  - intros [= <- <- <- <-]. by left.
Qed.

(** C6, as the code has it.  A non-empty [PPROF_TMPDIR] is returned as it
    is: nothing is created and no other candidate is tried.  With
    [PPROF_TMPDIR] empty, the first of [$HOME/pprof] and the system's
    temporary directory that [os.MkdirAll] can create is returned, each
    failure being reported, and the error is returned only when both
    fail. *)
Theorem setTmpDir_resolution {Env} `{System Env} (e : Env) dir err e' tr :
  setTmpDir e = ((dir, err), e', tr) →
  ∃ override,
    head tr = Some (EvGetenv "PPROF_TMPDIR" override) ∧
    (override ≠ "" →
       dir = override ∧ err = None ∧ tr = [EvGetenv "PPROF_TMPDIR" override]) ∧
    (override = "" →
       ∃ home tmp,
         let d1 := home +:+ "/pprof" in
         let pre := [EvGetenv "PPROF_TMPDIR" ""; EvGetenv "HOME" home; EvTempDir tmp] in
         (dir = d1 ∧ err = None ∧ tr = pre ++ [EvMkdirAll d1 493 None]) ∨
         (∃ e1, dir = tmp ∧ err = None ∧
            tr = pre ++ [EvMkdirAll d1 493 (Some e1);
                         EvPrintErr ["Could not use temp dir "; d1; ": "; e1];
                         EvMkdirAll tmp 493 None]) ∨
         (∃ e1 e2, dir = "" ∧ err = Some "failed to identify temp dir" ∧
            tr = pre ++ [EvMkdirAll d1 493 (Some e1);
                         EvPrintErr ["Could not use temp dir "; d1; ": "; e1];
                         EvMkdirAll tmp 493 (Some e2);
                         EvPrintErr ["Could not use temp dir "; tmp; ": "; e2]])).
Proof.
  unfold setTmpDir, getenv. rewrite bind_run. unfold call at 1.
  destruct (os_Getenv "PPROF_TMPDIR" e) as [override w0] eqn:Ho.
  destruct (decide (override ≠ "")) as [Hne|Heq].
  - cbn. intros [= <- <- <- <-]. exists override. split; [done|].
    split; [done|]. intros ->. done.
  - apply dec_stable in Heq as ->. rewrite bind_run. unfold call at 1.
    destruct (os_Getenv "HOME" w0) as [home w1].
    rewrite bind_run. unfold call at 1.
    destruct (os_TempDir w1) as [tmp w2].
    destruct (tryTmpDirs [home +:+ "/pprof"; tmp] w2) as [[[d er] w3] t3] eqn:Ht.
    cbn. intros [= <- <- <- <-].
    exists "". split; [done|]. split; [done|]. intros _.
    exists home, tmp. cbn.
    apply tryTmpDirs_two in Ht as [(-> & -> & ->)|[(e1 & -> & -> & ->)|(e1 & e2 & -> & -> & ->)]].
    + by left.
    + right; left. by exists e1.
    + right; right. by exists e1, e2.
Qed.

Lemma setTmpDir_resolution_witness :
  ∃ override,
    head [EvGetenv "PPROF_TMPDIR" ""; EvGetenv "HOME" "/home/u"; EvTempDir "/tmp";
          EvMkdirAll "/home/u/pprof" 493 (Some "read-only file system");
          EvPrintErr ["Could not use temp dir "; "/home/u/pprof"; ": ";
                      "read-only file system"];
          EvMkdirAll "/tmp" 493 None]
    = Some (EvGetenv "PPROF_TMPDIR" override).
Proof.
  destruct (@setTmpDir_resolution _ Demo.sys Demo.tmpOnlyWorld
              "/tmp" None Demo.tmpOnlyWorld _ eq_refl) as (o & Hh & _).
  exists o. exact Hh.
Defined.

(** C6 as stated fails: [PPROF_TMPDIR] names a directory that cannot be
    created while [$HOME/pprof] can; [setTmpDir] still returns the
    override, without an error and without trying to create anything. *)
Lemma setTmpDir_override_unchecked :
  @setTmpDir _ Demo.sys Demo.lockedWorld
    = (("/locked/dir", None), Demo.lockedWorld, [EvGetenv "PPROF_TMPDIR" "/locked/dir"])
  ∧ (@os_MkdirAll _ Demo.sys "/locked/dir" 493 Demo.lockedWorld).1
    = Some "permission denied"
  ∧ (@os_MkdirAll _ Demo.sys "/home/u/pprof" 493 Demo.lockedWorld).1 = None.
Proof. repeat split. Qed.

(** ** adjustURL and httpGet: the timeout *)

Lemma wrap64_small (z : Z) : min_int64 <= z <= max_int64 → wrap64 z = z.
Proof.
  unfold wrap64, min_int64, max_int64. intros Hz.
  rewrite Z.mod_small; lia.
Qed.

Lemma wrap64_range (z : Z) : min_int64 <= wrap64 z <= max_int64.
Proof.
  unfold wrap64, min_int64, max_int64.
  pose proof (Z.mod_pos_bound (z + 2 ^ 63) (2 ^ 64) ltac:(lia)). lia.
Qed.

(** For a whole number of seconds that is not too large, the timeout is
    one and a half times the duration, exactly. *)
Lemma effectiveTimeout_seconds (n timeout : Z) :
  timeout <= 0 → 0 < n <= 6148914691 →
  2 * effectiveTimeout (n * time.Second) timeout = 3 * (n * time.Second).
Proof.
  intros Ht Hn. unfold effectiveTimeout, time.add, time.div, time.Second.
  rewrite (proj2 (Z.leb_le _ _)) by done.
  rewrite (proj2 (Z.ltb_lt _ _)) by lia.
  replace (n * 1000000000) with (n * 500000000 * 2) by lia.
  rewrite Z.quot_mul by lia.
  rewrite (wrap64_small (n * 500000000)) by (unfold min_int64, max_int64; lia).
  rewrite wrap64_small by (unfold min_int64, max_int64; lia).
  lia.
Qed.

Example timeout_30s :
  effectiveTimeout (30 * time.Second) 0 = 45 * time.Second ∧
  responseHeaderTimeout (45 * time.Second) = 50 * time.Second.
Proof. split; reflexivity. Qed.

Example timeout_default :
  effectiveTimeout 0 0 = 60 * time.Second ∧
  responseHeaderTimeout (60 * time.Second) = 65 * time.Second.
Proof. split; reflexivity. Qed.

Lemma adjustURL_http `{Lib} source duration timeout url t :
  adjustURL source duration timeout = (url, t) → url ≠ "" →
  ∃ u, parseSource source = inr u ∧ Host u ≠ "" ∧
       t = effectiveTimeout (effectiveDuration (url_Query u) duration) timeout.
Proof.
  unfold adjustURL. destruct (parseSource source) as [e|u]; [by intros [= <- _]|].
  destruct (decide (Host u = "")); [by intros [= <- _]|].
  intros [= _ <-] _. by exists u.
Qed.

(** C5, as the code has it.  For an HTTP source and no timeout from the
    caller, [adjustURL] returns [duration + duration/2] in 64-bit
    arithmetic when the duration in force is positive, which is exactly
    1.5 times a duration of [n] whole seconds for [n] up to 6148914691,
    and 60 seconds when the duration in force is zero or negative.  The
    duration in force is the caller's when positive, else the one read
    from the [seconds] parameter of the URL when there is one and it
    parses, else again the caller's, so that a plain URL with no duration
    gets 60 seconds.  [httpGet]
    adds 5 seconds, again in 64-bit arithmetic, and hands the sum to the
    transport. *)
Theorem adjustURL_timeout {Env} `{Lib} `{System Env}
    (source : string) (duration timeout : time.Duration) (url : string)
    (t : time.Duration) :
  adjustURL source duration timeout = (url, t) → url ≠ "" → timeout <= 0 →
  ∃ u, parseSource source = inr u ∧
    let d := effectiveDuration (url_Query u) duration in
    (0 < duration → d = duration) ∧
    (duration <= 0 →
       ∀ us, Values_Get (url_Query u) "seconds" ≠ "" →
             strconv_ParseInt (Values_Get (url_Query u) "seconds") 10 32 = inr us →
             d = wrap64 (us * time.Second)) ∧
    (duration <= 0 → Values_Get (url_Query u) "seconds" = "" → d = duration) ∧
    (duration <= 0 →
       ∀ er, strconv_ParseInt (Values_Get (url_Query u) "seconds") 10 32 = inl er →
             d = duration) ∧
    (0 < d → t = wrap64 (d + wrap64 (Z.quot d 2))) ∧
    (∀ n, d = n * time.Second → 0 < n <= 6148914691 → 2 * t = 3 * d) ∧
    (d <= 0 → t = 60 * time.Second) ∧
    (∀ (e : Env), ∃ answer,
       (httpGet url t e).2 = [EvHttpGet url (wrap64 (t + 5 * time.Second)) answer]) ∧
    (min_int64 <= t <= max_int64 - 5 * time.Second →
       responseHeaderTimeout t = t + 5 * time.Second).
Proof.
  intros Ha Hu Ht.
  destruct (adjustURL_http _ _ _ _ _ Ha Hu) as (u & Hp & _ & ->).
  exists u. split; [done|]. cbn zeta. split_and!.
  - intros Hd. unfold effectiveDuration.
    by rewrite (proj2 (Z.ltb_lt _ _)) by done.
  - intros Hd us Hs Hus. unfold effectiveDuration, urlDuration.
    rewrite (proj2 (Z.ltb_ge _ _)) by done.
    rewrite decide_True by done. by rewrite Hus.
  - intros Hd Hs. unfold effectiveDuration, urlDuration.
    rewrite (proj2 (Z.ltb_ge _ _)) by done.
    by rewrite decide_False by (by intros Hn; apply Hn).
  - intros Hd er Her. unfold effectiveDuration, urlDuration.
    rewrite (proj2 (Z.ltb_ge _ _)) by done.
    destruct (decide (Values_Get (url_Query u) "seconds" ≠ "")); [|done].
    by rewrite Her.
  - intros Hd. unfold effectiveTimeout.
    rewrite (proj2 (Z.leb_le _ _)) by done.
    by rewrite (proj2 (Z.ltb_lt _ _)) by done.
  - intros n -> Hn. by apply effectiveTimeout_seconds.
  - intros Hd. unfold effectiveTimeout.
    rewrite (proj2 (Z.leb_le _ _)) by done.
    by rewrite (proj2 (Z.ltb_ge _ _)) by done.
  - intros e. unfold httpGet, call, responseHeaderTimeout, time.add.
    destruct (http_ClientGet _ _ e) as [answer e1]. by exists answer.
  - intros Hr. unfold responseHeaderTimeout, time.add.
    apply wrap64_small. unfold time.Second, min_int64, max_int64 in *. lia.
Qed.

Lemma adjustURL_timeout_witness :
  2 * (45 * time.Second) = 3 * (30 * time.Second) ∧
  responseHeaderTimeout (45 * time.Second) = 45 * time.Second + 5 * time.Second ∧
  (@adjustURL Demo.lib "http://host/profile" 0 0).2 = 60 * time.Second.
Proof.
  destruct (@adjustURL_timeout _ Demo.lib Demo.sys
              "http://host/profile" (30 * time.Second) 0 "http://host/profile"
              (45 * time.Second) eq_refl ltac:(done) ltac:(done))
    as (u & _ & _ & _ & _ & _ & _ & Hx & _ & _ & Hm).
  split; [|split].
  - apply (Hx 30); [|done].
    unfold effectiveDuration. reflexivity.
  - apply Hm. unfold min_int64, max_int64, time.Second. lia.
  - destruct (@adjustURL_timeout _ Demo.lib Demo.sys
                "http://host/profile" 0 0 _ _ eq_refl ltac:(done) ltac:(done))
      as (u0 & Hp & _ & _ & Hplain & _ & _ & _ & H60 & _).
    injection Hp as <-. apply H60.
    rewrite (Hplain ltac:(done) eq_refl). done.
Defined.

(** C5 as stated fails for a long capture: with [-seconds 7000000000]
    the duration is positive and fits 64 bits, but [duration + duration/2]
    wraps around and the timeout comes out negative, not 1.5 times the
    duration. *)
Lemma adjustURL_timeout_wraps :
  0 < time.mul 7000000000 time.Second ∧
  (@adjustURL Demo.lib "http://host/profile" (time.mul 7000000000 time.Second) 0).2
    = -7946744073709551616 ∧
  2 * -7946744073709551616 ≠ 3 * time.mul 7000000000 time.Second.
Proof. split; [reflexivity|]. split; [reflexivity|]. by vm_compute. Qed.

(** ** locateBinaries *)

(** Name the three results of running a computation in the goal or in [H]. *)
Ltac run_step c e a e1 t1 Heq :=
  destruct (c e) as [[a e1] t1] eqn:Heq.

Lemma tryNames_trace {Env} (obj : ObjTool Env) (m : Mapping) (names : list string) :
  ∀ opened e r opened' e' tr,
    tryNames obj m names opened e = ((r, opened'), e', tr) →
    namesTrace m names tr r.
Proof.
  induction names as [|name rest IH]; intros opened e r opened' e' tr.
  - cbn. intros [= <- _ _ <-]. constructor.
  - cbn [tryNames]. rewrite bind_run. unfold call at 1.
    destruct (obj_Open obj name (Start m) (Limit m) (Offset m) e) as [[err|f] e1].
    + run_step (tryNames obj m rest opened) e1 a e2 t2 Hrun. destruct a as [r2 o2].
      intros [= <- _ _ <-]. cbn. constructor. eauto.
    + destruct (decide (BuildID m ≠ "" ∧ BuildID m ≠ objBuildID f)) as [[Hb Hne]|Hacc].
      * rewrite bind_run. unfold ui_PrintErr, emit.
        run_step (tryNames obj m rest (f :: opened)) e1 a e2 t2 Hrun.
        destruct a as [r2 o2]. intros [= <- _ _ <-]. cbn.
        apply nt_mismatch; eauto.
      * cbn. intros [= <- _ _ <-]. apply nt_accept.
        destruct (decide (BuildID m = "")); [by left|right].
        destruct (decide (BuildID m = objBuildID f)); [done|]. by destruct Hacc.
Qed.

Lemma fileNames_run {Env} `{Lib} `{System Env} path m baseName (e : Env) names e' tr :
  fileNames path m baseName e = (names, e', tr) →
  ∃ g, tr = globTrace path m g ∧
       names = candidateNames path m baseName (globMatches g).
Proof.
  unfold fileNames, globTrace, candidateNames. rewrite bind_run.
  destruct (decide (BuildID m ≠ "")) as [Hb|Hb].
  - rewrite bind_run. unfold call at 1.
    destruct (filepath_Glob _ e) as [g e1]. cbn.
    intros [= <- _ <-]. exists g. split; [done|].
    destruct g as [err|matches]; cbn;
      destruct (decide (baseName ≠ "")); by rewrite ?app_nil_r.
  - cbn. intros [= <- _ <-]. exists (inr []). split; [done|].
    destruct (decide (baseName ≠ "")); by rewrite ?app_nil_r.
Qed.

Lemma tryPaths_trace {Env} `{Lib} `{System Env} (obj : ObjTool Env) m baseName paths :
  ∀ opened (e : Env) r opened' e' tr,
    tryPaths obj m baseName paths opened e = ((r, opened'), e', tr) →
    pathsTrace m baseName paths tr r.
Proof.
  induction paths as [|path rest IH]; intros opened e r opened' e' tr.
  - cbn. intros [= <- _ _ <-]. constructor.
  - cbn [tryPaths]. rewrite bind_run.
    run_step (fileNames path m baseName) e names e1 t1 Hf.
    apply fileNames_run in Hf as (g & -> & ->).
    rewrite bind_run.
    run_step (tryNames obj m (candidateNames path m baseName (globMatches g)) opened)
             e1 a e2 t2 Hn.
    destruct a as [[name|] o2]; apply tryNames_trace in Hn.
    + cbn. intros [= <- _ _ <-]. rewrite app_nil_r. by apply pt_found.
    + run_step (tryPaths obj m baseName rest o2) e2 a e3 t3 Hp.
      destruct a as [r3 o3]. intros [= <- _ _ <-].
      apply pt_next; eauto.
Qed.

Lemma locateMapping_run {Env} `{Lib} `{System Env} (obj : ObjTool Env) s sp i m
    opened (e : Env) m' opened' e' tr :
  locateMapping obj s sp i m opened e = ((m', opened'), e', tr) →
  ∃ r, pathsTrace (applyOverrides s i m) (baseNameOf (applyOverrides s i m))
                  (filepath_SplitList sp) tr r ∧
       m' = located (applyOverrides s i m) r.
Proof.
  unfold locateMapping. rewrite bind_run.
  run_step (tryPaths obj (applyOverrides s i m) (baseNameOf (applyOverrides s i m))
                     (filepath_SplitList sp) opened) e a e1 t1 Hp.
  destruct a as [r o1]. apply tryPaths_trace in Hp.
  destruct r as [name|]; cbn; intros [= <- _ _ <-]; rewrite app_nil_r; eauto.
Qed.

Lemma locateLoop_run {Env} `{Lib} `{System Env} (obj : ObjTool Env) s sp ms :
  ∀ i opened (e : Env) ms' opened' e' tr,
    locateLoop obj s sp i ms opened e = ((ms', opened'), e', tr) →
    length ms' = length ms ∧
    ∀ j m, ms !! j = Some m →
      ∃ seg pre post r,
        tr = pre ++ seg ++ post ∧
        pathsTrace (applyOverrides s (i + j) m)
                   (baseNameOf (applyOverrides s (i + j) m))
                   (filepath_SplitList sp) seg r ∧
        ms' !! j = Some (located (applyOverrides s (i + j) m) r).
Proof.
  induction ms as [|m0 rest IH]; intros i opened e ms' opened' e' tr.
  - cbn. intros [= <- _ _ <-]. split; [done|]. intros j m Hj. done.
  - cbn [locateLoop]. rewrite bind_run.
    run_step (locateMapping obj s sp i m0 opened) e a e1 t1 Hm.
    destruct a as [m1 o1]. rewrite bind_run. cbn [fst snd].
    run_step (locateLoop obj s sp (S i) rest o1) e1 a e2 t2 Hl.
    destruct a as [ms2 o2]. cbn. intros [= <- _ _ <-].
    apply locateMapping_run in Hm as (r & Hr & ->).
    apply IH in Hl as [Hlen Hrest].
    split; [cbn; by rewrite Hlen|].
    intros [|j] m Hj.
    + injection Hj as <-. exists t1, [], (t2 ++ []), r.
      rewrite Nat.add_0_r. by split_and!.
    + cbn in Hj. destruct (Hrest j m Hj) as (seg & pre & post & r' & -> & Hp & Hlk).
      replace (i + S j)%nat with (S i + j)%nat by lia.
      exists seg, (t1 ++ pre), (post ++ []), r'. split_and!; [|done|done].
      by rewrite <- !app_assoc.
Qed.

(** An accepted candidate is the last thing the search did, and its
    build identity is the mapping's when the mapping has one. *)
Lemma namesTrace_accepted m names tr name :
  namesTrace m names tr (Some name) →
  name ∈ names ∧
  ∃ tr0 f, tr = tr0 ++ [EvObjOpen name (Start m) (Limit m) (Offset m) (inr f)] ∧
           (BuildID m = "" ∨ BuildID m = objBuildID f).
Proof.
  intros Hn. remember (Some name) as r eqn:Hr.
  induction Hn as [|n rest err tr r Hn IH|n rest f tr r Hb Hne Hn IH|n rest f Hacc];
    subst; try done.
  - destruct (IH eq_refl) as (Hin & tr0 & f & -> & Hf).
    split; [by right|]. eexists (_ :: tr0), f. by rewrite <- app_comm_cons.
  - destruct (IH eq_refl) as (Hin & tr0 & f' & -> & Hf).
    split; [by right|]. eexists (_ :: _ :: tr0), f'. by rewrite <- !app_comm_cons.
  - injection Hr as ->. split; [by left|]. by exists [], f.
Qed.

(** A candidate whose build identity differs is reported, right after
    it was opened. *)
Lemma namesTrace_reported m names tr r name s l o f :
  namesTrace m names tr r → BuildID m ≠ "" →
  EvObjOpen name s l o (inr f) ∈ tr → BuildID m ≠ objBuildID f →
  ∃ t1 t2, tr = t1 ++ EvObjOpen name s l o (inr f) ::
                      EvPrintErr [mismatchMessage name (BuildID m) (objBuildID f)] :: t2.
Proof.
  intros Hn Hb. induction Hn as [|n rest err tr r Hn IH|n rest f' tr r _ Hne Hn IH|n rest f' Hacc];
    intros Hin Hd.
  - by apply elem_of_nil in Hin.
  - apply elem_of_cons in Hin as [[=]|Hin].
    destruct (IH Hin Hd) as (t1 & t2 & ->).
    eexists (_ :: t1), t2. by rewrite <- app_comm_cons.
  - apply elem_of_cons in Hin as [[= -> -> -> -> ->]|Hin].
    { by exists [], tr. }
    apply elem_of_cons in Hin as [[=]|Hin].
    destruct (IH Hin Hd) as (t1 & t2 & ->).
    eexists (_ :: _ :: t1), t2. by rewrite <- !app_comm_cons.
  - apply list_elem_of_singleton in Hin as [= -> -> -> -> ->].
    destruct Hacc; done.
Qed.

(** Every candidate is tried when none is accepted. *)
Lemma namesTrace_exhausted m names tr name :
  namesTrace m names tr None → name ∈ names →
  ∃ a, EvObjOpen name (Start m) (Limit m) (Offset m) a ∈ tr ∧
       match a with
       | inl _ => True
       | inr f => BuildID m ≠ "" ∧ BuildID m ≠ objBuildID f
       end.
Proof.
  intros Hn. remember None as r eqn:Hr.
  induction Hn as [|n rest err tr r Hn IH|n rest f tr r Hb Hne Hn IH|n rest f Hacc];
    subst; intros Hin; try done.
  - by apply elem_of_nil in Hin.
  - apply elem_of_cons in Hin as [->|Hin].
    + exists (inl err). split; [by left|done].
    + destruct (IH eq_refl Hin) as (a & Ha & Hrej). exists a. split; [by right|done].
  - apply elem_of_cons in Hin as [->|Hin].
    + exists (inr f). split; [by left|done].
    + destruct (IH eq_refl Hin) as (a & Ha & Hrej). exists a.
      split; [by do 2 right|done].
Qed.

Lemma globTrace_no_open `{Lib} path m g name s l o a :
  EvObjOpen name s l o a ∉ globTrace path m g.
Proof.
  unfold globTrace. destruct (decide (BuildID m ≠ "")).
  - by intros [=]%list_elem_of_singleton.
  - apply not_elem_of_nil.
Qed.

Lemma pathsTrace_accepted `{Lib} m baseName paths tr name :
  pathsTrace m baseName paths tr (Some name) →
  ∃ tr0 f, tr = tr0 ++ [EvObjOpen name (Start m) (Limit m) (Offset m) (inr f)] ∧
           (BuildID m = "" ∨ BuildID m = objBuildID f).
Proof.
  intros Hp. remember (Some name) as r eqn:Hr.
  induction Hp as [|path rest g tr1 tr2 r Hn Hp IH|path rest g tr1 n Hn]; subst; try done.
  - destruct (IH eq_refl) as (tr0 & f & -> & Hf).
    exists (globTrace path m g ++ tr1 ++ tr0), f. by rewrite <- !app_assoc.
  - injection Hr as ->. apply namesTrace_accepted in Hn as (_ & tr0 & f & -> & Hf).
    exists (globTrace path m g ++ tr0), f. by rewrite <- !app_assoc.
Qed.

Lemma pathsTrace_reported `{Lib} m baseName paths tr r name s l o f :
  pathsTrace m baseName paths tr r → BuildID m ≠ "" →
  EvObjOpen name s l o (inr f) ∈ tr → BuildID m ≠ objBuildID f →
  ∃ t1 t2, tr = t1 ++ EvObjOpen name s l o (inr f) ::
                      EvPrintErr [mismatchMessage name (BuildID m) (objBuildID f)] :: t2.
Proof.
  intros Hp Hb. induction Hp as [|path rest g tr1 tr2 r Hn Hp IH|path rest g tr1 n Hn];
    intros Hin Hd.
  - by apply elem_of_nil in Hin.
  - apply elem_of_app in Hin as [Hin|Hin]; [by apply globTrace_no_open in Hin|].
    apply elem_of_app in Hin as [Hin|Hin].
    + destruct (namesTrace_reported _ _ _ _ _ _ _ _ _ Hn Hb Hin Hd) as (t1 & t2 & ->).
      exists (globTrace path m g ++ t1), (t2 ++ tr2).
      by rewrite <- !app_assoc.
    + destruct (IH Hin Hd) as (t1 & t2 & ->).
      exists (globTrace path m g ++ tr1 ++ t1), t2. by rewrite <- !app_assoc.
  - apply elem_of_app in Hin as [Hin|Hin]; [by apply globTrace_no_open in Hin|].
    destruct (namesTrace_reported _ _ _ _ _ _ _ _ _ Hn Hb Hin Hd) as (t1 & t2 & ->).
    exists (globTrace path m g ++ t1), t2. by rewrite <- !app_assoc.
Qed.

Lemma pathsTrace_exhausted `{Lib} m baseName paths tr path :
  pathsTrace m baseName paths tr None → path ∈ paths →
  ∃ g, ∀ name, name ∈ candidateNames path m baseName (globMatches g) →
    ∃ a, EvObjOpen name (Start m) (Limit m) (Offset m) a ∈ tr ∧
         match a with
         | inl _ => True
         | inr f => BuildID m ≠ "" ∧ BuildID m ≠ objBuildID f
         end.
Proof.
  intros Hp. remember None as r eqn:Hr.
  induction Hp as [|p0 rest g tr1 tr2 r Hn Hp IH|p0 rest g tr1 n Hn]; subst;
    intros Hin; try done.
  - by apply elem_of_nil in Hin.
  - apply elem_of_cons in Hin as [->|Hin].
    + exists g. intros name Hname.
      destruct (namesTrace_exhausted _ _ _ _ Hn Hname) as (a & Ha & Hrej).
      exists a. split; [|done]. apply elem_of_app; right. apply elem_of_app; by left.
    + destruct (IH eq_refl Hin) as (g' & Hg'). exists g'. intros name Hname.
      destruct (Hg' name Hname) as (a & Ha & Hrej).
      exists a. split; [|done]. apply elem_of_app; right. apply elem_of_app; by right.
Qed.

(** The overrides touch the first mapping only, and only when configured. *)
Lemma applyOverrides_same s i m :
  i ≠ 0%nat ∨ (ExecName s = "" ∧ SrcBuildID s = "") → applyOverrides s i m = m.
Proof.
  unfold applyOverrides. intros [Hi|[He Hb]].
  - by rewrite decide_False.
  - destruct (decide (i = 0%nat)); [|done].
    rewrite (decide_False (P := ExecName s ≠ "")) by (by intros Hn; apply Hn).
    by rewrite (decide_False (P := SrcBuildID s ≠ "")) by (by intros Hn; apply Hn).
Qed.

(** C7, as the code has it.  Write [mo] for a mapping after the overrides
    of the source configuration, which apply to the first mapping only.
    When [mo] has a build identity, [locateBinaries] sets its file to a
    candidate only if the object tool opened that candidate and reported
    the build identity of [mo]: that open is the last step of the search.
    A candidate reporting another identity is reported to the user right
    away and the search goes on; when no candidate is accepted, every
    candidate under every entry of the search path was tried, and the
    mapping is [mo], which is the mapping itself unless it is the first
    one and an override is configured. *)
Theorem locateBinaries_build_identity {Env} `{Lib} `{System Env}
    (p : Profile) (s : source) (obj : ObjTool Env) (e : Env) p' e' tr :
  locateBinaries p s obj e = (p', e', tr) →
  length (Mappings p') = length (Mappings p) ∧
  ∀ i m, Mappings p !! i = Some m →
    let mo := applyOverrides s i m in
    (i ≠ 0%nat ∨ (ExecName s = "" ∧ SrcBuildID s = "") → mo = m) ∧
    (BuildID mo ≠ "" →
     ∃ sp seg pre post r,
       tr = pre ++ seg ++ post ∧
       pathsTrace mo (baseNameOf mo) (filepath_SplitList sp) seg r ∧
       Mappings p' !! i = Some (located mo r) ∧
       (∀ name, r = Some name →
          ∃ seg0 f,
            seg = seg0 ++ [EvObjOpen name (Start mo) (Limit mo) (Offset mo) (inr f)] ∧
            objBuildID f = BuildID mo) ∧
       (∀ name st l o f,
          EvObjOpen name st l o (inr f) ∈ seg → objBuildID f ≠ BuildID mo →
          ∃ t1 t2,
            seg = t1 ++ EvObjOpen name st l o (inr f) ::
                        EvPrintErr [mismatchMessage name (BuildID mo) (objBuildID f)] :: t2) ∧
       (r = None →
          Mappings p' !! i = Some mo ∧
          ∀ path, path ∈ filepath_SplitList sp →
            ∃ g, ∀ name, name ∈ candidateNames path mo (baseNameOf mo) (globMatches g) →
              ∃ a, EvObjOpen name (Start mo) (Limit mo) (Offset mo) a ∈ seg ∧
                   match a with
                   | inl _ => True
                   | inr f => BuildID mo ≠ objBuildID f
                   end)).
Proof.
  unfold locateBinaries. rewrite bind_run.
  run_step (@searchPath Env _ _) e sp e1 t1 Hs.
  rewrite bind_run.
  run_step (locateLoop obj s sp 0 (Mappings p) []) e1 a e2 t2 Hl.
  destruct a as [ms o2]. rewrite bind_run. cbn [fst snd].
  run_step (closeAll obj o2) e2 u e3 t3 Hc.
  cbn. intros [= <- _ <-].
  apply locateLoop_run in Hl as [Hlen Hall].
  split; [done|]. intros i m Hm. cbn zeta.
  split; [apply applyOverrides_same|]. intros Hb.
  destruct (Hall i m Hm) as (seg & pre & post & r & -> & Hp & Hlk).
  cbn in Hp, Hlk.
  exists sp, seg, (t1 ++ pre), (post ++ t3 ++ []), r.
  split_and!.
  - by rewrite <- !app_assoc.
  - done.
  - done.
  - intros name ->. apply pathsTrace_accepted in Hp as (tr0 & f & -> & [Hf|Hf]); [done|].
    by exists tr0, f.
  - intros name st l o f Hin Hd.
    eapply pathsTrace_reported; eauto.
  - intros ->. split; [done|]. intros path Hpath.
    destruct (pathsTrace_exhausted _ _ _ _ _ Hp Hpath) as (g & Hg).
    exists g. intros name Hname. destruct (Hg name Hname) as (a & Ha & Hrej).
    exists a. split; [done|]. destruct a; [done|]. by destruct Hrej.
Qed.

Lemma locateBinaries_build_identity_witness :
  ∃ r, [setFile Demo.m0 "/home/u/pprof/binaries/app"] !! 0%nat
         = Some (located Demo.m0 r) ∧
       ∀ name, r = Some name → ∃ f, objBuildID f = "b1".
Proof.
  destruct (@locateBinaries_build_identity _ Demo.lib Demo.sys
              Demo.p0 Demo.src0 Demo.objTool Demo.binWorld
              (setMappings Demo.p0 [setFile Demo.m0 "/home/u/pprof/binaries/app"])
              Demo.binWorld _ eq_refl) as [_ Hall].
  destruct (Hall 0%nat Demo.m0 eq_refl) as [_ Hb].
  destruct (Hb ltac:(done)) as (sp & seg & pre & post & r & _ & _ & Hlk & Hacc & _).
  exists r. split; [exact Hlk|].
  intros name Hr. destruct (Hacc name Hr) as (seg0 & f & _ & Hf).
  exists f. exact Hf.
Defined.

(** C7 as stated fails for the first mapping when the source
    configuration names the executable: the mapping has the build
    identity [b1], no candidate can be opened, and yet its file is
    rewritten, to the configured name. *)
Lemma locateBinaries_override_rewrites :
  @locateBinaries _ Demo.lib Demo.sys Demo.p0 Demo.srcExec
                  Demo.objTool Demo.world
  = (setMappings Demo.p0 [setFile Demo.m0 "other"], Demo.world,
     [EvGetenv "PPROF_BINARY_PATH" ""; EvGetenv "HOME" "/home/u";
      EvGlob "/home/u/pprof/binaries/b1/*" (inr []);
      EvObjOpen "/home/u/pprof/binaries/b1/other" 4096 8192 0
                (inl "no such file or directory");
      EvObjOpen "/home/u/pprof/binaries/other" 4096 8192 0
                (inl "no such file or directory")])
  ∧ Mappings Demo.p0 = [Demo.m0]
  ∧ BuildID Demo.m0 = "b1"
  ∧ setFile Demo.m0 "other" ≠ Demo.m0.
Proof. split; [reflexivity|]. split; [reflexivity|]. split; [reflexivity|]. done. Qed.

(** ** grabProfile *)

(** The built-in resolver returns a profile exactly when it returns no error. *)
Lemma fetch_nil_profile {Env} `{Lib} `{System Env} source duration timeout
    (e : Env) p src err e' tr :
  fetch source duration timeout e = ((p, src, err), e', tr) →
  (err = None ↔ is_Some p).
Proof.
  unfold fetch. rewrite bind_run.
  run_step (openSource source duration timeout) e a e1 t1 Ho.
  destruct a as [[er|f] s1].
  - cbn. intros [= <- _ <- _ _]. split; [done|]. by intros [? [=]].
  - rewrite bind_run. unfold call at 1.
    destruct (profile_Parse f e1) as [pr e2].
    rewrite bind_run. unfold close, call at 1.
    destruct (reader_Close f e2) as [u e3].
    destruct pr as [er|pr]; cbn; intros [= <- _ <- _ _].
    + split; [done|]. by intros [? [=]].
    + split; [eauto|done].
Qed.

(** C1, as the code has it.  When the fetcher returns an error,
    [grabProfile] fails with that error and the built-in resolver is not
    called.  It falls back to the built-in resolver, behaving from there
    as it does without a fetcher, only when the fetcher returns neither
    an error nor a profile; a profile returned without an error is used
    as it is. *)
Theorem grabProfile_fetcher {Env} `{Lib} `{ProfileOps} `{System Env}
    (s : source) (source : string) (sc : Z) (f : Fetcher Env) (obj : ObjTool Env)
    (e : Env) p src err e1 :
  let duration := time.mul (Seconds s) time.Second in
  let timeout := time.mul (Timeout s) time.Second in
  let ev := EvFetch source duration timeout (p, src, err) in
  Fetch f source duration timeout e = ((p, src, err), e1) →
  (∀ msg, err = Some msg →
     grabProfile s source sc (Some f) obj e = ((p, None, false, Some msg), e1, [ev])) ∧
  (err = None → p = None →
     grabProfile s source sc (Some f) obj e =
     (let '(r, e2, tr) := grabProfile s source sc None obj e1 in (r, e2, ev :: tr))) ∧
  (∀ pr, err = None → p = Some pr →
     grabProfile s source sc (Some f) obj e =
     (let '(r, e2, tr) := grabChecked s sc obj (Some pr) src e1 in (r, e2, ev :: tr))) ∧
  (∀ e0, grabProfile s source sc None obj e0 =
     bind (fetch source duration timeout)
          (fun r => match r with
                    | (p, _, Some err) => ret (p, None, false, Some err)
                    | (p, src, None) => grabChecked s sc obj p src
                    end) e0).
Proof.
  cbn zeta. intros Hf. unfold grabProfile. split_and!.
  - intros msg ->. rewrite bind_run. unfold call at 1. rewrite Hf. reflexivity.
  - intros -> ->. rewrite bind_run. unfold call at 1. rewrite Hf.
    unfold grabFallback.
    by destruct (bind _ _ e1) as [[r e2] tr].
  - intros pr -> ->. rewrite bind_run. unfold call at 1. rewrite Hf.
    unfold grabFallback.
    by destruct (grabChecked s sc obj (Some pr) src e1) as [[r e2] tr].
  - reflexivity.
Qed.

Lemma grabProfile_fetcher_witness :
  (@grabProfile _ Demo.lib Demo.ops Demo.sys Demo.src0
     "http://host/profile" 1 (Some Demo.theFetcher) Demo.objTool Demo.world).1.1
  = (Some Demo.p0, Some {[ "b1" := [mkEntry "http://host/profile" 4096] ]}, true, None).
Proof.
  destruct (@grabProfile_fetcher _ Demo.lib Demo.ops Demo.sys Demo.src0
              "http://host/profile" 1 Demo.theFetcher Demo.objTool Demo.world
              None "" None Demo.world eq_refl) as (_ & Hfall & _).
  rewrite (Hfall eq_refl eq_refl). vm_compute. reflexivity.
Defined.

(** C1 as stated fails: the fetcher is supplied and returns an error, so
    it does not successfully return a profile; the built-in resolver
    would fetch the source, but [grabProfile] fails with the fetcher's
    error: the only call made is the fetcher's. *)
Lemma grabProfile_fetcher_error_is_final :
  @grabProfile _ Demo.lib Demo.ops Demo.sys Demo.src0
     "http://host/profile" 1 (Some Demo.theFetcher) Demo.objTool Demo.failWorld
  = ((None, None, false, Some "fetcher: unsupported source"), Demo.failWorld,
     [EvFetch "http://host/profile" 0 0 (None, "", Some "fetcher: unsupported source")])
  ∧ (@grabProfile _ Demo.lib Demo.ops Demo.sys Demo.src0
       "http://host/profile" 1 None Demo.objTool Demo.failWorld).1.1
    = (Some Demo.p0, Some {[ "b1" := [mkEntry "http://host/profile" 4096] ]}, true, None).
Proof. split; [reflexivity|]. vm_compute. reflexivity. Qed.

(** ** concurrentGrab *)

Lemma runTasks_slots {Env} `{Lib} `{ProfileOps} `{System Env}
    (fetch : option (Fetcher Env)) (obj : ObjTool Env) (sources : list profileSource) :
  ∀ (e : Env) slots e' tr,
    runTasks fetch obj sources e = (slots, e', tr) → Forall2 sameTask sources slots.
Proof.
  induction sources as [|s rest IH]; intros e slots e' tr.
  - cbn. intros [= <- _ _]. constructor.
  - cbn [runTasks]. rewrite bind_run. unfold runTask at 1. rewrite bind_run.
    run_step (grabProfile (psource s) (addr s) (scale s) fetch obj) e a e1 t1 Hg.
    destruct a as [[[p msrc] remote] err]. cbn. rewrite bind_run.
    run_step (runTasks fetch obj rest) e1 a e2 t2 Hr.
    cbn. intros [= <- _ _]. constructor; [done|]. eauto.
Qed.

Lemma survivors_cons (s : profileSource) slots :
  survivors (s :: slots) =
  match err_ s with
  | Some _ => survivors slots
  | None => s :: survivors slots
  end.
Proof.
  unfold survivors. rewrite filter_cons.
  destruct (err_ s) as [err|]; by rewrite ?decide_True, ?decide_False by done.
Qed.

Lemma reports_cons (s : profileSource) slots :
  reports (s :: slots) =
  match err_ s with
  | Some err => EvPrintErr [addr s +:+ ": " +:+ err] :: reports slots
  | None => reports slots
  end.
Proof. unfold reports. cbn. by destruct (err_ s). Qed.

Lemma collectSlots_run {Env} (slots : list profileSource) :
  ∀ save profiles msrcs (e : Env),
    collectSlots slots save profiles msrcs e =
    ((save || existsb remote_ (survivors slots),
      profiles ++ (p_ <$> survivors slots),
      msrcs ++ (msrc_ <$> survivors slots)), e, reports slots).
Proof.
  induction slots as [|s rest IH]; intros save profiles msrcs e.
  - cbn. by rewrite orb_false_r, !app_nil_r.
  - cbn [collectSlots]. rewrite survivors_cons, reports_cons.
    destruct (err_ s) as [err|].
    + rewrite bind_run. unfold ui_PrintErr, emit. rewrite IH. reflexivity.
    + rewrite IH. cbn. by rewrite orb_assoc, <- !app_assoc.
Qed.

(** The run of a chunk: the tasks run, the failures are reported, and
    the survivors, if any, are combined. *)
Lemma concurrentGrab_run {Env} `{Lib} `{ProfileOps} `{System Env}
    (sources : list profileSource) (fetch : option (Fetcher Env))
    (obj : ObjTool Env) (e : Env) slots e1 t1 :
  runTasks fetch obj sources e = (slots, e1, t1) →
  Forall2 sameTask sources slots ∧
  (survivors slots = [] →
     concurrentGrab sources fetch obj e =
     ((None, None, false, 0, None), e1, t1 ++ reports slots)) ∧
  (survivors slots ≠ [] →
     ∀ p msrc,
       combineProfiles (p_ <$> survivors slots) (msrc_ <$> survivors slots)
         = inr (p, msrc) →
       concurrentGrab sources fetch obj e =
       ((Some p, Some msrc, existsb remote_ (survivors slots),
         Z.of_nat (length (survivors slots)), None), e1, t1 ++ reports slots)) ∧
  (survivors slots ≠ [] →
     ∀ err,
       combineProfiles (p_ <$> survivors slots) (msrc_ <$> survivors slots)
         = inl err →
       concurrentGrab sources fetch obj e =
       ((None, None, false, 0, Some err), e1, t1 ++ reports slots)).
Proof.
  intros Hr. split; [by eapply runTasks_slots|].
  unfold concurrentGrab. rewrite bind_run, Hr, bind_run, collectSlots_run.
  cbn [orb app]. split_and!.
  - intros ->. cbn. rewrite decide_True by done. cbn. by rewrite app_nil_r.
  - intros Hne p msrc Hc.
    rewrite decide_False by (rewrite length_fmap; by destruct (survivors slots)).
    rewrite Hc. cbn. by rewrite length_fmap, app_nil_r.
  - intros Hne err Hc.
    rewrite decide_False by (rewrite length_fmap; by destruct (survivors slots)).
    rewrite Hc. cbn. by rewrite app_nil_r.
Qed.

(** C9, as the code has it.  [slots] are the tasks of the chunk after
    they ran and [survivors slots] those among them that succeeded.  With
    no survivor the result is empty, with no error.  With a survivor, when
    the combiner returns a fragment, the result is that fragment, its
    provenance, whether some survivor was remote, and the number of
    survivors; when the combiner fails, the result is its error with an
    empty result.  Every failed task is reported. *)
Theorem concurrentGrab_result {Env} `{Lib} `{ProfileOps} `{System Env}
    (sources : list profileSource) (fetch : option (Fetcher Env))
    (obj : ObjTool Env) (e : Env) slots e1 t1 :
  runTasks fetch obj sources e = (slots, e1, t1) →
  Forall2 sameTask sources slots ∧
  (∀ s, s ∈ survivors slots ↔ s ∈ slots ∧ err_ s = None) ∧
  (length (survivors slots) <= length sources)%nat ∧
  (survivors slots = [] →
     concurrentGrab sources fetch obj e =
     ((None, None, false, 0, None), e1, t1 ++ reports slots)) ∧
  (survivors slots ≠ [] →
     ∀ p msrc,
       combineProfiles (p_ <$> survivors slots) (msrc_ <$> survivors slots)
         = inr (p, msrc) →
       concurrentGrab sources fetch obj e =
       ((Some p, Some msrc, existsb remote_ (survivors slots),
         Z.of_nat (length (survivors slots)), None), e1, t1 ++ reports slots)) ∧
  (survivors slots ≠ [] →
     ∀ err,
       combineProfiles (p_ <$> survivors slots) (msrc_ <$> survivors slots)
         = inl err →
       concurrentGrab sources fetch obj e =
       ((None, None, false, 0, Some err), e1, t1 ++ reports slots)) ∧
  (∀ s err, s ∈ slots → err_ s = Some err →
     EvPrintErr [addr s +:+ ": " +:+ err] ∈ reports slots).
Proof.
  intros Hr.
  destruct (concurrentGrab_run sources fetch obj e slots e1 t1 Hr)
    as (Hs & Hnone & Hok & Herr).
  split; [done|]. split.
  { intros s. unfold survivors. rewrite list_elem_of_filter. tauto. }
  split.
  { rewrite (Forall2_length _ _ _ Hs). apply length_filter. }
  split; [done|]. split; [done|]. split; [done|].
  intros s err Hin Herr_s. unfold reports.
  apply list_elem_of_omap. exists s. split; [done|]. by rewrite Herr_s.
Qed.

Lemma concurrentGrab_result_witness :
  (@concurrentGrab _ Demo.lib Demo.ops Demo.sys Demo.twoTasks None
     Demo.objTool Demo.world).1.1
  = (Some Demo.p0, Some Demo.twoSources, true, 2, None).
Proof.
  destruct (@concurrentGrab_result _ Demo.lib Demo.ops Demo.sys
              Demo.twoTasks None Demo.objTool Demo.world _ _ _ eq_refl)
    as (_ & _ & _ & _ & Hok & _).
  rewrite (Hok ltac:(intros Hn; vm_compute in Hn; discriminate Hn)
               Demo.p0 Demo.twoSources ltac:(vm_compute; reflexivity)).
  vm_compute. reflexivity.
Defined.

(** C9 as stated fails when the survivors cannot be combined: both tasks
    of the chunk succeed, one with a CPU profile and one with a heap
    profile, and [concurrentGrab] returns the combiner's error with no
    fragment and the count 0, not 2. *)
Lemma concurrentGrab_combine_error :
  (@concurrentGrab _ Demo.lib Demo.strictOps Demo.sys Demo.twoTasks None
     Demo.objTool Demo.world).1.1
  = (None, None, false, 0, Some "incompatible sample types")
  ∧ length (survivors (@runTasks _ Demo.lib Demo.strictOps Demo.sys None
                         Demo.objTool Demo.twoTasks Demo.world).1.1) = 2%nat.
Proof. split; vm_compute; reflexivity. Qed.

(** ** chunkedGrab *)

Lemma chunksAux_fuel {A} (n fuel : nat) :
  ∀ l : list A, (length l <= fuel)%nat →
    chunksAux fuel (S n) l = chunksAux (length l) (S n) l.
Proof.
  induction fuel as [fuel IH] using lt_wf_ind. intros l Hl.
  destruct l as [|x l]; [by destruct fuel|].
  destruct fuel as [|fuel]; [cbn in Hl; lia|].
  cbn [chunksAux length].
  assert (length (drop (S n) (x :: l)) <= length l)%nat as Hd.
  { rewrite length_drop. cbn. lia. }
  f_equal. cbn in Hl.
  rewrite (IH fuel) by lia. rewrite (IH (length l)) by lia. done.
Qed.

Lemma chunksOf_cons {A} (n : nat) (l : list A) :
  l ≠ [] → chunksOf (S n) l = take (S n) l :: chunksOf (S n) (drop (S n) l).
Proof.
  intros Hl. destruct l as [|x l]; [done|].
  unfold chunksOf. cbn [chunksAux length]. f_equal.
  apply chunksAux_fuel. rewrite length_drop. cbn. lia.
Qed.

Lemma chunksOf_nil {A} (n : nat) : chunksOf n (@nil A) = [].
Proof. reflexivity. Qed.

(** The chunks are consecutive: put end to end they are the task list;
    none is empty and none has more than [n] tasks. *)
Lemma chunksOf_partition {A} (n : nat) (l : list A) :
  concat (chunksOf (S n) l) = l ∧
  Forall (fun c => 0 < length c <= S n)%nat (chunksOf (S n) l).
Proof.
  remember (length l) as k eqn:Hk. revert l Hk.
  induction k as [k IH] using lt_wf_ind. intros l Hk.
  destruct l as [|x l]; [by split; [|constructor]|].
  rewrite chunksOf_cons by done.
  destruct (IH (length (drop (S n) (x :: l)))
               ltac:(rewrite length_drop; cbn in *; lia) _ eq_refl) as [Hc Hf].
  split.
  - cbn [concat]. rewrite Hc. apply take_drop.
  - constructor; [|done]. rewrite length_take. cbn. lia.
Qed.

Lemma chunksOf_65 {A} (l : list A) :
  length l = 65%nat →
  chunksOf 64 l = [take 64 l; drop 64 l] ∧
  length (take 64 l) = 64%nat ∧ length (drop 64 l) = 1%nat.
Proof.
  intros Hl.
  assert (length (drop 64 l) = 1%nat) as Hd by (rewrite length_drop; lia).
  split; [|split; [rewrite length_take; lia|done]].
  rewrite chunksOf_cons by (intros ->; done). f_equal.
  rewrite chunksOf_cons by (intros Hn; by rewrite Hn in Hd). f_equal.
  - apply take_ge. lia.
  - rewrite drop_ge by lia. done.
Qed.

Lemma slice_chunk {A} (l : list A) (start : nat) :
  (start < length l)%nat →
  slice l start (if decide (length l < start + chunkSize)%nat
                 then length l else (start + chunkSize)%nat)
  = take chunkSize (drop start l).
Proof.
  intros Hs. unfold slice, chunkSize.
  destruct (decide (length l < start + 64)%nat).
  - rewrite !take_ge; [done| |]; rewrite length_drop; lia.
  - f_equal. lia.
Qed.

(** The loop of [chunkedGrab] is the coordinator of the specification
    over the chunks that remain, whenever the fuel exceeds the number of
    tasks that remain; in particular it does not run out of fuel. *)
Lemma chunkLoop_refines {Env} `{Lib} `{ProfileOps} `{System Env}
    (sources : list profileSource) (fetch : option (Fetcher Env)) (obj : ObjTool Env)
    (fuel : nat) :
  ∀ start st (e : Env),
    (length sources - start < fuel)%nat →
    chunkLoop fuel sources fetch obj start st e =
    (let '(r, e', t) := mergeChunks (chunksOf chunkSize (drop start sources)) fetch obj st e
     in (Some r, e', t)).
Proof.
  induction fuel as [|fuel IH]; intros start st e Hf; [lia|].
  cbn [chunkLoop]. destruct st as [[[p msrc] save] count].
  destruct (decide (start < length sources)%nat) as [Hs|Hs].
  - rewrite slice_chunk by done.
    rewrite (chunksOf_cons 63) by (intros Hn; apply (f_equal length) in Hn;
                                   rewrite length_drop in Hn; cbn in Hn; lia).
    change (S 63) with chunkSize. rewrite drop_drop.
    cbn [mergeChunks]. rewrite !bind_run.
    run_step (concurrentGrab (take chunkSize (drop start sources)) fetch obj) e a e1 t1 Hc.
    destruct a as [[[[chunkP chunkMsrc] chunkSave] chunkCount] chunkErr].
    destruct chunkErr as [err|]; [done|].
    destruct chunkP as [cp|].
    + destruct p as [p|].
      * destruct (combineProfiles _ _) as [err|[p' msrc']]; [done|].
        rewrite IH by (unfold chunkSize; lia).
        replace (if chunkSave then true else save) with (chunkSave || save)
          by (by destruct chunkSave).
        by destruct (mergeChunks _ _ _ _ e1) as [[r e2] t2].
      * rewrite IH by (unfold chunkSize; lia).
        by destruct (mergeChunks _ _ _ _ e1) as [[r e2] t2].
    + rewrite IH by (unfold chunkSize; lia).
      by destruct (mergeChunks _ _ _ _ e1) as [[r e2] t2].
  - rewrite drop_ge by lia. reflexivity.
Qed.

(** [chunkedGrab] always returns, and what it returns is the result of
    the coordinator over the chunks of the task list. *)
Lemma chunkedGrab_returns {Env} `{Lib} `{ProfileOps} `{System Env}
    (sources : list profileSource) (fetch : option (Fetcher Env)) (obj : ObjTool Env)
    (e : Env) :
  chunkedGrab sources fetch obj e =
  (let '(r, e', t) := mergeChunks (chunksOf chunkSize sources) fetch obj
                                  (None, None, false, 0) e
   in (Some r, e', t)).
Proof.
  unfold chunkedGrab. rewrite chunkLoop_refines by lia. by rewrite drop_0.
Qed.

(** What [concurrentGrab] can return: nothing at all, an error, or a
    fragment counted for at least one and at most all tasks of the chunk. *)
Lemma concurrentGrab_shape {Env} `{Lib} `{ProfileOps} `{System Env}
    (c : list profileSource) (fetch : option (Fetcher Env)) (obj : ObjTool Env)
    (e : Env) p msrc save count err e' t :
  concurrentGrab c fetch obj e = ((p, msrc, save, count, err), e', t) →
  (p = None ∧ msrc = None ∧ save = false ∧ count = 0) ∨
  (∃ pr ms n, p = Some pr ∧ msrc = Some ms ∧ err = None ∧
              count = Z.of_nat n ∧ (0 < n <= length c)%nat).
Proof.
  run_step (runTasks fetch obj c) e slots e1 t1 Hr.
  destruct (concurrentGrab_run c fetch obj e slots e1 t1 Hr) as (Hs & Hnone & Hok & Herr).
  assert (length (survivors slots) <= length c)%nat as Hlen.
  { rewrite (Forall2_length _ _ _ Hs). apply length_filter. }
  destruct (survivors slots) as [|s0 surv] eqn:Hsurv.
  - rewrite Hnone by done. intros [= <- <- <- <- _ _ _]. by left.
  - destruct (combineProfiles (p_ <$> s0 :: surv) (msrc_ <$> s0 :: surv))
      as [er|[pr ms]] eqn:Hc.
    + rewrite (Herr ltac:(done) er) by done. intros [= <- <- <- <- _ _ _]. by left.
    + rewrite (Hok ltac:(done) pr ms) by done. intros [= <- <- <- <- <- _ _].
      right. exists pr, ms, (length (s0 :: surv)). split_and!; try done.
      cbn. lia.
Qed.

Lemma mergeChunks_app {Env} `{Lib} `{ProfileOps} `{System Env}
    (pre rest : list (list profileSource)) (fetch : option (Fetcher Env))
    (obj : ObjTool Env) :
  ∀ st (e : Env),
    mergeChunks (pre ++ rest) fetch obj st e =
    (let '(r, e1, t1) := mergeChunks pre fetch obj st e in
     match r with
     | (p, msrc, save, count, None) =>
         let '(r2, e2, t2) := mergeChunks rest fetch obj (p, msrc, save, count) e1 in
         (r2, e2, t1 ++ t2)
     | (_, _, _, _, Some _) => (r, e1, t1)
     end).
Proof.
  induction pre as [|c pre IH]; intros [[[p msrc] save] count] e.
  - cbn. by destruct (mergeChunks rest _ _ _ e) as [[r2 e2] t2].
  - cbn [app mergeChunks]. rewrite !bind_run.
    run_step (concurrentGrab c fetch obj) e a e1 t1 Hc.
    destruct a as [[[[chunkP chunkMsrc] chunkSave] chunkCount] chunkErr].
    destruct chunkErr as [err|]; [cbn; by rewrite app_nil_r|].
    assert (∀ st, (let '(b, e2, t2) := mergeChunks (pre ++ rest) fetch obj st e1 in
                   (b, e2, t1 ++ t2)) =
                  (let '(r, e2, t2) :=
                     (let '(b, e2, t2) := mergeChunks pre fetch obj st e1 in
                      (b, e2, t1 ++ t2)) in
                   match r with
                   | (p, msrc, save, count, None) =>
                       let '(r2, e3, t3) :=
                         mergeChunks rest fetch obj (p, msrc, save, count) e2 in
                       (r2, e3, t2 ++ t3)
                   | (_, _, _, _, Some _) => (r, e2, t2)
                   end)) as Hstep.
    { intros st. rewrite IH.
      destruct (mergeChunks pre fetch obj st e1) as [[[[[[p1 m1] s1] c1] [er|]] e2] t2];
        [done|].
      destruct (mergeChunks rest fetch obj _ e2) as [[r2 e3] t3].
      by rewrite app_assoc. }
    destruct chunkP as [cp|]; [|apply Hstep].
    destruct p as [p|]; [|apply Hstep].
    destruct (combineProfiles _ _) as [err|[p' msrc']]; [cbn; by rewrite app_nil_r|].
    apply Hstep.
Qed.

(** While no chunk has produced a fragment the count is zero: a non-zero
    count comes with a profile. *)
Lemma mergeChunks_profile {Env} `{Lib} `{ProfileOps} `{System Env}
    (chunks : list (list profileSource)) (fetch : option (Fetcher Env))
    (obj : ObjTool Env) :
  ∀ p0 msrc0 save0 count0 (e : Env) p msrc save count e' t,
    (p0 = None → count0 = 0) →
    mergeChunks chunks fetch obj (p0, msrc0, save0, count0) e
      = ((p, msrc, save, count, None), e', t) →
    p = None → count = 0.
Proof.
  induction chunks as [|c chunks IH]; intros p0 msrc0 save0 count0 e p msrc save count e' t Hinv.
  - cbn. intros [= <- _ _ <- _ _]. done.
  - cbn [mergeChunks]. rewrite bind_run.
    run_step (concurrentGrab c fetch obj) e a e1 t1 Hc.
    destruct a as [[[[chunkP chunkMsrc] chunkSave] chunkCount] chunkErr].
    destruct chunkErr as [err|]; [done|].
    destruct chunkP as [cp|].
    + destruct p0 as [p0|].
      * destruct (combineProfiles _ _) as [err|[p' msrc']]; [done|].
        run_step (mergeChunks chunks fetch obj
                    (Some p', Some msrc', chunkSave || save0, wrap64 (count0 + chunkCount)))
                 e1 a e2 t2 Hm.
        intros [= -> _ _]. eapply IH; [|exact Hm]. done.
      * run_step (mergeChunks chunks fetch obj (Some cp, chunkMsrc, chunkSave, chunkCount))
                 e1 a e2 t2 Hm.
        intros [= -> _ _]. eapply IH; [|exact Hm]. done.
    + run_step (mergeChunks chunks fetch obj (p0, msrc0, save0, count0)) e1 a e2 t2 Hm.
      intros [= -> _ _]. eapply IH; [|exact Hm]. done.
Qed.

(** Whenever [chunkedGrab] reports a non-zero count it returns a profile. *)
Lemma chunkedGrab_profile {Env} `{Lib} `{ProfileOps} `{System Env}
    (sources : list profileSource) (fetch : option (Fetcher Env)) (obj : ObjTool Env)
    (e : Env) p msrc save count e' t :
  chunkedGrab sources fetch obj e = (Some (p, msrc, save, count, None), e', t) →
  count ≠ 0 → is_Some p.
Proof.
  rewrite chunkedGrab_returns.
  run_step (mergeChunks (chunksOf chunkSize sources) fetch obj (None, None, false, 0))
           e r e1 t1 Hm.
  intros [= -> _ _] Hc. destruct p; [eauto|].
  exfalso. apply Hc. eapply mergeChunks_profile; [|exact Hm|done]. done.
Qed.

(** C8, as the code has it.  [chunkedGrab] always returns, and what it
    returns is the result of going, in order, through the consecutive
    chunks of at most 64 tasks of its task list, until a chunk or a merge
    fails.  Of a list of 65 tasks the first 64 are processed first.  When
    that chunk fails, its error is returned at once, with count 0, and
    the last task is not processed.  Otherwise the last task is
    processed next, as a chunk of its own; whenever [chunkedGrab] then
    returns without an error, the count it returns is the sum of the
    counts of the two chunks, and on an error of the second chunk or of
    the merge it returns that error with an empty result and count 0. *)
Theorem chunkedGrab_chunks {Env} `{Lib} `{ProfileOps} `{System Env}
    (sources : list profileSource) (fetch : option (Fetcher Env)) (obj : ObjTool Env)
    (e : Env) :
  concat (chunksOf chunkSize sources) = sources ∧
  Forall (fun c => 0 < length c <= 64)%nat (chunksOf chunkSize sources) ∧
  (∃ res e' tr,
     chunkedGrab sources fetch obj e = (Some res, e', tr) ∧
     mergeChunks (chunksOf chunkSize sources) fetch obj (None, None, false, 0) e
       = (res, e', tr)) ∧
  (length sources = 65%nat →
     chunksOf chunkSize sources = [take 64 sources; drop 64 sources] ∧
     length (take 64 sources) = 64%nat ∧ length (drop 64 sources) = 1%nat ∧
     ∃ r1 e1 t1,
       concurrentGrab (take 64 sources) fetch obj e = (r1, e1, t1) ∧
       match r1.2 with
       | Some err =>
           chunkedGrab sources fetch obj e
             = (Some (None, None, false, 0, Some err), e1, t1)
       | None =>
           ∃ r2 e2 t2 res,
             concurrentGrab (drop 64 sources) fetch obj e1 = (r2, e2, t2) ∧
             chunkedGrab sources fetch obj e = (Some res, e2, t1 ++ t2) ∧
             (res.2 = None → res.1.2 = r1.1.2 + r2.1.2) ∧
             (is_Some res.2 → res = (None, None, false, 0, res.2)) ∧
             (∀ err, r2.2 = Some err → res.2 = Some err)
       end).
Proof.
  destruct (chunksOf_partition 63 sources) as [Hcat Hall].
  pose proof (chunkedGrab_returns sources fetch obj e) as Hret.
  split; [done|]. split; [done|]. split.
  { destruct (mergeChunks (chunksOf chunkSize sources) fetch obj (None, None, false, 0) e)
      as [[res e'] tr]. by exists res, e', tr. }
  intros Hlen. destruct (chunksOf_65 sources Hlen) as (Hch & Hl1 & Hl2).
  split; [done|]. split; [done|]. split; [done|].
  unfold chunkSize in Hret. rewrite Hch in Hret. cbn [mergeChunks] in Hret.
  rewrite bind_run in Hret.
  destruct (concurrentGrab (take 64 sources) fetch obj e) as [[r1 e1] t1] eqn:Hc1.
  exists r1, e1, t1. split; [done|].
  destruct r1 as [[[[p1 m1] s1] c1] [err1|]]; cbn [snd].
  { rewrite Hret. cbn. by rewrite app_nil_r. }
  pose proof (concurrentGrab_shape _ _ _ _ _ _ _ _ _ _ _ Hc1) as Hs1.
  destruct p1 as [p1|].
  - cbn [mergeChunks] in Hret. rewrite bind_run in Hret.
    destruct (concurrentGrab (drop 64 sources) fetch obj e1) as [[r2 e2] t2] eqn:Hc2.
    destruct r2 as [[[[p2 m2] s2] c2] [err2|]].
    { exists (p2, m2, s2, c2, Some err2), e2, t2, (None, None, false, 0, Some err2).
      rewrite Hret. cbn. rewrite app_nil_r.
      split_and!; try done; by intros err [= ->]. }
    pose proof (concurrentGrab_shape _ _ _ _ _ _ _ _ _ _ _ Hc2) as Hs2.
    destruct p2 as [p2|].
    + destruct (combineProfiles _ _) as [err|[p' msrc']].
      * exists (Some p2, m2, s2, c2, None), e2, t2, (None, None, false, 0, Some err).
        rewrite Hret. cbn. rewrite app_nil_r. split_and!; done.
      * exists (Some p2, m2, s2, c2, None), e2, t2,
          (Some p', Some msrc', s2 || s1, wrap64 (c1 + c2), None).
        rewrite Hret. cbn. rewrite app_nil_r.
        split_and!; try done; try (by intros [? [=]]).
        intros _.
        destruct Hs1 as [(? & _)|(? & ? & n1 & _ & _ & _ & -> & Hn1)]; [done|].
        destruct Hs2 as [(? & _)|(? & ? & n2 & _ & _ & _ & -> & Hn2)]; [done|].
        apply wrap64_small. unfold min_int64, max_int64. lia.
    + exists (None, m2, s2, c2, None), e2, t2, (Some p1, m1, s1, c1, None).
      rewrite Hret. cbn. rewrite app_nil_r.
      split_and!; try done; try (by intros [? [=]]).
      intros _. destruct Hs2 as [(_ & _ & _ & ->)|(? & ? & ? & ? & _)]; [lia|done].
  - destruct Hs1 as [(_ & _ & _ & ->)|(? & ? & ? & ? & _)]; [|done].
    cbn [mergeChunks] in Hret. rewrite bind_run in Hret.
    destruct (concurrentGrab (drop 64 sources) fetch obj e1) as [[r2 e2] t2] eqn:Hc2.
    destruct r2 as [[[[p2 m2] s2] c2] [err2|]].
    { exists (p2, m2, s2, c2, Some err2), e2, t2, (None, None, false, 0, Some err2).
      rewrite Hret. cbn. rewrite app_nil_r.
      split_and!; try done; by intros err [= ->]. }
    pose proof (concurrentGrab_shape _ _ _ _ _ _ _ _ _ _ _ Hc2) as Hs2.
    destruct p2 as [p2|].
    + exists (Some p2, m2, s2, c2, None), e2, t2, (Some p2, m2, s2, c2, None).
      rewrite Hret. cbn. rewrite app_nil_r.
      split_and!; try done; by intros [? [=]].
    + exists (None, m2, s2, c2, None), e2, t2, (None, None, false, 0, None).
      rewrite Hret. cbn. rewrite app_nil_r.
      split_and!; try done; try (by intros [? [=]]).
      intros _. destruct Hs2 as [(_ & _ & _ & ->)|(? & ? & ? & ? & _)]; [lia|done].
Qed.

(** ** The coordinator on a merge error *)

(** One iteration of the loop: the merge of the running aggregate with
    the chunk's fragment fails, and the loop returns at once. *)
Lemma chunkLoop_merge_error {Env} `{Lib} `{ProfileOps} `{System Env}
    (fuel : nat) (sources : list profileSource) (fetch : option (Fetcher Env))
    (obj : ObjTool Env) (start : nat) p msrc save count (e : Env)
    chunkP chunkMsrc chunkSave chunkCount e1 t1 err :
  (start < length sources)%nat →
  concurrentGrab (take chunkSize (drop start sources)) fetch obj e
    = ((Some chunkP, chunkMsrc, chunkSave, chunkCount, None), e1, t1) →
  combineProfiles [Some p; Some chunkP] [msrc; chunkMsrc] = inl err →
  chunkLoop (S fuel) sources fetch obj start (Some p, msrc, save, count) e
    = (Some (None, None, false, 0, Some err), e1, t1).
Proof.
  intros Hs Hc Hm. cbn [chunkLoop]. rewrite decide_True by done.
  rewrite slice_chunk by done. rewrite bind_run, Hc, Hm. cbn.
  by rewrite app_nil_r.
Qed.

(** An error of the chunk itself, from combining its own fragments,
    ends the call in the same way. *)
Lemma chunkedGrab_chunk_error {Env} `{Lib} `{ProfileOps} `{System Env}
    (sources : list profileSource) (fetch : option (Fetcher Env)) (obj : ObjTool Env)
    (e0 : Env) pre c post p msrc save count e tr
    chunkP chunkMsrc chunkSave chunkCount e1 t1 err :
  chunksOf chunkSize sources = pre ++ c :: post →
  mergeChunks pre fetch obj (None, None, false, 0) e0
    = ((p, msrc, save, count, None), e, tr) →
  concurrentGrab c fetch obj e
    = ((chunkP, chunkMsrc, chunkSave, chunkCount, Some err), e1, t1) →
  chunkedGrab sources fetch obj e0
    = (Some (None, None, false, 0, Some err), e1, tr ++ t1).
Proof.
  intros Hch Hpre Hc.
  rewrite chunkedGrab_returns, Hch, mergeChunks_app, Hpre.
  cbn [mergeChunks]. rewrite bind_run, Hc. cbn.
  by rewrite app_nil_r.
Qed.

(** C3.  Let [pre] be the chunks before the chunk [c] and
    [(p, msrc, save, count)] the running aggregate after them.  If [c]
    yields a fragment and merging it with the running aggregate fails,
    [chunkedGrab] returns that error with a nil profile, a nil provenance
    map, [false] and the count 0, and its trace ends with the trace of
    [c]: nothing of the chunks after [c] is run. *)
Theorem chunkedGrab_merge_error {Env} `{Lib} `{ProfileOps} `{System Env}
    (sources : list profileSource) (fetch : option (Fetcher Env)) (obj : ObjTool Env)
    (e0 : Env) pre c post p msrc save count e tr
    chunkP chunkMsrc chunkSave chunkCount e1 t1 err :
  chunksOf chunkSize sources = pre ++ c :: post →
  mergeChunks pre fetch obj (None, None, false, 0) e0
    = ((Some p, msrc, save, count, None), e, tr) →
  concurrentGrab c fetch obj e
    = ((Some chunkP, chunkMsrc, chunkSave, chunkCount, None), e1, t1) →
  combineProfiles [Some p; Some chunkP] [msrc; chunkMsrc] = inl err →
  chunkedGrab sources fetch obj e0
    = (Some (None, None, false, 0, Some err), e1, tr ++ t1).
Proof.
  intros Hch Hpre Hc Hm.
  rewrite chunkedGrab_returns, Hch, mergeChunks_app, Hpre.
  cbn [mergeChunks]. rewrite bind_run, Hc, Hm. cbn.
  by rewrite app_nil_r.
Qed.

(** ** fetchProfiles when nothing was fetched *)

Lemma runTasks_all_failed {Env} `{Lib} `{ProfileOps} `{System Env}
    (fetch : option (Fetcher Env)) (obj : ObjTool Env) (sources : list profileSource) :
  (∀ s (e0 : Env), s ∈ sources →
     (grabProfile (psource s) (addr s) (scale s) fetch obj e0).1.1.2 ≠ None) →
  ∀ (e : Env) slots e' tr,
    runTasks fetch obj sources e = (slots, e', tr) → survivors slots = [].
Proof.
  induction sources as [|s rest IH]; intros Hfail e slots e' tr.
  - cbn. by intros [= <- _ _].
  - cbn [runTasks]. rewrite bind_run. unfold runTask at 1. rewrite bind_run.
    pose proof (Hfail s e ltac:(by left)) as Hs.
    run_step (grabProfile (psource s) (addr s) (scale s) fetch obj) e a e1 t1 Hg.
    destruct a as [[[p msrc] remote] err]. cbn. rewrite bind_run.
    run_step (runTasks fetch obj rest) e1 a e2 t2 Hr.
    cbn. intros [= <- _ _]. rewrite survivors_cons. cbn.
    cbn in Hs. destruct err as [err|]; [|done].
    eapply IH; [|exact Hr]. intros s' e0 Hin. apply Hfail. by right.
Qed.

Lemma mergeChunks_all_failed {Env} `{Lib} `{ProfileOps} `{System Env}
    (fetch : option (Fetcher Env)) (obj : ObjTool Env)
    (chunks : list (list profileSource)) :
  (∀ s (e0 : Env), s ∈ concat chunks →
     (grabProfile (psource s) (addr s) (scale s) fetch obj e0).1.1.2 ≠ None) →
  ∀ (e : Env),
    (mergeChunks chunks fetch obj (None, None, false, 0) e).1.1
    = (None, None, false, 0, None).
Proof.
  induction chunks as [|c chunks IH]; intros Hfail e; [done|].
  cbn [mergeChunks]. rewrite bind_run.
  run_step (runTasks fetch obj c) e slots e1 t1 Hr.
  destruct (concurrentGrab_run c fetch obj e slots e1 t1 Hr) as (_ & Hnone & _).
  rewrite Hnone.
  2:{ eapply runTasks_all_failed; [|exact Hr]. intros s e0 Hin.
      apply Hfail. cbn. apply elem_of_app. by left. }
  specialize (IH ltac:(intros s e0 Hin; apply Hfail; cbn; apply elem_of_app; by right) e1).
  by destruct (mergeChunks chunks fetch obj (None, None, false, 0) e1) as [[r e2] t2].
Qed.

(** C2.  When [chunkedGrab] returns the count 0 and no error,
    [fetchProfiles] returns no profile and the error "failed to fetch
    any profiles", doing nothing further.  That is the case whenever
    every source fails to be fetched. *)
Theorem fetchProfiles_none {Env} `{Lib} `{ProfileOps} `{System Env}
    (s : source) (o : Options Env) (e : Env) :
  (∀ p msrcs save e1 t1,
     chunkedGrab (tasksOf s) (o_Fetch o) (o_Obj o) e
       = (Some (p, msrcs, save, 0, None), e1, t1) →
     fetchProfiles s o e
       = (Some (None, Some "failed to fetch any profiles"), e1, t1)) ∧
  ((∀ t (e0 : Env), t ∈ tasksOf s →
      (grabProfile (psource t) (addr t) (scale t) (o_Fetch o) (o_Obj o) e0).1.1.2 ≠ None) →
   (fetchProfiles s o e).1.1 = Some (None, Some "failed to fetch any profiles")).
Proof.
  assert (∀ p msrcs save e1 t1,
     chunkedGrab (tasksOf s) (o_Fetch o) (o_Obj o) e
       = (Some (p, msrcs, save, 0, None), e1, t1) →
     fetchProfiles s o e
       = (Some (None, Some "failed to fetch any profiles"), e1, t1)) as Hcount.
  { intros p msrcs save e1 t1 Hg. unfold fetchProfiles. rewrite bind_run, Hg.
    unfold fetchedProfiles. rewrite decide_True by done.
    cbn. by rewrite app_nil_r. }
  split; [done|]. intros Hfail.
  pose proof (chunkedGrab_returns (tasksOf s) (o_Fetch o) (o_Obj o) e) as Hret.
  pose proof (mergeChunks_all_failed (o_Fetch o) (o_Obj o) (chunksOf chunkSize (tasksOf s))) as Hm.
  destruct (chunksOf_partition 63 (tasksOf s)) as [Hcat _].
  change (S 63) with chunkSize in Hcat. rewrite Hcat in Hm.
  specialize (Hm Hfail e).
  destruct (mergeChunks _ _ _ _ e) as [[r e1] t1]. cbn in Hm. subst r.
  by rewrite (Hcount _ _ _ _ _ Hret).
Qed.

(** ** The coordinator on 65 tasks *)

Lemma manyTasks_merged :
  @chunkedGrab _ Demo.lib Demo.ops Demo.sys Demo.manyTasks None
               Demo.objTool Demo.world
  = (Some (Some Demo.p0, Some Demo.sources65, true, 65, None),
     Demo.world, Demo.trace65).
Proof. vm_compute. reflexivity. Qed.

Lemma manyTasks_first_chunk :
  @mergeChunks _ Demo.lib Demo.strictOps Demo.sys
               [take 64 Demo.manyTasks] None Demo.objTool
               (None, None, false, 0) Demo.world
  = ((Some Demo.p0, Some Demo.sources64, true, 64, None),
     Demo.world, Demo.trace64).
Proof. vm_compute. reflexivity. Qed.

Lemma manyTasks_last_chunk :
  @concurrentGrab _ Demo.lib Demo.strictOps Demo.sys
                  (drop 64 Demo.manyTasks) None Demo.objTool Demo.world
  = ((Some Demo.pHeap, Some Demo.sourcesHeap, true, 1, None),
     Demo.world, Demo.traceHeap).
Proof. vm_compute. reflexivity. Qed.

Lemma chunkedGrab_chunks_witness :
  ∃ (r1 r2 : chunkResult) e1 t1,
    @concurrentGrab _ Demo.lib Demo.ops Demo.sys (take 64 Demo.manyTasks)
                    None Demo.objTool Demo.world = (r1, e1, t1) ∧
    65 = r1.1.2 + r2.1.2.
Proof.
  destruct (@chunkedGrab_chunks _ Demo.lib Demo.ops Demo.sys
              Demo.manyTasks None Demo.objTool Demo.world) as (_ & _ & _ & H65).
  destruct (H65 eq_refl) as (_ & _ & _ & r1 & e1 & t1 & H1 & Hm).
  destruct r1 as [[[[p1 m1] s1] c1] [err1|]]; cbn [snd] in Hm.
  { vm_compute in H1. discriminate H1. }
  destruct Hm as (r2 & e2 & t2 & res & _ & Hg & Hsum & _).
  rewrite manyTasks_merged in Hg. injection Hg as <- _ _.
  exists (p1, m1, s1, c1, None), r2, e1, t1. split; [exact H1|exact (Hsum eq_refl)].
Defined.

(** C8 as stated fails when the merge of the two chunks fails: of the 65
    tasks the first 64 fetch CPU profiles and the last one a heap
    profile; the chunks count 64 and 1 successes, and [chunkedGrab]
    returns the merge error with the count 0. *)
Lemma chunkedGrab_count_lost :
  length Demo.manyTasks = 65%nat
  ∧ (@concurrentGrab _ Demo.lib Demo.strictOps Demo.sys
       (take 64 Demo.manyTasks) None Demo.objTool Demo.world).1.1.1.2 = 64
  ∧ (@concurrentGrab _ Demo.lib Demo.strictOps Demo.sys
       (drop 64 Demo.manyTasks) None Demo.objTool Demo.world).1.1.1.2 = 1
  ∧ (@chunkedGrab _ Demo.lib Demo.strictOps Demo.sys Demo.manyTasks None
       Demo.objTool Demo.world).1.1
    = Some (None, None, false, 0, Some "incompatible sample types").
Proof. split_and!; vm_compute; reflexivity. Qed.

Lemma chunkedGrab_merge_error_witness :
  @chunkedGrab _ Demo.lib Demo.strictOps Demo.sys Demo.manyTasks None
               Demo.objTool Demo.world
  = (Some (None, None, false, 0, Some "incompatible sample types"), Demo.world,
     Demo.trace64 ++ Demo.traceHeap).
Proof.
  apply (@chunkedGrab_merge_error _ Demo.lib Demo.strictOps Demo.sys
           Demo.manyTasks None Demo.objTool Demo.world
           [take 64 Demo.manyTasks] (drop 64 Demo.manyTasks) []
           Demo.p0 (Some Demo.sources64) true 64 Demo.world Demo.trace64
           Demo.pHeap (Some Demo.sourcesHeap) true 1 Demo.world
           Demo.traceHeap "incompatible sample types").
  - vm_compute. reflexivity.
  - exact manyTasks_first_chunk.
  - exact manyTasks_last_chunk.
  - vm_compute. reflexivity.
Defined.

Lemma fetchProfiles_none_witness :
  @fetchProfiles _ Demo.lib Demo.ops Demo.sys Demo.srcDown
                 Demo.options Demo.world
  = (Some (None, Some "failed to fetch any profiles"), Demo.world,
     [EvPrint ["Fetching profile over HTTP from http://down/profile"];
      EvHttpGet "http://down/profile" 65000000000 (inl "connection refused");
      EvPrintErr ["http://down/profile: http fetch http://down/profile: connection refused"]]).
Proof.
  apply (proj1 (@fetchProfiles_none _ Demo.lib Demo.ops Demo.sys
                  Demo.srcDown Demo.options Demo.world)
               None None false).
  vm_compute. reflexivity.
Defined.

(** * Further properties of the engine *)

(** ** collectMappingSources *)

Lemma collectStep_spec (source : string) (st : list Mapping * MappingSources)
    (m : Mapping) :
  collectStep source st m =
  (st.1 ++ [sourced source m],
   <[mappingKey source m :=
       default [] (st.2 !! mappingKey source m) ++ [entryOf source m]]> st.2).
Proof.
  unfold collectStep, sourced, mappingKey, entryOf.
  destruct (decide (BuildID m = "")) as [Hb|Hb].
  - rewrite (decide_False (P := BuildID m ≠ "")) by (by intros Hn).
    destruct (decide (File m = "")) as [Hf|Hf].
    + rewrite (decide_False (P := File m ≠ "")) by (by intros Hn).
      by rewrite decide_True by done.
    + rewrite (decide_True (P := File m ≠ "")) by done.
      by rewrite (decide_False (P := _ ∧ _)) by (by intros [_ ?]).
  - rewrite (decide_True (P := BuildID m ≠ "")) by done.
    rewrite (decide_False (P := BuildID m = "")) by done.
    by rewrite (decide_False (P := _ ∧ _)) by (by intros [? _]).
Qed.

Lemma collect_foldl (source : string) (ms : list Mapping) :
  ∀ (done : list Mapping) (acc : MappingSources),
    (foldl (collectStep source) (done, acc) ms).1 = done ++ (sourced source <$> ms) ∧
    ∀ k, (foldl (collectStep source) (done, acc) ms).2 !! k =
         match acc !! k, filter (fun m => mappingKey source m = k) ms with
         | None, [] => None
         | o, l => Some (default [] o ++ (entryOf source <$> l))
         end.
Proof.
  induction ms as [|m ms IH]; intros done acc.
  - cbn. split; [by rewrite app_nil_r|]. intros k.
    destruct (acc !! k); cbn; by rewrite ?app_nil_r.
  - cbn [foldl]. rewrite collectStep_spec. cbn [fst snd].
    destruct (IH (done ++ [sourced source m])
                 (<[mappingKey source m :=
                      default [] (acc !! mappingKey source m) ++ [entryOf source m]]> acc))
      as [Hms Hk].
    split; [rewrite Hms; cbn; by rewrite <- app_assoc|].
    intros k. rewrite Hk, filter_cons.
    destruct (decide (mappingKey source m = k)) as [<-|Hne].
    + rewrite lookup_insert_eq.
      destruct (acc !! mappingKey source m); cbn; by rewrite <- ?app_assoc.
    + by rewrite lookup_insert_ne.
Qed.

(** X1.  [collectMappingSources] files every mapping, in order, under its
    key: the map holds for a key exactly the entries [(source, start)] of
    the mappings with that key, and no key without a mapping.  In the
    profile only the file of a mapping with neither build identity nor
    file changes, to the source. *)
Theorem collectMappingSources_lookup (p : Profile) (source : string) :
  (collectMappingSources p source).1
    = setMappings p (sourced source <$> Mappings p) ∧
  (∀ k, (collectMappingSources p source).2 !! k =
        match filter (fun m => mappingKey source m = k) (Mappings p) with
        | [] => None
        | l => Some (entryOf source <$> l)
        end) ∧
  (∀ m, m ∈ Mappings p →
        ∃ l, (collectMappingSources p source).2 !! mappingKey source m = Some l ∧
             entryOf source m ∈ l).
Proof.
  unfold collectMappingSources.
  destruct (collect_foldl source (Mappings p) [] ∅) as [Hms Hk].
  destruct (foldl (collectStep source) ([], ∅) (Mappings p)) as [ms msrc].
  cbn [fst snd] in *. subst ms.
  assert (∀ k, msrc !! k =
               match filter (fun m => mappingKey source m = k) (Mappings p) with
               | [] => None
               | l => Some (entryOf source <$> l)
               end) as Hlook.
  { intros k. rewrite Hk, lookup_empty. by destruct (filter _ _). }
  split; [done|]. split; [done|].
  intros m Hin. rewrite Hlook.
  assert (m ∈ filter (fun m' => mappingKey source m' = mappingKey source m) (Mappings p))
    as Hf by (by apply list_elem_of_filter).
  destruct (filter _ (Mappings p)) as [|m0 l] eqn:Hfl; [by apply elem_of_nil in Hf|].
  eexists; split; [done|]. by apply list_elem_of_fmap_2.
Qed.

(** ** collectMappingSources and unsourceMappings *)

Lemma unsource_sourced `{Lib} (source : string) (m : Mapping) u :
  url_Parse source = inr u → IsAbs u = true →
  (BuildID m = "" → File m ≠ "" →
   ∀ u', url_Parse (File m) = inr u' → IsAbs u' = false) →
  unsourceMapping (sourced source m) = m.
Proof.
  intros Hu Ha Hlocal. unfold sourced, unsourceMapping.
  destruct (decide (BuildID m = "" ∧ File m = "")) as [[Hb Hf]|Hn].
  - cbn. rewrite decide_True by done. rewrite Hu, Ha.
    destruct m as [st li off f b]. cbn in *. by subst.
  - destruct (decide (BuildID m = "")) as [Hb|Hb]; [|done].
    assert (File m ≠ "") as Hf by (intros Hf; by apply Hn).
    destruct (url_Parse (File m)) as [er|u'] eqn:Hp; [done|].
    by rewrite (Hlocal Hb Hf u' eq_refl).
Qed.

(** X2.  Round trip.  When the source is an absolute URL and no file
    named in the profile is one, [unsourceMappings] undoes what
    [collectMappingSources] did to the profile: the files that were set
    to the source are empty again and nothing else has changed. *)
Theorem collect_unsource_roundtrip `{Lib} (p : Profile) (source : string) u :
  url_Parse source = inr u → IsAbs u = true →
  (∀ m, m ∈ Mappings p → BuildID m = "" → File m ≠ "" →
        ∀ u', url_Parse (File m) = inr u' → IsAbs u' = false) →
  unsourceMappings (collectMappingSources p source).1 = p.
Proof.
  intros Hu Ha Hlocal. unfold collectMappingSources.
  destruct (collect_foldl source (Mappings p) [] ∅) as [Hms _].
  destruct (foldl (collectStep source) ([], ∅) (Mappings p)) as [ms msrc].
  cbn [fst snd] in *. subst ms.
  unfold unsourceMappings, setMappings. cbn.
  rewrite <- list_fmap_compose.
  assert ((unsourceMapping ∘ sourced source) <$> Mappings p = Mappings p) as ->.
  { rewrite <- (list_fmap_id (Mappings p)) at 2.
    apply list_fmap_ext. intros i m Hin%list_elem_of_lookup_2. cbn.
    eapply unsource_sourced; eauto. }
  by destruct p.
Qed.

Lemma collect_unsource_roundtrip_witness :
  @unsourceMappings Demo.lib
    (collectMappingSources Demo2.pLegacy "http://host/profile").1 = Demo2.pLegacy.
Proof.
  apply (@collect_unsource_roundtrip Demo.lib Demo2.pLegacy "http://host/profile"
           (mkURL "http" "host/profile" "" "") eq_refl eq_refl).
  intros m Hin Hb Hf u' Hp.
  repeat (apply elem_of_cons in Hin as [->|Hin]); try done.
  - cbn in Hp. injection Hp as <-. reflexivity.
  - by apply elem_of_nil in Hin.
Defined.

(** ** fetch and its helpers *)

(** Take a computation apart: name the result of every call and every
    test that the goal matches on. *)
Ltac split_run :=
  repeat (cbv beta iota zeta;
          match goal with
          | |- context [match ?x with _ => _ end] =>
              lazymatch x with
              | context [match _ with _ => _ end] => fail
              | _ => destruct x eqn:?
              end
          end).

Lemma perf_header_take (bytes : list Byte.byte) :
  take (length perfHeader) (bytes ++ replicate (length perfHeader) Byte.x00) = perfHeader
  ↔ take (length perfHeader) bytes = perfHeader.
Proof.
  unfold perfHeader. cbn.
  do 9 (try destruct bytes as [|? bytes]); cbn; split; intros Hq;
    try discriminate Hq; try exact Hq; congruence.
Qed.

(** X3.  [isPerfFile] answers true exactly when the file opened, the
    read succeeded and the bytes read begin with the eight bytes
    [PERFILE2]; a shorter read never counts.  Whatever the answer, a file
    that was opened is closed again. *)
Theorem isPerfFile_header {Env} `{System Env} (path : string) (e : Env) b e' tr :
  isPerfFile path e = (b, e', tr) →
  (b = true ↔
     ∃ f bytes, tr = [EvOpen path (inr f); EvRead f 8 (inr bytes); EvClose (ReaderFile f)] ∧
                take 8 bytes = perfHeader) ∧
  (∀ f, EvOpen path (inr f) ∈ tr → EvClose (ReaderFile f) ∈ tr) ∧
  (∀ f bytes, EvRead f 8 (inr bytes) ∈ tr → (length bytes < 8)%nat → b = false).
Proof.
  unfold isPerfFile, close, bind, call, ret.
  destruct (os_Open path e) as [[er|f] e1].
  - intros [= <- <- <-]. split_and!.
    + split; [done|]. by intros (f & bytes & [=] & _).
    + intros f [=]%list_elem_of_singleton.
    + intros f bytes [=]%list_elem_of_singleton.
  - destruct (file_Read f (length perfHeader) e1) as [[er|bytes] e2].
    + destruct (reader_Close (ReaderFile f) e2) as [u e3].
      intros [= <- <- <-]. split_and!.
      * split; [done|]. by intros (f' & bytes & [=] & _).
      * intros f' Hin. apply elem_of_cons in Hin as [Heq|Hin].
        -- simplify_eq. do 2 right. by left.
        -- by repeat (apply elem_of_cons in Hin as [[=]|Hin]);
             apply elem_of_nil in Hin.
      * intros f' bytes Hin.
        by repeat (apply elem_of_cons in Hin as [[=]|Hin]);
          apply elem_of_nil in Hin.
    + destruct (reader_Close (ReaderFile f) e2) as [u e3].
      intros [= <- <- <-].
      pose proof (perf_header_take bytes) as Hpt.
      change (length perfHeader) with 8%nat in *.
      split_and!.
      * rewrite bool_decide_eq_true, Hpt. split.
        -- intros Hh. by exists f, bytes.
        -- intros (f' & bytes' & Heq & Hh). by simplify_eq.
      * intros f' Hin. apply elem_of_cons in Hin as [Heq|Hin].
        -- simplify_eq. do 2 right. by left.
        -- by repeat (apply elem_of_cons in Hin as [[=]|Hin]);
             apply elem_of_nil in Hin.
      * intros f' bytes' Hin Hlen.
        apply elem_of_cons in Hin as [[=]|Hin].
        apply elem_of_cons in Hin as [Heq|Hin].
        -- simplify_eq. apply bool_decide_eq_false. rewrite Hpt.
           intros Hq. apply (f_equal length) in Hq.
           rewrite length_take in Hq. change (length perfHeader) with 8%nat in Hq. lia.
        -- by repeat (apply elem_of_cons in Hin as [[=]|Hin]);
             apply elem_of_nil in Hin.
Qed.

Lemma isPerfFile_header_witness :
  (@isPerfFile unit Demo2.fsys "perf.data" tt).1.1 = true ∧
  (@isPerfFile unit Demo2.fsys "short.bin" tt).1.1 = false.
Proof.
  split.
  - destruct (@isPerfFile_header unit Demo2.fsys "perf.data" tt _ _ _ eq_refl)
      as (Hiff & _).
    apply Hiff. eexists _, _. split; reflexivity.
  - destruct (@isPerfFile_header unit Demo2.fsys "short.bin" tt _ _ _ eq_refl)
      as (_ & _ & Hshort).
    apply (Hshort (mkFile "short.bin" 4) (String.list_byte_of_string "PERF")).
    + right. left.
    + vm_compute. lia.
Defined.

(** X4.  [convertPerfData] schedules the temporary file for deletion as
    soon as it exists, before the converter runs; it hands the converter
    the capture and that file; it returns the file only when the
    converter succeeded, and closes it when the converter failed. *)
Theorem convertPerfData_cleanup {Env} `{System Env} (perfPath : string) (e : Env)
    r e' tr :
  convertPerfData perfPath e = (r, e', tr) →
  ∃ tmp created,
    let pre := [EvPrint ["Converting " +:+ perfPath +:+
                         " to a profile.proto... (May take a few minutes)"];
                EvTempDir tmp; EvNewTempFile tmp "pprof_" ".pb.gz" created] in
    match created with
    | inl err => r = inl err ∧ tr = pre
    | inr f =>
        ∃ ran,
          let run := [EvDeferDelete (Name f);
                      EvRun "perf_to_profile" [perfPath; Name f] ran] in
          match ran with
          | None => r = inr f ∧ tr = pre ++ run
          | Some err =>
              r = inl ("failed to convert perf.data file. Try github.com/google/perf_data_converter: " +:+ err) ∧
              tr = pre ++ run ++ [EvClose (ReaderFile f)]
          end
    end.
Proof.
  unfold convertPerfData, close, ui_Print, bind, call, emit, ret.
  destruct (os_TempDir e) as [tmp e1].
  destruct (newTempFile tmp "pprof_" ".pb.gz" e1) as [[err|f] e2].
  - intros [= <- <- <-]. by exists tmp, (inl err).
  - destruct (deferDeleteTempFile (Name f) e2) as [u e3].
    destruct (exec_Run "perf_to_profile" [perfPath; Name f] e3) as [[err|] e4].
    + destruct (reader_Close (ReaderFile f) e4) as [u' e5].
      intros [= <- <- <-]. exists tmp, (inr f), (Some err). by cbn.
    + intros [= <- <- <-]. exists tmp, (inr f), None. by cbn.
Qed.

Lemma convertPerfData_cleanup_witness :
  (@convertPerfData unit Demo2.fsys "perf.data" tt).1.1
  = inr (mkFile "/tmp/pprof_1.pb.gz" 5).
Proof.
  destruct (@convertPerfData_cleanup unit Demo2.fsys "perf.data" tt _ _ _ eq_refl)
    as (tmp & created & Hc).
  reflexivity.
Defined.

(** Find an event in a trace that is written out. *)
Ltac in_trace :=
  repeat first [ apply list_elem_of_here | apply list_elem_of_further ].

(** X5.  [fetch] returns as source string the URL that [adjustURL] made
    of the address, which is empty unless the address is an HTTP one.
    For an HTTP address it asks the network, with the timeout of
    [adjustURL] and the margin of [httpGet], and touches no local file
    and starts no process; for any other address it begins by opening
    the address as a file and never asks the network. *)
Theorem fetch_routes {Env} `{Lib} `{System Env} (source : string)
    (duration timeout : time.Duration) (e : Env) p src err e' tr :
  fetch source duration timeout e = ((p, src, err), e', tr) →
  src = (adjustURL source duration timeout).1 ∧
  (src ≠ "" →
     Forall (fun ev => touchesFiles ev = false) tr ∧
     ∃ a, EvHttpGet src (responseHeaderTimeout (adjustURL source duration timeout).2) a ∈ tr) ∧
  (src = "" →
     Forall (fun ev => touchesNetwork ev = false) tr ∧
     ∃ a, head tr = Some (EvOpen source a)).
Proof.
  unfold fetch, openSource, fetchURL, httpGet, isPerfFile, convertPerfData,
    close, ui_Print, bind, call, emit, ret.
  destruct (adjustURL source duration timeout) as [url t'] eqn:Ha. cbn [fst snd].
  cbv beta iota zeta.
  destruct (decide (url ≠ "")) as [Hu|Hu].
  - split_run; intros ?; simplify_eq; (split; [done|]);
      (split; [intros _; split; [repeat constructor | eexists; cbn; in_trace]
              | intros ?; done]).
  - apply dec_stable in Hu as ->.
    split_run; intros ?; simplify_eq; (split; [done|]);
      (split; [intros ?; done
              | intros _; split; [repeat constructor | by eexists]]).
Qed.

Lemma fetch_routes_witness :
  (@fetch _ Demo.lib Demo.sys "http://host/profile" 0 0 Demo.world).1.1.1.2
  = "http://host/profile".
Proof.
  destruct (@fetch_routes _ Demo.lib Demo.sys "http://host/profile" 0 0 Demo.world
              _ _ _ _ _ eq_refl) as (Hsrc & _).
  exact Hsrc.
Defined.

(** X6.  A profile that [fetch] returns is the one [profile.Parse] read
    from the stream, and the stream is closed right after, whether the
    parse succeeded or not.  Over HTTP a profile is returned only for a
    response with status 200, whose body is the stream parsed; any other
    status is the error "server response: <status>". *)
Theorem fetch_parses_and_closes {Env} `{Lib} `{System Env} (source : string)
    (duration timeout : time.Duration) (e : Env) p src err e' tr :
  fetch source duration timeout e = ((p, src, err), e', tr) →
  (∀ rd a, EvParse rd a ∈ tr → ∃ tr0, tr = tr0 ++ [EvParse rd a; EvClose rd]) ∧
  (∀ pr, p = Some pr → ∃ rd tr0, tr = tr0 ++ [EvParse rd (inr pr); EvClose rd]) ∧
  (src ≠ "" → ∀ pr, p = Some pr →
     ∃ resp t', EvHttpGet src t' (inr resp) ∈ tr ∧ StatusCode resp = 200 ∧
                EvParse (ReaderBody (Body resp)) (inr pr) ∈ tr) ∧
  (src ≠ "" → ∀ resp t', EvHttpGet src t' (inr resp) ∈ tr → StatusCode resp ≠ 200 →
     p = None ∧ err = Some ("server response: " +:+ Status resp)).
Proof.
  unfold fetch, openSource, fetchURL, httpGet, isPerfFile, convertPerfData,
    close, ui_Print, bind, call, emit, ret.
  destruct (adjustURL source duration timeout) as [url t'] eqn:Ha.
  cbv beta iota zeta.
  destruct (decide (url ≠ "")) as [Hu|Hu].
  - split_run; intros ?; simplify_eq; split_and!.
    all: try (intros rd a Hin; cbn in Hin;
              repeat (apply elem_of_cons in Hin as [Heq|Hin]; [simplify_eq|]);
              try (by apply elem_of_nil in Hin);
              first [by eexists [_; _; _] | by eexists [_; _] | by eexists [_]]).
    all: try (intros pr ?; simplify_eq;
              first [by eexists _, [_; _; _] | by eexists _, [_; _] | by eexists _, [_]]).
    all: try (by intros _ pr ?; simplify_eq).
    all: try (intros _ pr ?; simplify_eq; eexists _, _; split_and!;
              [cbn; in_trace | by apply dec_stable | cbn; in_trace]).
    all: try (intros _ resp t'' Hin Hst; cbn in Hin;
              repeat (apply elem_of_cons in Hin as [Heq|Hin]; [simplify_eq|]);
              try (by apply elem_of_nil in Hin); done).
  - apply dec_stable in Hu as ->.
    split_run; intros ?; simplify_eq; split_and!.
    all: try (intros ?; done).
    all: try (intros rd a Hin; cbn in Hin;
              repeat (apply elem_of_cons in Hin as [Heq|Hin]; [simplify_eq|]);
              try (by apply elem_of_nil in Hin);
              first [ by eexists [_; _; _; _; _; _; _; _] | by eexists [_; _; _; _]
                    | by eexists [_; _; _] | by eexists [_; _] | by eexists [_]
                    | by eexists [_; _; _; _; _] | by eexists [_; _; _; _; _; _]
                    | by eexists [_; _; _; _; _; _; _] | by eexists [] ]).
    all: try (intros pr ?; simplify_eq;
              first [ by eexists _, [_; _; _; _; _; _; _; _] | by eexists _, [_; _; _; _]
                    | by eexists _, [_; _; _] | by eexists _, [_; _] | by eexists _, [_]
                    | by eexists _, [_; _; _; _; _] | by eexists _, [_; _; _; _; _; _]
                    | by eexists _, [_; _; _; _; _; _; _] | by eexists _, [] ]).
Qed.

Lemma fetch_parses_and_closes_witness :
  ∃ resp t', EvHttpGet "http://host/profile" t' (inr resp)
               ∈ (@fetch _ Demo.lib Demo.sys "http://host/profile" 0 0 Demo.world).2 ∧
             StatusCode resp = 200.
Proof.
  destruct (@fetch_parses_and_closes _ Demo.lib Demo.sys "http://host/profile" 0 0
              Demo.world _ _ _ _ _ eq_refl) as (_ & _ & Hok & _).
  destruct (Hok ltac:(done) Demo.p0 eq_refl) as (resp & t' & Hin & Hst & _).
  exists resp, t'. split; [exact Hin|exact Hst].
Defined.

(** Break a membership in a written-out trace into its cases. *)
Ltac cases_in H :=
  cbn in H;
  repeat (apply elem_of_cons in H as [H|H]; [simplify_eq|]);
  try (by apply elem_of_nil in H).

(** X7.  [fetch] runs the converter only on a local file whose first
    eight bytes are [PERFILE2], and then with the address and the
    temporary file as arguments.  For such a file, what is parsed is the
    temporary file, never the capture itself; for a file that opens with
    other bytes, no temporary file is made and no converter is run. *)
Theorem fetch_converts_perf_only {Env} `{Lib} `{System Env} (source : string)
    (duration timeout : time.Duration) (e : Env) p src err e' tr :
  fetch source duration timeout e = ((p, src, err), e', tr) →
  (∀ cmd args a, EvRun cmd args a ∈ tr →
     cmd = "perf_to_profile" ∧ src = "" ∧
     ∃ f bytes tmpf dir,
       args = [source; Name tmpf] ∧
       EvNewTempFile dir "pprof_" ".pb.gz" (inr tmpf) ∈ tr ∧
       EvRead f 8 (inr bytes) ∈ tr ∧ take 8 bytes = perfHeader) ∧
  (∀ f bytes, EvRead f 8 (inr bytes) ∈ tr → take 8 bytes = perfHeader →
     ∀ rd a, EvParse rd a ∈ tr →
       ∃ tmpf dir, rd = ReaderFile tmpf ∧
                   EvNewTempFile dir "pprof_" ".pb.gz" (inr tmpf) ∈ tr ∧
                   EvRun "perf_to_profile" [source; Name tmpf] None ∈ tr) ∧
  (∀ f bytes, EvRead f 8 (inr bytes) ∈ tr → take 8 bytes ≠ perfHeader →
     Forall (fun ev => match ev with
                       | EvRun _ _ _ | EvNewTempFile _ _ _ _ => False
                       | _ => True
                       end) tr).
Proof.
  unfold fetch, openSource, fetchURL, httpGet, isPerfFile, convertPerfData,
    close, ui_Print, bind, call, emit, ret.
  destruct (adjustURL source duration timeout) as [url t'] eqn:Ha.
  cbv beta iota zeta. change (length perfHeader) with 8%nat.
  destruct (decide (url ≠ "")) as [Hu|Hu].
  - split_run; intros ?; simplify_eq; split_and!.
    all: try (intros cmd args a Hin; by cases_in Hin).
    all: try (intros f bytes Hin; by cases_in Hin).
  - apply dec_stable in Hu as ->.
    split_run; intros ?; simplify_eq;
      repeat match goal with
             | Hb : bool_decide _ = true |- _ =>
                 apply bool_decide_eq_true in Hb;
                 apply (proj1 (perf_header_take _)) in Hb;
                 change (length perfHeader) with 8%nat in Hb
             | Hb : bool_decide _ = false |- _ =>
                 apply bool_decide_eq_false in Hb;
                 rewrite (perf_header_take _) in Hb;
                 change (length perfHeader) with 8%nat in Hb
             end;
      split_and!.
    all: try (intros cmd args a Hin; by cases_in Hin).
    all: try (intros f bytes Hin Hh rd a Hp; cases_in Hin; by cases_in Hp).
    all: try (intros f bytes Hin Hh; by cases_in Hin).
    all: try (intros cmd args a Hin; cases_in Hin;
              split; [done|]; split; [done|];
              eexists _, _, _, _; split_and!; [done | cbn; in_trace | cbn; in_trace | done]).
    all: try (intros f bytes Hin Hh rd a Hp; cases_in Hin; cases_in Hp;
              try done; eexists _, _; split_and!; [done | cbn; in_trace | cbn; in_trace]).
    all: try (intros f bytes Hin Hh; cases_in Hin; try done; cbn; by repeat constructor).
Qed.

Lemma fetch_converts_perf_only_witness :
  (@fetch unit Demo.lib Demo2.fsys "perf.data" 0 0 tt).1.1.1.2 = "".
Proof.
  destruct (@fetch_converts_perf_only unit Demo.lib Demo2.fsys "perf.data" 0 0 tt
              _ _ _ _ _ eq_refl) as (Hrun & _).
  destruct (Hrun "perf_to_profile" ["perf.data"; "/tmp/pprof_1.pb.gz"] None
              ltac:(vm_compute; in_trace)) as (_ & Hsrc & _).
  exact Hsrc.
Defined.

(** ** grabProfile: the shape of its results *)

(** Close a goal about which of the results are nil. *)
Ltac shape :=
  split_and!; intros;
  repeat match goal with
         | Hs : is_Some _ |- _ => destruct Hs as [? ?]
         end;
  simplify_eq;
  try done;
  try (split; intros;
       repeat match goal with
              | Hs : is_Some _ |- _ => destruct Hs as [? ?]
              end;
       simplify_eq; try done; eauto);
  eauto.

Lemma grabChecked_shape {Env} `{Lib} `{ProfileOps} `{System Env}
    (s : source) (sc : Z) (obj : ObjTool Env) (p0 : option Profile) (src : string)
    (e : Env) p msrc remote err e' tr :
  grabChecked s sc obj p0 src e = ((p, msrc, remote, err), e', tr) →
  (err = None → is_Some p ∧ (remote = true ↔ src ≠ "")) ∧
  (remote = true ↔ is_Some msrc) ∧
  (is_Some err → msrc = None ∧ remote = false).
Proof.
  unfold grabChecked. destruct p0 as [p0|].
  2:{ cbn. intros [= <- <- <- <- _ _]. shape. }
  destruct (CheckValid p0) as [er|].
  { cbn. intros [= <- <- <- <- _ _]. shape. }
  rewrite bind_run.
  destruct (locateBinaries (Scale sc p0) s obj e) as [[p1 e1] t1].
  destruct (decide (src ≠ "")) as [Hs|Hs].
  - destruct (collectMappingSources p1 src) as [p2 m2]. cbn.
    intros [= <- <- <- <- _ _]. shape.
  - cbn. intros [= <- <- <- <- _ _]. shape.
Qed.

(** X8.  Whatever the fetcher and the resolver do, [grabProfile] returns
    a profile whenever it returns no error, marks the task remote
    exactly when it returns a provenance map, and returns neither a map
    nor the remote mark together with an error. *)
Theorem grabProfile_shape {Env} `{Lib} `{ProfileOps} `{System Env}
    (s : source) (source : string) (sc : Z) (fetcher : option (Fetcher Env))
    (obj : ObjTool Env) (e : Env) p msrc remote err e' tr :
  grabProfile s source sc fetcher obj e = ((p, msrc, remote, err), e', tr) →
  (err = None → is_Some p) ∧
  (remote = true ↔ is_Some msrc) ∧
  (is_Some err → msrc = None ∧ remote = false).
Proof.
  assert (∀ d t p0 src0 (e0 : Env) p msrc remote err e' tr,
            grabFallback s source sc obj d t p0 src0 e0 = ((p, msrc, remote, err), e', tr) →
            (err = None → is_Some p) ∧ (remote = true ↔ is_Some msrc) ∧
            (is_Some err → msrc = None ∧ remote = false)) as Hfall.
  { clear. intros d t p0 src0 e0 p msrc remote err e' tr. unfold grabFallback.
    destruct p0 as [p0|].
    - intros Hg. apply grabChecked_shape in Hg as (Hp & Hr & He).
      split_and!; [|done|done]. intros Hn. by apply Hp.
    - rewrite bind_run.
      destruct (fetch source d t e0) as [[[[p1 src1] [er|]] e1] t1].
      + cbn. intros [= <- <- <- <- _ _]. shape.
      + destruct (grabChecked s sc obj p1 src1 e1) as [[r e2] t2] eqn:Hg.
        destruct r as [[[p2 m2] r2] er2]. intros [= <- <- <- <- _ _].
        apply grabChecked_shape in Hg as (Hp & Hr & He).
        split_and!; [|done|done]. intros Hn. by apply Hp. }
  unfold grabProfile. destruct fetcher as [f|]; [|apply Hfall].
  rewrite bind_run. unfold call at 1.
  destruct (Fetch f source _ _ e) as [[[p0 src0] [er|]] e0].
  - cbn. intros [= <- <- <- <- _ _]. shape.
  - destruct (grabFallback s source sc obj _ _ p0 src0 e0) as [[r e2] t2] eqn:Hg.
    destruct r as [[[p2 m2] r2] er2]. intros [= <- <- <- <- _ _].
    by apply Hfall in Hg.
Qed.

Lemma grabProfile_shape_witness :
  is_Some (@grabProfile _ Demo.lib Demo.ops Demo.sys Demo.src0
             "http://host/profile" 1 None Demo.objTool Demo.world).1.1.1.1.1.
Proof.
  destruct (@grabProfile_shape _ Demo.lib Demo.ops Demo.sys Demo.src0
              "http://host/profile" 1 None Demo.objTool Demo.world
              _ _ _ _ _ _ eq_refl) as (Hp & _).
  apply Hp. reflexivity.
Defined.

(** ** locateBinaries: what it opens, closes and changes *)

Lemma locateBinaries_run {Env} `{Lib} `{System Env}
    (p : Profile) (s : source) (obj : ObjTool Env) (e : Env) p' e' tr :
  locateBinaries p s obj e = (p', e', tr) →
  ∃ sp e1 t1 ms opened e2 t2 t3,
    searchPath e = (sp, e1, t1) ∧
    locateLoop obj s sp 0 (Mappings p) [] e1 = ((ms, opened), e2, t2) ∧
    closeAll obj opened e2 = (tt, e', t3) ∧
    p' = setMappings p ms ∧ tr = t1 ++ t2 ++ t3.
Proof.
  unfold locateBinaries. rewrite bind_run.
  destruct (@searchPath Env _ _ e) as [[sp e1] t1] eqn:Hs.
  rewrite bind_run.
  destruct (locateLoop obj s sp 0 (Mappings p) [] e1) as [[[ms opened] e2] t2] eqn:Hl.
  rewrite bind_run. cbn [fst snd].
  destruct (closeAll obj opened e2) as [[[] e3] t3] eqn:Hc.
  cbn. intros [= <- <- <-].
  exists sp, e1, t1, ms, opened, e2, t2, t3. split_and!; try done.
  by rewrite app_nil_r.
Qed.

Lemma opensOf_app (a b : list event) : opensOf (a ++ b) = opensOf a ++ opensOf b.
Proof. apply omap_app. Qed.

Lemma closesOf_app (a b : list event) : closesOf (a ++ b) = closesOf a ++ closesOf b.
Proof. apply omap_app. Qed.

Lemma tryNames_opened {Env} (obj : ObjTool Env) (m : Mapping) (names : list string) :
  ∀ opened e r opened' e' tr,
    tryNames obj m names opened e = ((r, opened'), e', tr) →
    opened' = rev (opensOf tr) ++ opened ∧ closesOf tr = [].
Proof.
  induction names as [|name rest IH]; intros opened e r opened' e' tr.
  - cbn. by intros [= _ <- _ <-].
  - cbn [tryNames]. rewrite bind_run. unfold call at 1.
    destruct (obj_Open obj name (Start m) (Limit m) (Offset m) e) as [[err|f] e1].
    + destruct (tryNames obj m rest opened e1) as [[[r2 o2] e2] t2] eqn:Hrun.
      intros [= _ <- _ <-]. apply IH in Hrun as [-> Hc]. by cbn.
    + destruct (decide (BuildID m ≠ "" ∧ BuildID m ≠ objBuildID f)).
      * rewrite bind_run. unfold ui_PrintErr, emit.
        destruct (tryNames obj m rest (f :: opened) e1) as [[[r2 o2] e2] t2] eqn:Hrun.
        intros [= _ <- _ <-]. apply IH in Hrun as [-> Hc].
        split; [|done]. cbn. by rewrite <- app_assoc.
      * cbn. by intros [= _ <- _ <-].
Qed.

Lemma fileNames_opened {Env} `{Lib} `{System Env} path m baseName (e : Env) names e' tr :
  fileNames path m baseName e = (names, e', tr) → opensOf tr = [] ∧ closesOf tr = [].
Proof.
  intros (g & -> & _)%fileNames_run. unfold globTrace.
  by destruct (decide (BuildID m ≠ "")).
Qed.

Lemma tryPaths_opened {Env} `{Lib} `{System Env} (obj : ObjTool Env) m baseName paths :
  ∀ opened (e : Env) r opened' e' tr,
    tryPaths obj m baseName paths opened e = ((r, opened'), e', tr) →
    opened' = rev (opensOf tr) ++ opened ∧ closesOf tr = [].
Proof.
  induction paths as [|path rest IH]; intros opened e r opened' e' tr.
  - cbn. by intros [= _ <- _ <-].
  - cbn [tryPaths]. rewrite bind_run.
    destruct (fileNames path m baseName e) as [[names e1] t1] eqn:Hf.
    apply fileNames_opened in Hf as [Ho1 Hc1]. rewrite bind_run.
    destruct (tryNames obj m names opened e1) as [[[r2 o2] e2] t2] eqn:Hn.
    apply tryNames_opened in Hn as [-> Hc2].
    destruct r2 as [name|].
    + cbn. intros [= _ <- _ <-].
      by rewrite !opensOf_app, !closesOf_app, Ho1, Hc1, Hc2, app_nil_r.
    + destruct (tryPaths obj m baseName rest _ e2) as [[[r3 o3] e3] t3] eqn:Hp.
      intros [= _ <- _ <-]. apply IH in Hp as [-> Hc3].
      rewrite !opensOf_app, !closesOf_app, Ho1, Hc1, Hc2, Hc3.
      split; [|done]. cbn. by rewrite rev_app_distr, <- app_assoc.
Qed.

Lemma locateLoop_opened {Env} `{Lib} `{System Env} (obj : ObjTool Env) s sp ms :
  ∀ i opened (e : Env) ms' opened' e' tr,
    locateLoop obj s sp i ms opened e = ((ms', opened'), e', tr) →
    opened' = rev (opensOf tr) ++ opened ∧ closesOf tr = [].
Proof.
  induction ms as [|m0 rest IH]; intros i opened e ms' opened' e' tr.
  - cbn. by intros [= _ <- _ <-].
  - cbn [locateLoop]. rewrite bind_run. unfold locateMapping at 1. rewrite bind_run.
    destruct (tryPaths obj _ _ (filepath_SplitList sp) opened e)
      as [[[r1 o1] e1] t1] eqn:Hp.
    apply tryPaths_opened in Hp as [-> Hc1].
    assert (∀ m1, (let '(b, e2, t2) :=
                     (r' <- locateLoop obj s sp (S i) rest (rev (opensOf t1) ++ opened);;
                      ret (m1 :: r'.1, r'.2)) e1 in
                   (b, e2, (t1 ++ []) ++ t2)) = (ms', opened', e', tr) →
                  opened' = rev (opensOf tr) ++ opened ∧ closesOf tr = []) as Hrest.
    { intros m1. rewrite bind_run.
      destruct (locateLoop obj s sp (S i) rest _ e1) as [[[ms2 o2] e2] t2] eqn:Hl.
      cbn. intros [= _ <- _ <-]. apply IH in Hl as [-> Hc2].
      rewrite !app_nil_r, !opensOf_app, !closesOf_app, Hc1, Hc2.
      split; [|done]. by rewrite rev_app_distr, <- app_assoc. }
    destruct r1 as [name|]; cbn; apply Hrest.
Qed.

Lemma closeAll_run {Env} (obj : ObjTool Env) (fs : list ObjFile) :
  ∀ (e : Env) u e' tr, closeAll obj fs e = (u, e', tr) → tr = EvObjClose <$> fs.
Proof.
  induction fs as [|f rest IH]; intros e u e' tr.
  - cbn. by intros [= _ _ <-].
  - cbn [closeAll]. rewrite bind_run. unfold call at 1.
    destruct (obj_Close obj f e) as [u1 e1].
    destruct (closeAll obj rest e1) as [[u2 e2] t2] eqn:Hc.
    intros [= _ _ <-]. apply IH in Hc as ->. done.
Qed.

Lemma opens_closes_of_closes (fs : list ObjFile) :
  opensOf (EvObjClose <$> fs) = [] ∧ closesOf (EvObjClose <$> fs) = fs.
Proof. induction fs as [|f fs [IH1 IH2]]; [done|]. cbn. split; [done|]. by f_equal. Qed.

Lemma searchPath_trace {Env} `{Lib} `{System Env} (e : Env) sp e' tr :
  searchPath e = (sp, e', tr) → opensOf tr = [] ∧ closesOf tr = [].
Proof.
  unfold searchPath, getenv, bind, call, ret.
  destruct (os_Getenv "PPROF_BINARY_PATH" e) as [v e1].
  destruct (decide (v = "")).
  - destruct (os_Getenv "HOME" e1) as [h e2]. by intros [= _ _ <-].
  - by intros [= _ _ <-].
Qed.

(** X9.  [locateBinaries] closes every object file it opened, each one
    once, when it is done with all the mappings and in the reverse order
    of opening; it closes nothing else and nothing before the end. *)
Theorem locateBinaries_closes_opened {Env} `{Lib} `{System Env}
    (p : Profile) (s : source) (obj : ObjTool Env) (e : Env) p' e' tr :
  locateBinaries p s obj e = (p', e', tr) →
  closesOf tr = rev (opensOf tr) ∧
  ∃ search, tr = search ++ (EvObjClose <$> rev (opensOf tr)) ∧
            closesOf search = [] ∧ opensOf search = opensOf tr.
Proof.
  intros (sp & e1 & t1 & ms & opened & e2 & t2 & t3 & Hs & Hl & Hc & _ & ->)%locateBinaries_run.
  apply searchPath_trace in Hs as [Ho1 Hc1].
  apply locateLoop_opened in Hl as [Hop Hc2].
  apply closeAll_run in Hc as ->.
  destruct (opens_closes_of_closes opened) as [Ho3 Hc3].
  rewrite app_nil_r in Hop.
  rewrite !opensOf_app, !closesOf_app, Ho1, Hc1, Hc2, Ho3, Hc3, app_nil_r.
  cbn. split; [done|]. exists (t1 ++ t2). split_and!.
  - by rewrite <- Hop, <- app_assoc.
  - by rewrite closesOf_app, Hc1, Hc2.
  - by rewrite opensOf_app, Ho1.
Qed.

Lemma locateBinaries_closes_opened_witness :
  closesOf (@locateBinaries _ Demo.lib Demo.sys Demo.p0 Demo.src0 Demo.objTool
              Demo.binWorld).2
  = [mkObjFile "/home/u/pprof/binaries/app" "b1";
     mkObjFile "/home/u/pprof/binaries/b1/app" "zz"].
Proof.
  destruct (@locateBinaries_closes_opened _ Demo.lib Demo.sys Demo.p0 Demo.src0
              Demo.objTool Demo.binWorld _ _ _ eq_refl) as [Hc _].
  etransitivity; [exact Hc|]. vm_compute. reflexivity.
Defined.

(** X10.  [locateBinaries] changes nothing of a profile but the files of
    its mappings, and the file and build identity of the first mapping
    where the source configuration overrides them: sample types and
    samples, the number of mappings and the address range of every
    mapping are kept, a mapping other than the first keeps its build
    identity, and a file that changed by the search is the name of a
    candidate the object tool opened for the address range of that
    mapping. *)
Theorem locateBinaries_frame {Env} `{Lib} `{System Env}
    (p : Profile) (s : source) (obj : ObjTool Env) (e : Env) p' e' tr :
  locateBinaries p s obj e = (p', e', tr) →
  SampleType p' = SampleType p ∧ Sample p' = Sample p ∧
  length (Mappings p') = length (Mappings p) ∧
  ∀ i m, Mappings p !! i = Some m →
    ∃ m', Mappings p' !! i = Some m' ∧
      Start m' = Start m ∧ Limit m' = Limit m ∧ Offset m' = Offset m ∧
      BuildID m' = BuildID (applyOverrides s i m) ∧
      (i ≠ 0%nat → BuildID m' = BuildID m) ∧
      (File m' = File (applyOverrides s i m) ∨
       ∃ f, EvObjOpen (File m') (Start m) (Limit m) (Offset m) (inr f) ∈ tr).
Proof.
  intros (sp & e1 & t1 & ms & opened & e2 & t2 & t3 & _ & Hl & _ & -> & ->)%locateBinaries_run.
  apply locateLoop_run in Hl as [Hlen Hall].
  split_and!; try done. intros i m Hm.
  destruct (Hall i m Hm) as (seg & pre & post & r & -> & Hp & Hlk).
  cbn in Hp, Hlk. exists (located (applyOverrides s i m) r).
  assert (Start (applyOverrides s i m) = Start m ∧
          Limit (applyOverrides s i m) = Limit m ∧
          Offset (applyOverrides s i m) = Offset m) as (Hst & Hli & Hof).
  { unfold applyOverrides. destruct (decide (i = 0%nat)); [|done].
    by destruct (decide (ExecName s ≠ "")), (decide (SrcBuildID s ≠ "")). }
  destruct r as [name|]; cbn [located].
  - split_and!; try done.
    + intros Hi. by rewrite applyOverrides_same by (by left).
    + right. apply pathsTrace_accepted in Hp as (tr0 & f & -> & _).
      exists f. cbn. rewrite <- Hst, <- Hli, <- Hof.
      apply elem_of_app. right. apply elem_of_app. left. apply elem_of_app. right.
      apply elem_of_app. left. apply elem_of_app. right. apply list_elem_of_here.
  - split_and!; try done; [|by left].
    intros Hi. by rewrite applyOverrides_same by (by left).
Qed.

Lemma locateBinaries_frame_witness :
  ∃ m', Mappings (@locateBinaries _ Demo.lib Demo.sys Demo.p0 Demo.src0 Demo.objTool
                    Demo.binWorld).1.1 !! 0%nat = Some m' ∧
        Start m' = Start Demo.m0 ∧ BuildID m' = BuildID Demo.m0 ∧
        File m' = "/home/u/pprof/binaries/app".
Proof.
  destruct (@locateBinaries_frame _ Demo.lib Demo.sys Demo.p0 Demo.src0
              Demo.objTool Demo.binWorld _ _ _ eq_refl) as (_ & _ & _ & Hm).
  destruct (Hm 0%nat Demo.m0 eq_refl) as (m' & Hlk & Hst & _ & _ & Hb & _ & _).
  exists m'. split_and!; try done.
  vm_compute in Hlk. by injection Hlk as <-.
Defined.






(** ** Provenance and counts across chunks *)

Lemma contributions_app k (xs ys : list (option MappingSources)) :
  contributions k (xs ++ ys) = contributions k xs ++ contributions k ys.
Proof. apply omap_app. Qed.

Lemma combineSources_nested (xs ys : list (option MappingSources)) :
  combineSources (Some (combineSources xs) :: ys) = combineSources (xs ++ ys).
Proof.
  apply map_eq; intros k.
  rewrite !combineSources_lookup, contributions_cons, contributions_app.
  cbn [sourcesAt mbind option_bind]. rewrite combineSources_lookup.
  destruct (contributions k xs) as [|l ls]; [done|].
  rewrite <- app_comm_cons. f_equal.
  cbn [concat]. by rewrite concat_app, <- app_assoc.
Qed.

Lemma combineSources_pair (xs ys : list (option MappingSources)) :
  combineSources [Some (combineSources xs); Some (combineSources ys)]
  = combineSources (xs ++ ys).
Proof.
  rewrite combineSources_nested. apply map_eq; intros k.
  rewrite !combineSources_lookup, !contributions_app, contributions_cons.
  cbn [sourcesAt mbind option_bind]. rewrite combineSources_lookup.
  destruct (contributions k ys) as [|l ls]; cbn.
  - by rewrite !app_nil_r.
  - destruct (contributions k xs); cbn; rewrite ?concat_app; cbn; by rewrite ?app_nil_r.
Qed.

(** X12.  Merging is compositional on provenance: when the maps [xs]
    were merged first and the result is merged with the maps [ys], the
    provenance returned is the one a single merge of [xs] followed by
    [ys] gives; every key holds the entry lists of all the maps that have
    it, concatenated in that order. *)
Theorem combineProfiles_nested `{ProfileOps}
    (ps1 ps2 : list (option Profile)) (xs ys : list (option MappingSources))
    (p1 p2 : Profile) (m1 m2 : MappingSources) :
  combineProfiles ps1 xs = inr (p1, m1) →
  combineProfiles ps2 (Some m1 :: ys) = inr (p2, m2) →
  m2 = combineSources (xs ++ ys) ∧
  ∀ k, m2 !! k = match contributions k xs ++ contributions k ys with
                 | [] => None
                 | ls => Some (concat ls)
                 end.
Proof.
  intros ->%combineProfiles_sources ->%combineProfiles_sources.
  rewrite combineSources_nested. split; [done|]. intros k.
  by rewrite combineSources_lookup, contributions_app.
Qed.

Lemma combineProfiles_nested_witness :
  combineSources [Some (combineSources [Some Demo.ms1]); Some Demo.ms2]
  = combineSources [Some Demo.ms1; Some Demo.ms2].
Proof.
  exact (proj1 (@combineProfiles_nested Demo.ops [Some Demo.p0] [Some Demo.p0; Some Demo.p0]
                  [Some Demo.ms1] [Some Demo.ms2] Demo.p0 Demo.p0
                  (combineSources [Some Demo.ms1])
                  (combineSources [Some (combineSources [Some Demo.ms1]); Some Demo.ms2])
                  eq_refl eq_refl)).
Defined.

Lemma runTasks_app {Env} `{Lib} `{ProfileOps} `{System Env}
    (fetch : option (Fetcher Env)) (obj : ObjTool Env) (a b : list profileSource) :
  ∀ (e : Env),
    runTasks fetch obj (a ++ b) e =
    (let '(s1, e1, t1) := runTasks fetch obj a e in
     let '(s2, e2, t2) := runTasks fetch obj b e1 in
     (s1 ++ s2, e2, t1 ++ t2)).
Proof.
  induction a as [|s a IH]; intros e.
  - cbn. by destruct (runTasks fetch obj b e) as [[s2 e2] t2].
  - cbn [app runTasks]. rewrite !bind_run.
    destruct (runTask fetch obj s e) as [[s' e1] t1].
    rewrite !bind_run, IH.
    destruct (runTasks fetch obj a e1) as [[s1 e2] t2]. unfold ret.
    destruct (runTasks fetch obj b e2) as [[s2 e3] t3].
    cbn. by rewrite !app_nil_r, !app_assoc.
Qed.

Lemma survivors_app (a b : list profileSource) :
  survivors (a ++ b) = survivors a ++ survivors b.
Proof. apply filter_app. Qed.

Lemma mergeChunks_flat {Env} `{Lib} `{ProfileOps} `{System Env}
    (fetch : option (Fetcher Env)) (obj : ObjTool Env)
    (chunks : list (list profileSource)) :
  ∀ acc p0 msrc0 save0 count0 (e : Env) p msrc save count e' tr,
    flatResult acc (p0, msrc0, save0, count0) →
    Z.of_nat (length acc + length (concat chunks)) <= max_int64 →
    mergeChunks chunks fetch obj (p0, msrc0, save0, count0) e
      = ((p, msrc, save, count, None), e', tr) →
    ∃ slots t,
      runTasks fetch obj (concat chunks) e = (slots, e', t) ∧
      flatResult (acc ++ survivors slots) (p, msrc, save, count).
Proof.
  induction chunks as [|c chunks IH];
    intros acc p0 msrc0 save0 count0 e p msrc save count e' tr Hinv Hlen.
  - cbn. intros [= <- <- <- <- <- _]. exists [], []. by rewrite app_nil_r.
  - cbn [mergeChunks concat]. rewrite bind_run, runTasks_app.
    run_step (runTasks fetch obj c) e slots1 e1 t1 Hr.
    destruct (concurrentGrab_run c fetch obj e slots1 e1 t1 Hr) as (Hs & Hnone & Hok & Herr).
    assert (length (survivors slots1) <= length c)%nat as Hsurv.
    { rewrite (Forall2_length _ _ _ Hs). apply length_filter. }
    cbn [concat] in Hlen. rewrite length_app in Hlen.
    assert (∀ acc' st',
              flatResult acc' st' → acc' = acc ++ survivors slots1 →
              (let '(b, e2, t2) := mergeChunks chunks fetch obj st' e1 in
               (b, e2, (t1 ++ reports slots1) ++ t2)) = (p, msrc, save, count, None, e', tr) →
              ∃ slots t,
                (let '(s2, e2, t2) := runTasks fetch obj (concat chunks) e1 in
                 (slots1 ++ s2, e2, t1 ++ t2)) = (slots, e', t) ∧
                flatResult (acc ++ survivors slots) (p, msrc, save, count)) as Hstep.
    { intros acc' [[[p1 msrc1] save1] count1] Hinv' ->.
      run_step (mergeChunks chunks fetch obj (p1, msrc1, save1, count1)) e1 r e2 t2 Hm.
      intros [= -> -> _].
      apply IH with (acc := acc ++ survivors slots1) in Hm as (slots2 & t & Hr2 & Hflat);
        [|done|rewrite length_app; lia].
      rewrite Hr2. exists (slots1 ++ slots2), (t1 ++ t). split; [done|].
      by rewrite survivors_app, app_assoc. }
    destruct (survivors slots1) as [|s0 surv] eqn:Hsv.
    + rewrite Hnone by done. apply Hstep with (acc' := acc); [done|by rewrite app_nil_r].
    + destruct (combineProfiles (p_ <$> s0 :: surv) (msrc_ <$> s0 :: surv))
        as [er|[cp cm]] eqn:Hc.
      * rewrite (Herr ltac:(done) er) by done. done.
      * rewrite (Hok ltac:(done) cp cm) by done.
        apply combineProfiles_sources in Hc as ->.
        destruct Hinv as (Hcount & Hsave & Hnil & Hcons).
        destruct p0 as [p0|].
        -- destruct (combineProfiles _ _) as [er|[p' msrc']] eqn:Hc2; [done|].
           apply combineProfiles_sources in Hc2 as ->.
           destruct acc as [|a0 acc]; [by destruct Hnil|].
           destruct Hcons as [_ ->]; [done|].
           apply Hstep with (acc' := (a0 :: acc) ++ s0 :: surv); [|done].
           split_and!.
           ++ rewrite wrap64_small; rewrite Hcount, ?length_app;
                unfold min_int64, max_int64 in *; lia.
           ++ rewrite existsb_app, Hsave. apply orb_comm.
           ++ done.
           ++ intros _. split; [eauto|]. by rewrite combineSources_pair, fmap_app.
        -- destruct acc as [|a0 acc]; [|by destruct Hcons as [[? [=]] _]].
           apply Hstep with (acc' := s0 :: surv); [|done].
           split_and!; try done; intros _; eauto.
Qed.

(** *** With the parallel phase left open *)

(** [concurrentGrab] and [chunkedGrab] are the open coordinator with the
    tasks run one after the other. *)
Lemma chunkLoop_open {Env} `{Lib} `{ProfileOps} `{System Env}
    (sources : list profileSource) (fetch : option (Fetcher Env)) (obj : ObjTool Env) :
  ∀ fuel start st (e : Env),
    chunkLoop fuel sources fetch obj start st e
    = chunkLoopBy (runTasks fetch obj) fuel sources start st e.
Proof.
  induction fuel as [|fuel IH]; intros start st e; [done|].
  cbn [chunkLoop chunkLoopBy]. destruct st as [[[p msrc] save] count].
  destruct (decide (start < length sources)%nat); [|done].
  change (concurrentGrabBy (runTasks fetch obj) ?s) with (concurrentGrab s fetch obj).
  rewrite !bind_run.
  destruct (concurrentGrab _ fetch obj e) as [[[[[[cp cm] cs] cc] ce] e1] t1].
  destruct ce as [er|]; [done|].
  destruct cp as [cp|]; [|by rewrite IH].
  destruct p as [p|]; [|by rewrite IH].
  destruct (combineProfiles _ _) as [er|[p' msrc']]; [done|]. by rewrite IH.
Qed.

Lemma chunkedGrab_open {Env} `{Lib} `{ProfileOps} `{System Env}
    (sources : list profileSource) (fetch : option (Fetcher Env)) (obj : ObjTool Env)
    (e : Env) :
  concurrentGrab sources fetch obj e = concurrentGrabBy (runTasks fetch obj) sources e ∧
  chunkedGrab sources fetch obj e = chunkedGrabBy (runTasks fetch obj) sources e.
Proof. split; [reflexivity|apply chunkLoop_open]. Qed.

Lemma concurrentGrabBy_run {Env} `{ProfileOps}
    (par : list profileSource → M Env (list profileSource))
    (c : list profileSource) (e : Env) slots e1 t1 :
  par c e = (slots, e1, t1) →
  concurrentGrabBy par c e =
  (match survivors slots with
   | [] => (None, None, false, 0, None)
   | surv =>
       match combineProfiles (p_ <$> surv) (msrc_ <$> surv) with
       | inl err => (None, None, false, 0, Some err)
       | inr (p, msrc) =>
           (Some p, Some msrc, existsb remote_ surv, Z.of_nat (length surv), None)
       end
   end, e1, t1 ++ reports slots).
Proof.
  intros Hp. unfold concurrentGrabBy.
  rewrite bind_run, Hp, bind_run, collectSlots_run. cbn [orb app].
  destruct (survivors slots) as [|s0 surv].
  - rewrite decide_True by done. cbn. by rewrite app_nil_r.
  - rewrite decide_False by done.
    destruct (combineProfiles _ _) as [err|[p msrc]]; cbn;
      by rewrite ?length_fmap, app_nil_r.
Qed.

Lemma chunkLoopBy_flat {Env} `{ProfileOps}
    (par : list profileSource → M Env (list profileSource))
    (sources : list profileSource) :
  (∀ c (e0 : Env), length (par c e0).1.1 = length c) →
  ∀ fuel start acc p0 msrc0 save0 count0 (e : Env) p msrc save count e' tr,
    (length sources - start < fuel)%nat →
    flatResult acc (p0, msrc0, save0, count0) →
    Z.of_nat (length acc + (length sources - start)) <= max_int64 →
    chunkLoopBy par fuel sources start (p0, msrc0, save0, count0) e
      = (Some (p, msrc, save, count, None), e', tr) →
    ∃ slots t,
      chunkSlotsBy par (chunksOf chunkSize (drop start sources)) e = (slots, e', t) ∧
      length slots = (length sources - start)%nat ∧
      flatResult (acc ++ survivors slots) (p, msrc, save, count).
Proof.
  intros Hpar.
  induction fuel as [|fuel IH];
    intros start acc p0 msrc0 save0 count0 e p msrc save count e' tr Hfuel Hinv Hlen;
    [lia|].
  cbn [chunkLoopBy]. destruct (decide (start < length sources)%nat) as [Hs|Hs].
  2:{ rewrite drop_ge by lia. cbn. intros [= <- <- <- <- <- _].
      exists [], []. rewrite app_nil_r. split; [done|]. split; [cbn; lia|done]. }
  rewrite slice_chunk by done.
  rewrite (chunksOf_cons 63) by (intros Hn; apply (f_equal length) in Hn;
                                 rewrite length_drop in Hn; cbn in Hn; lia).
  change (S 63) with chunkSize. rewrite drop_drop.
  cbn [chunkSlotsBy]. rewrite !bind_run.
  destruct (par (take chunkSize (drop start sources)) e) as [[slots1 e1] t1] eqn:Hp.
  rewrite (concurrentGrabBy_run _ _ _ _ _ _ Hp).
  assert (length slots1 = Nat.min 64 (length sources - start)) as Hl1.
  { pose proof (Hpar (take chunkSize (drop start sources)) e) as Hl.
    rewrite Hp in Hl. cbn in Hl. rewrite Hl, length_take, length_drop. done. }
  assert (length (survivors slots1) <= length slots1)%nat as Hsurv
    by apply length_filter.
  assert (∀ acc' st',
            flatResult acc' st' → acc' = acc ++ survivors slots1 →
            (let '(b, e2, t2) := chunkLoopBy par fuel sources (start + chunkSize) st' e1 in
             (b, e2, (t1 ++ reports slots1) ++ t2))
              = (Some (p, msrc, save, count, None), e', tr) →
            ∃ slots t,
              (let '(b, e2, t2) :=
                 (slots' <- chunkSlotsBy par
                              (chunksOf chunkSize (drop (start + chunkSize) sources));;
                  ret (slots1 ++ slots')) e1 in
               (b, e2, t1 ++ t2)) = (slots, e', t) ∧
              length slots = (length sources - start)%nat ∧
              flatResult (acc ++ survivors slots) (p, msrc, save, count)) as Hstep.
  { intros acc' [[[p1 msrc1] save1] count1] Hinv' ->.
    destruct (chunkLoopBy par fuel sources (start + chunkSize) (p1, msrc1, save1, count1) e1)
      as [[r e2] t2] eqn:Hloop.
    intros [= -> -> _].
    apply IH with (acc := acc ++ survivors slots1) in Hloop
      as (slots2 & t & Hr2 & Hl2 & Hflat);
      [|unfold chunkSize; lia|done|rewrite length_app; unfold chunkSize; lia].
    rewrite bind_run, Hr2. cbn. exists (slots1 ++ slots2), (t1 ++ t ++ []).
    split; [done|]. split.
    - rewrite length_app, Hl1, Hl2. unfold chunkSize. lia.
    - by rewrite survivors_app, app_assoc. }
  destruct (survivors slots1) as [|s0 surv] eqn:Hsv.
  { apply Hstep with (acc' := acc); [done|by rewrite app_nil_r]. }
  cbv beta match zeta.
  destruct (combineProfiles (p_ <$> s0 :: surv) (msrc_ <$> s0 :: surv))
    as [er|[cp cm]] eqn:Hc; [by cbn|].
  apply combineProfiles_sources in Hc as ->.
  destruct Hinv as (Hcount & Hsave & Hnil & Hcons).
  destruct p0 as [p0|].
  - destruct (combineProfiles _ _) as [er|[p' msrc']] eqn:Hc2; [by cbn|].
    apply combineProfiles_sources in Hc2 as ->.
    destruct acc as [|a0 acc]; [by destruct Hnil|].
    destruct Hcons as [_ ->]; [done|].
    apply Hstep with (acc' := (a0 :: acc) ++ s0 :: surv); [|done].
    split_and!.
    + rewrite wrap64_small; rewrite Hcount, ?length_app;
        rewrite ?length_app in Hlen; cbn [length] in *;
        unfold min_int64, max_int64 in *; lia.
    + replace (if existsb remote_ (s0 :: surv) then true else save0)
        with (existsb remote_ (s0 :: surv) || save0)
        by (by destruct (existsb remote_ (s0 :: surv))).
      rewrite existsb_app, Hsave. apply orb_comm.
    + done.
    + intros _. split; [eauto|]. by rewrite combineSources_pair, fmap_app.
  - destruct acc as [|a0 acc]; [|by destruct Hcons as [[? [=]] _]].
    apply Hstep with (acc' := s0 :: surv); [|done].
    split_and!; try done; intros _; eauto.
Qed.

(** X13.  Chunking is invisible in what [chunkedGrab] returns beside the
    profile, whatever the goroutines of a chunk do and in whatever order:
    the parallel phase is any computation that fills the slots of the
    chunk it is given.  When the coordinator returns without an error,
    the count is the number of slots without error over all the chunks,
    at most the number of tasks; the save flag tells whether one of them
    is marked remote; and the provenance is that of all of them merged at
    once in slot order.  A profile is returned exactly when the count is
    not zero. *)
Theorem chunkedGrab_flat {Env} `{ProfileOps}
    (par : list profileSource → M Env (list profileSource))
    (sources : list profileSource) (e : Env) p msrc save count e' tr :
  (∀ c (e0 : Env), length (par c e0).1.1 = length c) →
  Z.of_nat (length sources) <= max_int64 →
  chunkedGrabBy par sources e = (Some (p, msrc, save, count, None), e', tr) →
  ∃ slots t,
    chunkSlotsBy par (chunksOf chunkSize sources) e = (slots, e', t) ∧
    length slots = length sources ∧
    count = Z.of_nat (length (survivors slots)) ∧
    0 <= count <= Z.of_nat (length sources) ∧
    save = existsb remote_ (survivors slots) ∧
    (count = 0 → p = None ∧ msrc = None) ∧
    (count ≠ 0 →
       is_Some p ∧ msrc = Some (combineSources (msrc_ <$> survivors slots))).
Proof.
  intros Hpar Hlen Hg. unfold chunkedGrabBy in Hg.
  apply (chunkLoopBy_flat par sources Hpar) with (acc := []) in Hg
    as (slots & t & Hr & Hl & Hflat);
    [|lia|by split_and!|cbn; lia].
  rewrite drop_0 in Hr. rewrite Nat.sub_0_r in Hl. cbn [app] in Hflat.
  destruct Hflat as (Hcount & Hsave & Hnil & Hcons).
  assert (length (survivors slots) <= length slots)%nat as Hsurv
    by apply length_filter.
  exists slots, t. split_and!; try done; try lia.
  - intros Hz. apply Hnil. destruct (survivors slots); [done|]. cbn in Hcount. lia.
  - intros Hz. apply Hcons. intros Hn. rewrite Hn in Hcount. by cbn in Hcount.
Qed.

Lemma chunkedGrab_flat_witness :
  ∃ slots t,
    chunkSlotsBy (@runTasks _ Demo.lib Demo.ops Demo.sys None Demo.objTool)
                 (chunksOf chunkSize Demo.manyTasks) Demo.world
      = (slots, Demo.world, t) ∧
    65 = Z.of_nat (length (survivors slots)) ∧
    Some Demo.sources65 = Some (combineSources (msrc_ <$> survivors slots)).
Proof.
  destruct (@chunkedGrab_flat _ Demo.ops
              (@runTasks _ Demo.lib Demo.ops Demo.sys None Demo.objTool)
              Demo.manyTasks Demo.world _ _ _ _ _ _
              ltac:(intros c e0;
                    destruct (@runTasks _ Demo.lib Demo.ops Demo.sys None Demo.objTool c e0)
                      as [[s1 e1] t1] eqn:Hr;
                    apply runTasks_slots in Hr; symmetry;
                    exact (Forall2_length _ _ _ Hr))
              ltac:(vm_compute; discriminate)
              (eq_trans (eq_sym (proj2 (chunkedGrab_open Demo.manyTasks None Demo.objTool
                                          Demo.world)))
                        manyTasks_merged))
    as (slots & t & Hr & _ & Hcount & _ & _ & _ & Hsome).
  exists slots, t. split_and!; try done. by apply Hsome.
Defined.

(** ** What the grabbing phase never does, and when it asks for a copy *)

Lemma quiet_app (a b : list event) : quiet (a ++ b) ↔ quiet a ∧ quiet b.
Proof. apply Forall_app. Qed.

Lemma evidenced_app (a b : list event) : evidenced (a ++ b) ↔ evidenced a ∨ evidenced b.
Proof. apply Exists_app. Qed.

(** Look for the evidence in a trace that is written out. *)
Ltac find_evidence :=
  repeat first [ apply Exists_cons_hd; cbn; apply bool_decide_eq_true;
                 first [done | by apply dec_stable]
               | apply Exists_cons_tl ].

Lemma fetch_quiet {Env} `{Lib} `{System Env} (source : string)
    (duration timeout : time.Duration) (e : Env) p src err e' tr :
  fetch source duration timeout e = ((p, src, err), e', tr) →
  quiet tr ∧ (err = None → src ≠ "" → evidenced tr).
Proof.
  unfold fetch, openSource, fetchURL, httpGet, isPerfFile, convertPerfData,
    close, ui_Print, bind, call, emit, ret, quiet, evidenced.
  destruct (adjustURL source duration timeout) as [url t'] eqn:Ha.
  cbv beta iota zeta.
  destruct (decide (url ≠ "")) as [Hu|Hu].
  - split_run; intros ?; simplify_eq; (split; [by repeat constructor|]);
      intros ? ?; try done; cbn; find_evidence.
  - apply dec_stable in Hu as ->.
    split_run; intros ?; simplify_eq; (split; [by repeat constructor|]);
      intros ? ?; done.
Qed.

Lemma locates_app (a b : list event) : locates (a ++ b) ↔ locates a ∧ locates b.
Proof. apply Forall_app. Qed.

Lemma tryNames_locates {Env} (obj : ObjTool Env) (m : Mapping) (names : list string) :
  ∀ opened e r e' tr, tryNames obj m names opened e = (r, e', tr) → locates tr.
Proof.
  induction names as [|name rest IH]; intros opened e r e' tr.
  - cbn. intros [= _ _ <-]. constructor.
  - cbn [tryNames]. rewrite bind_run. unfold call at 1.
    destruct (obj_Open obj name (Start m) (Limit m) (Offset m) e) as [[err|f] e1].
    + destruct (tryNames obj m rest opened e1) as [[r2 e2] t2] eqn:Hrun.
      intros [= _ _ <-]. apply IH in Hrun. by constructor.
    + destruct (decide (BuildID m ≠ "" ∧ BuildID m ≠ objBuildID f)).
      * rewrite bind_run. unfold ui_PrintErr, emit.
        destruct (tryNames obj m rest (f :: opened) e1) as [[r2 e2] t2] eqn:Hrun.
        intros [= _ _ <-]. apply IH in Hrun. by repeat constructor.
      * cbn. intros [= _ _ <-]. by repeat constructor.
Qed.

Lemma tryPaths_locates {Env} `{Lib} `{System Env} (obj : ObjTool Env) m baseName paths :
  ∀ opened (e : Env) r e' tr,
    tryPaths obj m baseName paths opened e = (r, e', tr) → locates tr.
Proof.
  induction paths as [|path rest IH]; intros opened e r e' tr.
  - cbn. intros [= _ _ <-]. constructor.
  - cbn [tryPaths]. rewrite bind_run.
    destruct (fileNames path m baseName e) as [[names e1] t1] eqn:Hf.
    apply fileNames_run in Hf as (g & -> & _).
    assert (locates (globTrace path m g)) as Hg.
    { unfold globTrace. destruct (decide (BuildID m ≠ "")); by repeat constructor. }
    rewrite bind_run.
    destruct (tryNames obj m names opened e1) as [[[r2 o2] e2] t2] eqn:Hn.
    apply tryNames_locates in Hn.
    destruct r2 as [name|].
    + cbn. intros [= _ _ <-]. rewrite app_nil_r. by apply locates_app.
    + destruct (tryPaths obj m baseName rest o2 e2) as [[r3 e3] t3] eqn:Hp.
      intros [= _ _ <-]. apply IH in Hp. rewrite !locates_app. done.
Qed.

Lemma locateLoop_locates {Env} `{Lib} `{System Env} (obj : ObjTool Env) s sp ms :
  ∀ i opened (e : Env) r e' tr,
    locateLoop obj s sp i ms opened e = (r, e', tr) → locates tr.
Proof.
  induction ms as [|m0 rest IH]; intros i opened e r e' tr.
  - cbn. intros [= _ _ <-]. constructor.
  - cbn [locateLoop]. rewrite bind_run. unfold locateMapping at 1. rewrite bind_run.
    destruct (tryPaths obj _ _ (filepath_SplitList sp) opened e)
      as [[[r1 o1] e1] t1] eqn:Hp.
    apply tryPaths_locates in Hp.
    assert (∀ m1, (let '(b, e2, t2) :=
                     (r' <- locateLoop obj s sp (S i) rest o1;;
                      ret (m1 :: r'.1, r'.2)) e1 in
                   (b, e2, (t1 ++ []) ++ t2)) = (r, e', tr) → locates tr) as Hrest.
    { intros m1. rewrite bind_run.
      destruct (locateLoop obj s sp (S i) rest o1 e1) as [[r2 e2] t2] eqn:Hl.
      cbn. intros [= _ _ <-]. apply IH in Hl.
      rewrite !app_nil_r. by apply locates_app. }
    destruct r1 as [name|]; cbn; apply Hrest.
Qed.

Lemma locateBinaries_locates {Env} `{Lib} `{System Env}
    (p : Profile) (s : source) (obj : ObjTool Env) (e : Env) p' e' tr :
  locateBinaries p s obj e = (p', e', tr) → locates tr.
Proof.
  intros (sp & e1 & t1 & ms & opened & e2 & t2 & t3 & Hs & Hl & Hc & _ & ->)%locateBinaries_run.
  apply locateLoop_locates in Hl. apply closeAll_run in Hc as ->.
  rewrite !locates_app. split_and!; [|done|].
  - revert Hs. unfold searchPath, getenv, bind, call, ret.
    destruct (os_Getenv "PPROF_BINARY_PATH" e) as [v e3].
    destruct (decide (v = "")).
    + destruct (os_Getenv "HOME" e3) as [h e4]. intros [= _ _ <-]. by repeat constructor.
    + intros [= _ _ <-]. by repeat constructor.
  - clear. induction opened; by constructor.
Qed.

Lemma locateBinaries_quiet {Env} `{Lib} `{System Env}
    (p : Profile) (s : source) (obj : ObjTool Env) (e : Env) p' e' tr :
  locateBinaries p s obj e = (p', e', tr) → quiet tr.
Proof.
  intros Hl%locateBinaries_locates. eapply Forall_impl; [exact Hl|].
  by intros [] Hev.
Qed.

Lemma grabChecked_quiet {Env} `{Lib} `{ProfileOps} `{System Env}
    (s : source) (sc : Z) (obj : ObjTool Env) (p0 : option Profile) (src : string)
    (e : Env) p msrc remote err e' tr :
  grabChecked s sc obj p0 src e = ((p, msrc, remote, err), e', tr) →
  quiet tr ∧ (remote = true → src ≠ "" ∧ is_Some p0).
Proof.
  unfold grabChecked. destruct p0 as [p0|].
  2:{ cbn. intros [= _ _ <- _ _ <-]. split; [constructor|done]. }
  destruct (CheckValid p0) as [er|].
  { cbn. intros [= _ _ <- _ _ <-]. split; [constructor|done]. }
  rewrite bind_run.
  destruct (locateBinaries (Scale sc p0) s obj e) as [[p1 e1] t1] eqn:Hl.
  apply locateBinaries_quiet in Hl.
  destruct (decide (src ≠ "")) as [Hs|Hs].
  - destruct (collectMappingSources p1 src) as [p2 m2]. cbn.
    intros [= _ _ <- _ _ <-]. rewrite app_nil_r. eauto.
  - cbn. intros [= _ _ <- _ _ <-]. rewrite app_nil_r. done.
Qed.

Lemma grabProfile_quiet {Env} `{Lib} `{ProfileOps} `{System Env}
    (s : source) (source : string) (sc : Z) (fetcher : option (Fetcher Env))
    (obj : ObjTool Env) (e : Env) p msrc remote err e' tr :
  grabProfile s source sc fetcher obj e = ((p, msrc, remote, err), e', tr) →
  quiet tr ∧ (remote = true → evidenced tr).
Proof.
  assert (∀ d t (e0 : Env) p msrc remote err e' tr,
            grabFallback s source sc obj d t None "" e0 = ((p, msrc, remote, err), e', tr) →
            quiet tr ∧ (remote = true → evidenced tr)) as Hfall.
  { clear. intros d t e0 p msrc remote err e' tr. unfold grabFallback.
    rewrite bind_run.
    destruct (fetch source d t e0) as [[[[p1 src1] er1] e1] t1] eqn:Hf.
    apply fetch_quiet in Hf as [Hq Hev].
    destruct er1 as [er|].
    - cbn. intros [= _ _ <- _ _ <-]. rewrite app_nil_r. done.
    - destruct (grabChecked s sc obj p1 src1 e1) as [[r2 e2] t2] eqn:Hg.
      destruct r2 as [[[p2 m2] rem2] er2].
      apply grabChecked_quiet in Hg as [Hq2 Hrem].
      intros [= _ _ <- _ _ <-]. split; [by apply quiet_app|].
      intros Hr. apply evidenced_app. left. apply Hev; [done|]. by apply Hrem. }
  unfold grabProfile. destruct fetcher as [f|]; [|apply Hfall].
  rewrite bind_run. unfold call at 1.
  destruct (Fetch f source _ _ e) as [[[p0 src0] er0] e0].
  destruct er0 as [er|].
  { cbn. intros [= _ _ <- _ _ <-]. split; [by repeat constructor|done]. }
  destruct p0 as [p0|].
  - unfold grabFallback.
    destruct (grabChecked s sc obj (Some p0) src0 e0) as [[r2 e2] t2] eqn:Hg.
    destruct r2 as [[[p2 m2] rem2] er2].
    apply grabChecked_quiet in Hg as [Hq2 Hrem].
    intros [= _ _ <- _ _ <-]. split; [by constructor|].
    intros Hr. apply Exists_cons_hd. cbn. apply bool_decide_eq_true. by apply Hrem.
  - destruct (grabFallback s source sc obj _ _ None src0 e0) as [[r2 e2] t2] eqn:Hg.
    destruct r2 as [[[p2 m2] rem2] er2].
    intros [= _ _ <- _ _ <-].
    assert (grabFallback s source sc obj
              (time.mul (Seconds s) time.Second) (time.mul (Timeout s) time.Second)
              None "" e0 = (p2, m2, rem2, er2, e2, t2)) as Hg' by exact Hg.
    apply Hfall in Hg' as [Hq Hev]. split; [by constructor|].
    intros Hr. apply Exists_cons_tl. by apply Hev.
Qed.

Lemma runTasks_quiet {Env} `{Lib} `{ProfileOps} `{System Env}
    (fetch : option (Fetcher Env)) (obj : ObjTool Env) (sources : list profileSource) :
  ∀ (e : Env) slots e' tr,
    runTasks fetch obj sources e = (slots, e', tr) →
    quiet tr ∧ (∀ s, s ∈ slots → remote_ s = true → evidenced tr).
Proof.
  induction sources as [|s rest IH]; intros e slots e' tr.
  - cbn. intros [= <- _ <-]. split; [constructor|]. by intros s ?%elem_of_nil.
  - cbn [runTasks]. rewrite bind_run. unfold runTask at 1. rewrite bind_run.
    run_step (grabProfile (psource s) (addr s) (scale s) fetch obj) e a e1 t1 Hg.
    destruct a as [[[p msrc] remote] err]. cbn. rewrite bind_run.
    run_step (runTasks fetch obj rest) e1 a e2 t2 Hr.
    cbn. intros [= <- _ <-].
    apply grabProfile_quiet in Hg as [Hq1 He1]. apply IH in Hr as [Hq2 He2].
    rewrite !app_nil_r. split; [by apply quiet_app|].
    intros s' [->|Hin]%elem_of_cons Hrem; apply evidenced_app.
    + left. by apply He1.
    + right. by eapply He2.
Qed.

Lemma reports_quiet (slots : list profileSource) : quiet (reports slots).
Proof.
  induction slots as [|s slots IH]; [constructor|].
  rewrite reports_cons. destruct (err_ s); [by constructor|done].
Qed.

Lemma concurrentGrab_quiet {Env} `{Lib} `{ProfileOps} `{System Env}
    (c : list profileSource) (fetch : option (Fetcher Env)) (obj : ObjTool Env)
    (e : Env) p msrc save count err e' tr :
  concurrentGrab c fetch obj e = ((p, msrc, save, count, err), e', tr) →
  quiet tr ∧ (save = true → evidenced tr).
Proof.
  run_step (runTasks fetch obj c) e slots e1 t1 Hr.
  destruct (concurrentGrab_run c fetch obj e slots e1 t1 Hr) as (_ & Hnone & Hok & Herr).
  apply runTasks_quiet in Hr as [Hq Hev].
  pose proof (reports_quiet slots) as Hrep.
  destruct (survivors slots) as [|s0 surv] eqn:Hsurv.
  - rewrite Hnone by done. intros [= _ _ <- _ _ _ <-]. split; [by apply quiet_app|done].
  - destruct (combineProfiles (p_ <$> s0 :: surv) (msrc_ <$> s0 :: surv))
      as [er|[pr ms]] eqn:Hc.
    + rewrite (Herr ltac:(done) er) by done. intros [= _ _ <- _ _ _ <-].
      split; [by apply quiet_app|done].
    + rewrite (Hok ltac:(done) pr ms) by done. intros [= _ _ <- _ _ _ <-].
      split; [by apply quiet_app|].
      intros Hex. change (existsb remote_ (s0 :: surv) = true) in Hex.
      apply existsb_exists in Hex as (s1 & Hin & Hrem). apply evidenced_app. left.
      apply (Hev s1); [|done]. apply list_elem_of_In in Hin. rewrite <- Hsurv in Hin.
      unfold survivors in Hin. by apply list_elem_of_filter in Hin as [_ Hin].
Qed.

Lemma mergeChunks_quiet {Env} `{Lib} `{ProfileOps} `{System Env}
    (chunks : list (list profileSource)) (fetch : option (Fetcher Env))
    (obj : ObjTool Env) :
  ∀ p0 msrc0 save0 count0 (e : Env) p msrc save count err e' tr,
    mergeChunks chunks fetch obj (p0, msrc0, save0, count0) e
      = ((p, msrc, save, count, err), e', tr) →
    quiet tr ∧ (save = true → save0 = true ∨ evidenced tr).
Proof.
  induction chunks as [|c chunks IH];
    intros p0 msrc0 save0 count0 e p msrc save count err e' tr.
  - cbn. intros [= _ _ <- _ _ _ <-]. split; [constructor|by left].
  - cbn [mergeChunks]. rewrite bind_run.
    run_step (concurrentGrab c fetch obj) e a e1 t1 Hc.
    destruct a as [[[[chunkP chunkMsrc] chunkSave] chunkCount] chunkErr].
    apply concurrentGrab_quiet in Hc as [Hq1 He1].
    assert (∀ st', (st'.1.2 = true → save0 = true ∨ chunkSave = true) →
              (let '(b, e2, t2) := mergeChunks chunks fetch obj st' e1 in
               (b, e2, t1 ++ t2)) = (p, msrc, save, count, err, e', tr) →
              quiet tr ∧ (save = true → save0 = true ∨ evidenced tr)) as Hstep.
    { intros [[[p1 m1] s1] c1] Hs1.
      run_step (mergeChunks chunks fetch obj (p1, m1, s1, c1)) e1 r e2 t2 Hm.
      destruct r as [[[[p2 m2] s2] c2] er2].
      intros [= _ _ <- _ _ _ <-]. apply IH in Hm as [Hq2 He2].
      split; [by apply quiet_app|]. intros Hs.
      destruct (He2 Hs) as [Hs1'|Hev].
      - destruct (Hs1 Hs1') as [?|Hcs]; [by left|].
        right. apply evidenced_app. left. by apply He1.
      - right. apply evidenced_app. by right. }
    destruct chunkErr as [er|].
    { cbn. intros [= _ _ <- _ _ _ <-]. rewrite app_nil_r. done. }
    destruct chunkP as [cp|]; [|apply Hstep; cbn; by left].
    destruct p0 as [p0|]; [|apply Hstep; cbn; by right].
    destruct (combineProfiles _ _) as [er|[p' msrc']].
    { cbn. intros [= _ _ <- _ _ _ <-]. rewrite app_nil_r. done. }
    apply Hstep. cbn. intros [->| ->]%orb_true_iff; [by right|by left].
Qed.

(** X14.  The grabbing phase never symbolizes, never creates a directory
    and never writes a profile; and it asks for a saved copy only when
    some profile came over HTTP with status 200 or from the pluggable
    fetcher together with a source string. *)
Theorem chunkedGrab_quiet {Env} `{Lib} `{ProfileOps} `{System Env}
    (sources : list profileSource) (fetch : option (Fetcher Env)) (obj : ObjTool Env)
    (e : Env) p msrc save count err e' tr :
  chunkedGrab sources fetch obj e = (Some (p, msrc, save, count, err), e', tr) →
  Forall (fun ev => savesOrSymbolizes ev = false) tr ∧
  (save = true → Exists (fun ev => remoteEvidence ev = true) tr).
Proof.
  rewrite chunkedGrab_returns.
  run_step (mergeChunks (chunksOf chunkSize sources) fetch obj (None, None, false, 0))
           e r e1 t1 Hm.
  intros [= -> _ <-].
  apply mergeChunks_quiet in Hm as [Hq Hev]. split; [exact Hq|].
  intros Hs. by destruct (Hev Hs).
Qed.

Lemma chunkedGrab_quiet_witness :
  Exists (fun ev => remoteEvidence ev = true) Demo.trace65.
Proof.
  destruct (@chunkedGrab_quiet _ Demo.lib Demo.ops Demo.sys Demo.manyTasks None
              Demo.objTool Demo.world _ _ _ _ _ _ _ manyTasks_merged) as [_ Hev].
  by apply Hev.
Defined.

(** ** fetchProfiles: its result and the saved copy *)

Lemma fetchProfiles_run {Env} `{Lib} `{ProfileOps} `{System Env}
    (s : source) (o : Options Env) (e : Env) r e' tr :
  fetchProfiles s o e = (r, e', tr) →
  ∃ p0 msrcs save cnt err0 e1 t1 res t2,
    chunkedGrab (tasksOf s) (o_Fetch o) (o_Obj o) e
      = (Some (p0, msrcs, save, cnt, err0), e1, t1) ∧
    fetchedProfiles s o (length (tasksOf s)) (p0, msrcs, save, cnt, err0) e1
      = (res, e', t2) ∧
    r = Some res ∧ tr = t1 ++ t2 ∧
    quiet t1 ∧ (save = true → evidenced t1).
Proof.
  unfold fetchProfiles. rewrite bind_run.
  pose proof (chunkedGrab_returns (tasksOf s) (o_Fetch o) (o_Obj o) e) as Hret.
  destruct (mergeChunks (chunksOf chunkSize (tasksOf s)) (o_Fetch o) (o_Obj o)
              (None, None, false, 0) e) as [[cr e1] t1] eqn:Hm.
  destruct cr as [[[[p0 msrcs] save] cnt] err0].
  apply mergeChunks_quiet in Hm as [Hq Hev].
  rewrite Hret. rewrite bind_run.
  destruct (fetchedProfiles s o (length (tasksOf s)) _ e1) as [[res e2] t2] eqn:Hf.
  cbn. intros [= <- <- <-].
  exists p0, msrcs, save, cnt, err0, e1, t1, res, t2. rewrite app_nil_r.
  split_and!; try done. intros Hs. by destruct (Hev Hs).
Qed.

(** Open the validity check that ends [fetchProfiles]. *)
Ltac open_check :=
  repeat match goal with
         | Hc : checkedProfile ?x = _ |- _ =>
             unfold checkedProfile in Hc; destruct (CheckValid x) eqn:?; simplify_eq
         end.

Lemma fetchedProfiles_result {Env} `{Lib} `{ProfileOps} `{System Env}
    (s : source) (o : Options Env) (want : nat) p0 msrcs save cnt err0
    (e : Env) p err e' tr :
  fetchedProfiles s o want (p0, msrcs, save, cnt, err0) e = ((p, err), e', tr) →
  (err = None ↔ is_Some p) ∧
  (∀ pr, p = Some pr →
     CheckValid pr = None ∧
     ∃ pin psym, EvSymbolize (Symbolize s) msrcs pin (inr psym) ∈ tr ∧
                 pr = unsourceMappings (RemoveUninteresting psym)) ∧
  (∀ mode ms pin er, EvSymbolize mode ms pin (inl er) ∈ tr → p = None ∧ err = Some er).
Proof.
  unfold fetchedProfiles, setTmpDir, tryTmpDirs, getenv, ui_PrintErr, bind, call, emit, ret.
  split_run; intros ?; simplify_eq; open_check; split_and!.
  all: lazymatch goal with
       | |- _ ↔ _ => first [ split; [done|by intros [? [=]]] | split; [eauto|done] ]
       | |- ∀ pr, _ = Some pr → _ =>
           intros pr ?; simplify_eq;
           try (split; [done|]; eexists _, _; split; [cbn; in_trace|done])
       | |- _ => intros mode ms pin er Hin; by cases_in Hin
       end.
Qed.



Lemma fetchedProfiles_copy {Env} `{Lib} `{ProfileOps} `{System Env}
    (s : source) (o : Options Env) (want : nat) p0 msrcs save cnt err0
    (e : Env) res e' tr pw f w :
  fetchedProfiles s o want (p0, msrcs, save, cnt, err0) e = (res, e', tr) →
  EvWrite pw f w ∈ tr →
  save = true ∧ res = checkedProfile pw ∧
  (∃ pin psym, EvSymbolize (Symbolize s) msrcs pin (inr psym) ∈ tr ∧
               pw = unsourceMappings (RemoveUninteresting psym)) ∧
  ∃ dir tr0,
    tr = tr0 ++ [EvNewTempFile dir (savePrefix pw) ".pb.gz" (inr f);
                 EvWrite pw f w;
                 EvPrintErr (match w with
                             | None => ["Saved profile in "; Name f]
                             | Some er => ["Could not save profile: "; er]
                             end)].
Proof.
  unfold fetchedProfiles, setTmpDir, tryTmpDirs, getenv, ui_PrintErr, bind, call, emit, ret.
  split_run; intros ? Hin; simplify_eq; cases_in Hin.
  all: split_and!; try done.
  all: lazymatch goal with
       | |- @ex Profile _ => eexists _, _; split; [cbn; in_trace|done]
       | |- @ex string _ =>
           eexists _;
           first [ by eexists [_; _; _; _; _; _; _; _; _; _] | by eexists [_; _; _; _; _; _; _; _; _]
                 | by eexists [_; _; _; _; _; _; _; _] | by eexists [_; _; _; _; _; _; _]
                 | by eexists [_; _; _; _; _; _] | by eexists [_; _; _; _; _]
                 | by eexists [_; _; _; _] | by eexists [_; _; _]
                 | by eexists [_; _] | by eexists [_] | by eexists [] ]
       end.
Qed.

(** X16.  The copy that [fetchProfiles] saves is the profile it goes on
    to check and return: what is written is the symbolized profile after
    the uninteresting parts were removed and the source marks emptied,
    into a fresh file named after the first mapping's binary and the
    sample types, as the last thing [fetchProfiles] does but for
    telling the user.  The result does not depend on whether the write
    succeeded.  A copy is written only when the grabbing phase obtained
    some profile over HTTP or from the fetcher with a source string. *)
Theorem fetchProfiles_saved_copy {Env} `{Lib} `{ProfileOps} `{System Env}
    (s : source) (o : Options Env) (e : Env) res e' tr pw f w :
  fetchProfiles s o e = (Some res, e', tr) →
  EvWrite pw f w ∈ tr →
  res = checkedProfile pw ∧
  (∃ ms pin psym, EvSymbolize (Symbolize s) ms pin (inr psym) ∈ tr ∧
                  pw = unsourceMappings (RemoveUninteresting psym)) ∧
  (∃ dir tr0,
     tr = tr0 ++ [EvNewTempFile dir (savePrefix pw) ".pb.gz" (inr f);
                  EvWrite pw f w;
                  EvPrintErr (match w with
                              | None => ["Saved profile in "; Name f]
                              | Some er => ["Could not save profile: "; er]
                              end)]) ∧
  Exists (fun ev => remoteEvidence ev = true) tr.
Proof.
  intros (p0 & msrcs & save & cnt & err0 & e1 & t1 & res' & t2 &
          _ & Hf & [= <-] & -> & Hq & Hev)%fetchProfiles_run Hin.
  apply elem_of_app in Hin as [Hin|Hin].
  { unfold quiet in Hq. rewrite Forall_forall in Hq. by apply Hq in Hin. }
  destruct (fetchedProfiles_copy _ _ _ _ _ _ _ _ _ _ _ _ _ _ _ Hf Hin)
    as (-> & -> & (pin & psym & Hsym & ->) & dir & tr0 & ->).
  split_and!.
  - done.
  - exists msrcs, pin, psym. split; [|done]. apply elem_of_app. by right.
  - exists dir, (t1 ++ tr0). by rewrite <- app_assoc.
  - apply Exists_app. left. by apply Hev.
Qed.

Lemma fetchProfiles_saved_copy_witness :
  (@fetchProfiles _ Demo.lib Demo.ops Demo.sys Demo.src0 Demo.options Demo.world).1.1
  = Some (@checkedProfile Demo.ops Demo.p0).
Proof.
  destruct (@fetchProfiles_saved_copy _ Demo.lib Demo.ops Demo.sys Demo.src0 Demo.options
              Demo.world _ _ _ Demo.p0 _ None eq_refl ltac:(vm_compute; in_trace))
    as (Hres & _).
  exact (f_equal Some Hres).
Defined.

Lemma fetchedProfiles_head {Env} `{Lib} `{ProfileOps} `{System Env}
    (s : source) (o : Options Env) (want : nat) pin msrcs save cnt
    (e : Env) res e' tr :
  fetchedProfiles s o want (Some pin, msrcs, save, cnt, None) e = (res, e', tr) →
  cnt ≠ 0 →
  ∃ a rest,
    tr = (if decide (Z.of_nat want ≠ cnt)
          then [EvPrintErr ["fetched " +:+ Sprint_int cnt +:+ " profiles out of " +:+
                            Sprint_int (Z.of_nat want)]]
          else []) ++ EvSymbolize (Symbolize s) msrcs pin a :: rest.
Proof.
  intros Hf Hc. revert Hf.
  unfold fetchedProfiles, setTmpDir, tryTmpDirs, getenv, ui_PrintErr, bind, call, emit, ret.
  rewrite decide_False by done.
  split_run; intros ?; simplify_eq; by eexists _, _.
Qed.

(** X17.  When some but not all tasks succeed, [fetchProfiles] carries
    on: right after the grabbing phase it tells the user "fetched k
    profiles out of n", where k is the number of tasks that succeeded
    and n the number of tasks, and then symbolizes what was merged.
    When all tasks succeed it says nothing and symbolizes at once. *)
Theorem fetchProfiles_partial_report {Env} `{Lib} `{ProfileOps} `{System Env}
    (s : source) (o : Options Env) (e : Env) r e' tr :
  Z.of_nat (length (tasksOf s)) <= max_int64 →
  fetchProfiles s o e = (r, e', tr) →
  ∃ p0 msrcs save cnt err0 e1 t1 t2,
    chunkedGrab (tasksOf s) (o_Fetch o) (o_Obj o) e
      = (Some (p0, msrcs, save, cnt, err0), e1, t1) ∧
    tr = t1 ++ t2 ∧
    (err0 = None →
     ∃ slots t,
       runTasks (o_Fetch o) (o_Obj o) (tasksOf s) e = (slots, e1, t) ∧
       let k := Z.of_nat (length (survivors slots)) in
       let n := Z.of_nat (length (tasksOf s)) in
       (k ≠ 0 →
        ∃ pin a rest,
          p0 = Some pin ∧
          t2 = (if decide (k = n) then []
                else [EvPrintErr ["fetched " +:+ Sprint_int k +:+ " profiles out of " +:+
                                  Sprint_int n]]) ++
               EvSymbolize (Symbolize s) msrcs pin a :: rest)).
Proof.
  intros Hlen (p0 & msrcs & save & cnt & err0 & e1 & t1 & res & t2 &
               Hg & Hf & _ & -> & _)%fetchProfiles_run.
  exists p0, msrcs, save, cnt, err0, e1, t1, t2. split_and!; try done.
  intros ->. pose proof Hg as Hm. rewrite chunkedGrab_returns in Hm.
  destruct (mergeChunks (chunksOf chunkSize (tasksOf s)) (o_Fetch o) (o_Obj o)
              (None, None, false, 0) e) as [[cr e2] t3] eqn:Hmerge.
  injection Hm as -> -> ->.
  destruct (chunksOf_partition 63 (tasksOf s)) as [Hcat _].
  apply mergeChunks_flat with (acc := []) in Hmerge as (slots & t & Hr & Hflat);
    [|by split_and!|unfold chunkSize; by rewrite Hcat].
  unfold chunkSize in Hr. rewrite Hcat in Hr. cbn [app] in Hflat.
  destruct Hflat as (Hcount & _ & _ & Hcons).
  exists slots, t. split; [done|]. cbn zeta. intros Hk.
  destruct Hcons as [[pin ->] _].
  { intros Hn. rewrite Hn in Hk. by apply Hk. }
  apply fetchedProfiles_head in Hf as (a & rest & ->); [|by rewrite Hcount].
  exists pin, a, rest. split; [done|]. rewrite Hcount.
  destruct (decide (_ ≠ _)) as [Hne|Heq], (decide (_ = _)) as [Hq|Hnq]; try done;
    try (apply dec_stable in Heq; by rewrite Heq in Hnq).
Qed.

Lemma fetchProfiles_partial_report_witness :
  EvPrintErr ["fetched n profiles out of n"]
    ∈ (@fetchProfiles _ Demo.lib Demo.ops Demo.sys Demo2.srcPartial Demo.options
         Demo.world).2.
Proof.
  destruct (@fetchProfiles_partial_report _ Demo.lib Demo.ops Demo.sys Demo2.srcPartial
              Demo.options Demo.world _ _ _ ltac:(vm_compute; discriminate) eq_refl)
    as (p0 & msrcs & save & cnt & err0 & e1 & t1 & t2 & Hg & Htr & Hrep).
  vm_compute in Hg. injection Hg as <- <- <- <- <- <- <-.
  destruct (Hrep eq_refl) as (slots & t & Hr & Hk).
  vm_compute in Hr. injection Hr as <- <-.
  destruct (Hk ltac:(vm_compute; discriminate)) as (pin & a & rest & _ & Ht2).
  rewrite decide_False in Ht2 by (vm_compute; discriminate).
  refine (eq_ind_r (fun l => EvPrintErr ["fetched n profiles out of n"] ∈ l) _ Htr).
  rewrite Ht2. apply elem_of_app. right. apply list_elem_of_here.
Defined.

(** ** grabProfile: the order of its steps *)

Lemma fetch_parsed {Env} `{Lib} `{System Env} (source : string)
    (duration timeout : time.Duration) (e : Env) p src err e' tr :
  fetch source duration timeout e = ((p, src, err), e', tr) →
  src = (adjustURL source duration timeout).1 ∧
  (∀ rd pr, EvParse rd (inr pr) ∈ tr → p = Some pr ∧ err = None) ∧
  (∀ pr, p = Some pr → ∃ rd, EvParse rd (inr pr) ∈ tr) ∧
  (∀ k v, EvGetenv k v ∉ tr) ∧
  (∀ a d t r, EvFetch a d t r ∉ tr).
Proof.
  unfold fetch, openSource, fetchURL, httpGet, isPerfFile, convertPerfData,
    close, ui_Print, bind, call, emit, ret.
  destruct (adjustURL source duration timeout) as [url t'] eqn:Ha.
  cbv beta iota zeta.
  destruct (decide (url ≠ "")) as [Hu|Hu]; [|apply dec_stable in Hu as ->];
    split_run; intros ?; simplify_eq; split_and!; try done.
  all: lazymatch goal with
       | |- ∀ rd pr, _ ∈ _ → _ => intros ? ? Hin; by cases_in Hin
       | |- ∀ pr, _ = Some pr → _ =>
           intros ? ?; simplify_eq; eexists; cbn; in_trace
       | |- ∀ k v, _ ∉ _ => intros ? ? Hin; by cases_in Hin
       | |- ∀ a d t r, _ ∉ _ => intros ? ? ? ? Hin; by cases_in Hin
       end.
Qed.

Lemma grabChecked_pipeline {Env} `{Lib} `{ProfileOps} `{System Env}
    (s : source) (sc : Z) (obj : ObjTool Env) (pr : Profile) (src : string)
    (e : Env) p msrc remote err e' tr :
  grabChecked s sc obj (Some pr) src e = ((p, msrc, remote, err), e', tr) →
  match CheckValid pr with
  | Some er => p = Some pr ∧ msrc = None ∧ remote = false ∧ err = Some er ∧ tr = []
  | None =>
      err = None ∧
      ∃ pl, locateBinaries (Scale sc pr) s obj e = (pl, e', tr) ∧
            remote = bool_decide (src ≠ "") ∧
            p = Some (if remote then (collectMappingSources pl src).1 else pl) ∧
            msrc = (if remote then Some (collectMappingSources pl src).2 else None)
  end.
Proof.
  unfold grabChecked. destruct (CheckValid pr) as [er|].
  { cbn. by intros [= <- <- <- <- _ <-]. }
  rewrite bind_run.
  destruct (locateBinaries (Scale sc pr) s obj e) as [[pl e1] t1] eqn:Hl.
  destruct (decide (src ≠ "")) as [Hs|Hs].
  - destruct (collectMappingSources pl src) as [p2 m2] eqn:Hc. cbn.
    intros [= <- <- <- <- <- <-]. split; [done|]. exists pl.
    rewrite bool_decide_eq_true_2, app_nil_r by done. by rewrite Hc.
  - cbn. intros [= <- <- <- <- <- <-]. split; [done|]. exists pl.
    rewrite bool_decide_eq_false_2, app_nil_r by done. done.
Qed.

(** X18.  The steps of [grabProfile] on a profile it obtained, from the
    pluggable fetcher or, failing that, by parsing what the built-in
    resolver opened.  The profile is checked first: an invalid profile
    is returned with the error of the check, and no binary is looked
    for.  A valid profile is scaled by the task's scale, its binaries
    are located, and only for a remote profile, one that came with a
    source string, are the mappings filed under that string; then the
    task is marked remote and the provenance map is returned. *)
Theorem grabProfile_pipeline {Env} `{Lib} `{ProfileOps} `{System Env}
    (s : source) (source : string) (sc : Z) (fetcher : option (Fetcher Env))
    (obj : ObjTool Env) (e : Env) p msrc remote err e' tr :
  grabProfile s source sc fetcher obj e = ((p, msrc, remote, err), e', tr) →
  let d := time.mul (Seconds s) time.Second in
  let t := time.mul (Timeout s) time.Second in
  (err = None →
   ∃ pr src e0 t0 pl tl,
     ((EvFetch source d t (Some pr, src, None) ∈ t0) ∨
      (src = (adjustURL source d t).1 ∧ ∃ rd, EvParse rd (inr pr) ∈ t0)) ∧
     CheckValid pr = None ∧
     tr = t0 ++ tl ∧
     locateBinaries (Scale sc pr) s obj e0 = (pl, e', tl) ∧
     remote = bool_decide (src ≠ "") ∧
     p = Some (if remote then (collectMappingSources pl src).1 else pl) ∧
     msrc = (if remote then Some (collectMappingSources pl src).2 else None)) ∧
  (∀ pr er,
     (∃ src, EvFetch source d t (Some pr, src, None) ∈ tr) ∨
     (∃ rd, EvParse rd (inr pr) ∈ tr) →
     CheckValid pr = Some er →
     p = Some pr ∧ err = Some er ∧ msrc = None ∧ remote = false ∧
     ∀ k v, EvGetenv k v ∉ tr).
Proof.
  intros Hg d t.
  assert (∀ (e0 : Env) p msrc remote err e' tr,
            grabFallback s source sc obj d t None "" e0 = ((p, msrc, remote, err), e', tr) →
            (err = None →
             ∃ pr src e1 t0 pl tl,
               (src = (adjustURL source d t).1 ∧ ∃ rd, EvParse rd (inr pr) ∈ t0) ∧
               CheckValid pr = None ∧ tr = t0 ++ tl ∧
               locateBinaries (Scale sc pr) s obj e1 = (pl, e', tl) ∧
               remote = bool_decide (src ≠ "") ∧
               p = Some (if remote then (collectMappingSources pl src).1 else pl) ∧
               msrc = (if remote then Some (collectMappingSources pl src).2 else None)) ∧
            (∀ pr er, (∃ rd, EvParse rd (inr pr) ∈ tr) → CheckValid pr = Some er →
               p = Some pr ∧ err = Some er ∧ msrc = None ∧ remote = false ∧
               ∀ k v, EvGetenv k v ∉ tr) ∧
            (∀ a d' t' r, EvFetch a d' t' r ∉ tr)) as Hfall.
  { clear. intros e0 p msrc remote err e' tr. unfold grabFallback. rewrite bind_run.
    destruct (fetch source d t e0) as [[[[p1 src1] er1] e1] t1] eqn:Hf.
    apply fetch_parsed in Hf as (Hsrc & Hparse & Hsome & Hnoenv & Hnofetch).
    destruct er1 as [er|].
    { cbn. intros [= <- <- <- <- _ <-]. rewrite app_nil_r. split_and!; [done| |done].
      intros pr er' [rd Hin] _. by destruct (Hparse rd pr Hin). }
    destruct p1 as [pr|].
    2:{ cbn. intros [= <- <- <- <- _ <-]. rewrite app_nil_r. split_and!; [done| |done].
        intros pr er' [rd Hin] _. by destruct (Hparse rd pr Hin). }
    destruct (grabChecked s sc obj (Some pr) src1 e1) as [[r2 e2] t2] eqn:Hc.
    destruct r2 as [[[p2 m2] rem2] er2].
    intros [= <- <- <- <- <- <-].
    apply grabChecked_pipeline in Hc.
    destruct (Hsome pr eq_refl) as [rd Hrd].
    destruct (CheckValid pr) as [er|] eqn:Hv.
    - destruct Hc as (-> & -> & -> & -> & ->). rewrite app_nil_r. split_and!; [done| |done].
      intros pr' er' [rd' Hin] Hv'. destruct (Hparse rd' pr' Hin) as [[= <-] _].
      rewrite Hv in Hv'. by simplify_eq.
    - destruct Hc as (-> & pl & Hl & -> & -> & ->). split_and!.
      + intros _. exists pr, src1, e1, t1, pl, t2. split_and!; try done. eauto.
      + intros pr' er' [rd' Hin] Hv'. exfalso.
        apply elem_of_app in Hin as [Hin|Hin].
        * destruct (Hparse rd' pr' Hin) as [[= <-] _]. by rewrite Hv in Hv'.
        * apply locateBinaries_locates in Hl. unfold locates in Hl.
          rewrite Forall_forall in Hl. by apply Hl in Hin.
      + intros a d' t' r [Hin|Hin]%elem_of_app; [by eapply Hnofetch|].
        apply locateBinaries_locates in Hl. unfold locates in Hl.
        rewrite Forall_forall in Hl. by apply Hl in Hin. }
  revert Hg. unfold grabProfile. fold d t. destruct fetcher as [f|].
  2:{ intros Hg. apply Hfall in Hg as (Hok & Hbad & Hnofetch). split.
      - intros Hn. destruct (Hok Hn) as (pr & src & e0 & t0 & pl & tl & Hobt & Hrest).
        exists pr, src, e0, t0, pl, tl. split; [by right|done].
      - intros pr er [[src Hin]|Hin] Hv; [|by apply Hbad].
        by apply Hnofetch in Hin. }
  rewrite bind_run. unfold call at 1.
  destruct (Fetch f source d t e) as [[[p0 src0] er0] e0].
  destruct er0 as [er|].
  { cbn. intros [= <- <- <- <- _ <-]. split; [done|].
    intros pr er' [[src Hin]|[rd Hin]] _; by cases_in Hin. }
  destruct p0 as [pr|].
  - unfold grabFallback.
    destruct (grabChecked s sc obj (Some pr) src0 e0) as [[r2 e2] t2] eqn:Hc.
    destruct r2 as [[[p2 m2] rem2] er2].
    intros [= <- <- <- <- <- <-].
    apply grabChecked_pipeline in Hc.
    destruct (CheckValid pr) as [er|] eqn:Hv.
    + destruct Hc as (-> & -> & -> & -> & ->). split; [done|].
      intros pr' er' Hobt Hv'.
      assert (pr' = pr) as ->.
      { destruct Hobt as [[src Hin]|[rd Hin]]; by cases_in Hin. }
      rewrite Hv in Hv'. simplify_eq. split_and!; try done.
      intros k v Hin. by cases_in Hin.
    + destruct Hc as (-> & pl & Hl & -> & -> & ->). split.
      * intros _. exists pr, src0, e0, [EvFetch source d t (Some pr, src0, None)], pl, t2.
        split_and!; try done. left. apply list_elem_of_here.
      * intros pr' er' Hobt Hv'. exfalso.
        apply locateBinaries_locates in Hl. unfold locates in Hl.
        rewrite Forall_forall in Hl.
        destruct Hobt as [[src Hin]|[rd Hin]];
          (apply elem_of_cons in Hin as [Hin|Hin]; [|by apply Hl in Hin]);
          simplify_eq.
  - destruct (grabFallback s source sc obj d t None src0 e0) as [[r2 e2] t2] eqn:Hg.
    destruct r2 as [[[p2 m2] rem2] er2].
    intros [= <- <- <- <- <- <-].
    assert (grabFallback s source sc obj d t None "" e0 = (p2, m2, rem2, er2, e2, t2))
      as Hg' by exact Hg.
    apply Hfall in Hg' as (Hok & Hbad & Hnofetch). split.
    + intros Hn.
      destruct (Hok Hn) as (pr & src & e1 & t0 & pl & tl & Hobt & Hv & -> & Hl & Hrem & Hp & Hm).
      exists pr, src, e1, (EvFetch source d t (None, src0, None) :: t0), pl, tl.
      split_and!; try done. right. destruct Hobt as [Hs [rd Hrd]].
      split; [done|]. exists rd. by right.
    + intros pr er Hobt Hv.
      assert (∃ rd, EvParse rd (inr pr) ∈ t2) as Hparse.
      { destruct Hobt as [[src Hin]|[rd Hin]];
          apply elem_of_cons in Hin as [Hin|Hin]; simplify_eq; eauto.
        by apply Hnofetch in Hin. }
      destruct (Hbad pr er Hparse Hv) as (-> & -> & -> & -> & Hnoenv).
      split_and!; try done.
      intros k v [Hin|Hin]%elem_of_cons; [done|]. by eapply Hnoenv.
Qed.

Lemma grabProfile_pipeline_witness :
  ∃ pr src,
    @CheckValid Demo.ops pr = None ∧
    (@grabProfile _ Demo.lib Demo.ops Demo.sys Demo.src0 "http://host/profile" 1 None
       Demo.objTool Demo.world).1.1.1.2 = bool_decide (src ≠ "").
Proof.
  destruct (@grabProfile_pipeline _ Demo.lib Demo.ops Demo.sys Demo.src0
              "http://host/profile" 1 None Demo.objTool Demo.world _ _ _ _ _ _ eq_refl)
    as [Hok _].
  destruct (Hok eq_refl) as (pr & src & e0 & t0 & pl & tl & _ & Hv & _ & _ & Hrem & _).
  exists pr, src. split; [exact Hv|exact Hrem].
Defined.

(** ** concurrentGrab: every task is accounted for *)

Lemma reports_length (slots : list profileSource) :
  (length (survivors slots) + length (reports slots) = length slots)%nat ∧
  Forall (fun ev => isPrintErr ev = true) (reports slots).
Proof.
  induction slots as [|s slots [IH1 IH2]]; [by split|].
  rewrite survivors_cons, reports_cons.
  destruct (err_ s); cbn; split; try lia; try done. by constructor.
Qed.

(** X19.  [concurrentGrab] accounts for every task of the chunk exactly
    once.  All the tasks run before anything is reported; then each task
    that failed is reported to the user, in task order, and nothing else
    is said; the tasks that succeeded are counted.  Without a merge
    error, the count and the number of reports add up to the number of
    tasks. *)
Theorem concurrentGrab_accounting {Env} `{Lib} `{ProfileOps} `{System Env}
    (sources : list profileSource) (fetch : option (Fetcher Env)) (obj : ObjTool Env)
    (e : Env) p msrc save count err e' tr :
  concurrentGrab sources fetch obj e = ((p, msrc, save, count, err), e', tr) →
  ∃ slots t1,
    runTasks fetch obj sources e = (slots, e', t1) ∧
    tr = t1 ++ reports slots ∧
    Forall (fun ev => isPrintErr ev = true) (reports slots) ∧
    reports slots
      = omap (fun s => (fun er => EvPrintErr [addr s +:+ ": " +:+ er]) <$> err_ s) slots ∧
    (length (survivors slots) + length (reports slots) = length sources)%nat ∧
    (err = None →
       count = Z.of_nat (length (survivors slots)) ∧
       count + Z.of_nat (length (reports slots)) = Z.of_nat (length sources)).
Proof.
  intros Hg.
  run_step (runTasks fetch obj sources) e slots e1 t1 Hr.
  destruct (concurrentGrab_run sources fetch obj e slots e1 t1 Hr) as (Hs & Hnone & Hok & Herr).
  destruct (reports_length slots) as [Hlen Hrep].
  rewrite <- (Forall2_length _ _ _ Hs) in Hlen.
  assert (e' = e1 ∧ tr = t1 ++ reports slots ∧
          (err = None → count = Z.of_nat (length (survivors slots)))) as (-> & -> & Hcount).
  { revert Hg. destruct (survivors slots) as [|s0 surv] eqn:Hsurv.
    - rewrite Hnone by done. by intros [= <- <- <- <- <- <- <-].
    - destruct (combineProfiles (p_ <$> s0 :: surv) (msrc_ <$> s0 :: surv))
        as [er|[pr ms]] eqn:Hc.
      + rewrite (Herr ltac:(done) er) by done. by intros [= <- <- <- <- <- <- <-].
      + rewrite (Hok ltac:(done) pr ms) by done. by intros [= <- <- <- <- <- <- <-]. }
  exists slots, t1. split_and!; try done.
  intros Hn. split; [by apply Hcount|]. rewrite (Hcount Hn). lia.
Qed.

Lemma concurrentGrab_accounting_witness :
  ∃ slots,
    (length (survivors slots) + length (reports slots) = 2)%nat ∧
    2 = Z.of_nat (length (survivors slots)).
Proof.
  destruct (@concurrentGrab_accounting _ Demo.lib Demo.ops Demo.sys Demo.twoTasks None
              Demo.objTool Demo.world _ _ _ _ _ _ _ eq_refl)
    as (slots & t1 & _ & _ & _ & _ & Hlen & Hcount).
  exists slots. split; [exact Hlen|]. by destruct (Hcount eq_refl).
Defined.

(** ** fetchProfiles: no source mark is left *)

(** X20.  No mapping of a profile that [fetchProfiles] returns still
    carries a source URL in place of its file: a mapping without build
    identity either has no file or has one that does not parse as an
    absolute URL.  The marks [collectMappingSources] left for the
    symbolizer are gone. *)
Theorem fetchProfiles_unsourced {Env} `{Lib} `{ProfileOps} `{System Env}
    (s : source) (o : Options Env) (e : Env) pr err e' tr m u :
  fetchProfiles s o e = (Some (Some pr, err), e', tr) →
  m ∈ Mappings pr → BuildID m = "" → url_Parse (File m) = inr u → File m ≠ "" →
  IsAbs u = false.
Proof.
  intros (p0 & msrcs & save & cnt & err0 & e1 & t1 & res & t2 &
          _ & Hf & [= <-] & _)%fetchProfiles_run Hin Hb Hu Hfile.
  apply fetchedProfiles_result in Hf as (_ & Hsome & _).
  destruct (Hsome pr eq_refl) as (_ & pin & psym & _ & ->).
  unfold unsourceMappings in Hin. cbn in Hin.
  apply list_elem_of_fmap in Hin as (m0 & -> & _).
  unfold unsourceMapping in *.
  destruct (decide (BuildID m0 = "")) as [Hb0|Hb0]; [|done].
  destruct (url_Parse (File m0)) as [er|u0] eqn:Hu0; [by rewrite Hu0 in Hu|].
  destruct (IsAbs u0) eqn:Ha; [done|].
  rewrite Hu0 in Hu. by simplify_eq.
Qed.

Lemma fetchProfiles_unsourced_witness :
  @IsAbs (mkURL "" "" "/bin/tool" "") = false.
Proof.
  exact (@fetchProfiles_unsourced _ Demo.lib Demo.ops Demo.sys Demo.src0 Demo.options
           Demo2.legacyWorld _ _ _ _ Demo2.mLocal (mkURL "" "" "/bin/tool" "")
           eq_refl ltac:(vm_compute; in_trace) eq_refl eq_refl ltac:(done)).
Defined.

(** ** adjustURL: the query and the caller's timeout *)

(** X21.  What [adjustURL] does to the URL and to a timeout the caller
    gave.  A source that does not parse, even with [http://] in front,
    or that has no host, is no URL: the result is the empty string and
    the timeout 0.  Otherwise the URL returned is the parsed one with its
    query encoded again; the query is the one of the source, but for
    [seconds], which is set to the caller's duration in whole seconds
    when that duration is positive and is kept otherwise.  A positive
    timeout of the caller is returned as it is. *)
Theorem adjustURL_query `{Lib} (source : string) (duration timeout : time.Duration)
    (url : string) (t : time.Duration) :
  adjustURL source duration timeout = (url, t) →
  match parseSource source with
  | inl _ => url = "" ∧ t = 0
  | inr u =>
      (Host u = "" → url = "" ∧ t = 0) ∧
      (Host u ≠ "" →
       ∃ values,
         url = url_String (setRawQuery u (url_Encode values)) ∧
         (∀ k, k ≠ "seconds" → values !! k = url_Query u !! k) ∧
         (0 < duration →
            Values_Get values "seconds" = Sprint_int (Duration_Seconds duration)) ∧
         (duration <= 0 → values = url_Query u) ∧
         (0 < timeout → t = timeout))
  end.
Proof.
  unfold adjustURL. destruct (parseSource source) as [er|u]; [by intros [= <- <-]|].
  destruct (decide (Host u = "")) as [Hh|Hh].
  { intros [= <- <-]. split; [done|]. by intros Hn. }
  intros [= <- <-]. split; [done|]. intros _.
  destruct (0 <? duration) eqn:Hd.
  - apply Z.ltb_lt in Hd. eexists. split; [done|]. split_and!.
    + intros k Hk. unfold Values_Set. by rewrite lookup_insert_ne.
    + intros _. unfold Values_Get, Values_Set. by rewrite lookup_insert_eq.
    + lia.
    + intros Ht. unfold effectiveTimeout.
      by rewrite (proj2 (Z.leb_gt _ _)) by lia.
  - apply Z.ltb_ge in Hd. eexists. split; [done|]. split_and!; try done.
    + lia.
    + intros Ht. unfold effectiveTimeout.
      by rewrite (proj2 (Z.leb_gt _ _)) by lia.
Qed.

Lemma adjustURL_query_witness :
  (@adjustURL Demo.lib "http://host/profile" (30 * time.Second) (10 * time.Second)).2
  = 10 * time.Second.
Proof.
  pose proof (@adjustURL_query Demo.lib "http://host/profile" (30 * time.Second)
                (10 * time.Second) _ _ eq_refl) as Hq.
  cbn in Hq. destruct Hq as [_ Hq].
  destruct (Hq ltac:(done)) as (values & _ & _ & _ & _ & Ht).
  apply Ht. reflexivity.
Defined.

(** ** unsourceMappings, once more *)

(** X22.  [unsourceMappings] is idempotent, given that the empty string
    does not parse as an absolute URL: a second pass finds nothing left
    to empty. *)
Theorem unsourceMappings_idempotent `{Lib} (p : Profile) :
  (∀ u, url_Parse "" = inr u → IsAbs u = false) →
  unsourceMappings (unsourceMappings p) = unsourceMappings p.
Proof.
  intros Hempty. unfold unsourceMappings, setMappings. cbn. f_equal.
  rewrite <- list_fmap_compose. apply list_fmap_ext. intros i m _. cbn.
  unfold unsourceMapping at 2 3.
  destruct (decide (BuildID m = "")) as [Hb|Hb].
  - destruct (url_Parse (File m)) as [er|u] eqn:Hu.
    + unfold unsourceMapping. by rewrite decide_True, Hu by done.
    + destruct (IsAbs u) eqn:Ha.
      * unfold unsourceMapping. cbn. rewrite decide_True by done.
        destruct (url_Parse "") as [er|u0] eqn:Hu0; [done|].
        by rewrite (Hempty u0 eq_refl).
      * unfold unsourceMapping. by rewrite decide_True, Hu, Ha by done.
  - unfold unsourceMapping. by rewrite decide_False by done.
Qed.

Lemma unsourceMappings_idempotent_witness :
  @unsourceMappings Demo.lib (@unsourceMappings Demo.lib (mkProfile [Demo.m1] [] []))
  = @unsourceMappings Demo.lib (mkProfile [Demo.m1] [] []).
Proof.
  apply (@unsourceMappings_idempotent Demo.lib).
  intros u Hu. cbn in Hu. by injection Hu as <-.
Defined.

(** ** fetchProfiles: no directory for the copy *)

Lemma fetchedProfiles_no_dir {Env} `{Lib} `{ProfileOps} `{System Env}
    (s : source) (o : Options Env) (want : nat) p0 msrcs save cnt err0
    (e : Env) res e' tr d er rest :
  fetchedProfiles s o want (p0, msrcs, save, cnt, err0) e = (res, e', tr) →
  rev tr = EvPrintErr ["Could not use temp dir "; d; ": "; er] ::
           EvMkdirAll d 493 (Some er) :: rest →
  res = (None, Some "failed to identify temp dir") ∧ save = true ∧
  ∃ pin psym, EvSymbolize (Symbolize s) msrcs pin (inr psym) ∈ tr.
Proof.
  unfold fetchedProfiles, setTmpDir, tryTmpDirs, getenv, ui_PrintErr, bind, call, emit, ret.
  split_run; intros ? Hrev; simplify_eq; cbn in Hrev; simplify_eq.
  all: split_and!; try done; eexists _, _; cbn; in_trace.
Qed.

(** X23.  Unlike a failed write, the lack of a directory for the copy is
    fatal.  When [fetchProfiles] ends on the report that the last
    candidate directory could not be created, it returns no profile and
    the error "failed to identify temp dir", although the merged profile
    had been symbolized; and that only happens when the grabbing phase
    asked for a copy. *)
Theorem fetchProfiles_no_temp_dir {Env} `{Lib} `{ProfileOps} `{System Env}
    (s : source) (o : Options Env) (e : Env) res e' tr tr0 d er :
  fetchProfiles s o e = (Some res, e', tr) →
  tr = tr0 ++ [EvMkdirAll d 493 (Some er);
               EvPrintErr ["Could not use temp dir "; d; ": "; er]] →
  res = (None, Some "failed to identify temp dir") ∧
  (∃ ms pin psym, EvSymbolize (Symbolize s) ms pin (inr psym) ∈ tr) ∧
  Exists (fun ev => remoteEvidence ev = true) tr.
Proof.
  intros (p0 & msrcs & save & cnt & err0 & e1 & t1 & res' & t2 &
          _ & Hf & [= <-] & -> & Hq & Hev)%fetchProfiles_run Htr.
  apply (f_equal (@rev event)) in Htr. rewrite !rev_app_distr in Htr. cbn in Htr.
  unfold quiet in Hq. rewrite Forall_forall in Hq.
  assert (∀ l, rev t1 = l ++ EvMkdirAll d 493 (Some er) :: rev tr0 → False) as Hno.
  { intros l Hl.
    assert (EvMkdirAll d 493 (Some er) ∈ t1) as Hin.
    { apply elem_of_reverse. unfold reverse. rewrite <- rev_alt, Hl.
      apply elem_of_app. right. apply list_elem_of_here. }
    by apply Hq in Hin. }
  destruct (rev t2) as [|x [|y l]] eqn:Hr2; cbn in Htr.
  - exfalso. apply (Hno [EvPrintErr ["Could not use temp dir "; d; ": "; er]]).
    by rewrite Htr.
  - exfalso. injection Htr as -> Htr. by apply (Hno []).
  - injection Htr as -> -> Htr.
    destruct (fetchedProfiles_no_dir _ _ _ _ _ _ _ _ _ _ _ _ _ _ _ Hf Hr2)
      as (-> & -> & pin & psym & Hsym).
    split_and!; [done| |].
    + exists msrcs, pin, psym. apply elem_of_app. by right.
    + apply Exists_app. left. by apply Hev.
Qed.

Lemma fetchProfiles_no_temp_dir_witness :
  (@fetchProfiles _ Demo.lib Demo.ops Demo.sys Demo.src0 Demo.options
     Demo2.readOnlyWorld).1.1
  = Some (None, Some "failed to identify temp dir").
Proof.
  destruct (@fetchProfiles_no_temp_dir _ Demo.lib Demo.ops Demo.sys Demo.src0 Demo.options
              Demo2.readOnlyWorld _ _ _
              (take (length Demo2.readOnlyTrace - 2) Demo2.readOnlyTrace)
              "/tmp" "read-only file system" eq_refl ltac:(vm_compute; reflexivity))
    as (Hres & _).
  exact (f_equal Some Hres).
Defined.
